(** * DataTable view pipeline (HW1 / challenge2): filter, sort, paginate

    Shallow embedding of the three generations of the [DataTable] React
    component kept in the repository:

    - [v2-results/DataTable.tsx]  (hooks [useSorting], [useFiltering],
      [usePagination] and the helper [stableSort]),
    - [v3-results/DataTable.tsx]  (hooks [useFilter], [useSort],
      [usePagination]),
    - [v4-results/src/components/DataTable.tsx] (one component, inline state).

    React state is modelled by explicit state passing: a record holds the
    [useState] cells, every event handler is a function on that record and the
    [useMemo] values are functions of props and state.

    Modelling conventions
    - JavaScript numbers that occur in the pipeline (page numbers, page sizes,
      array lengths, numeric row fields such as ages and salaries) are
      integers and are modelled by [Z]; NaN, infinities and fractions are
      outside the model.
    - JavaScript strings are modelled by [string]; [toLowerCase] folds the
      ASCII letters and [trim] strips the ASCII white space.
    - [String.prototype.localeCompare] and the relational operator [<] on two
      defined values are host operations: they are fields of the class
      [Host] and nothing is assumed about them.
    - [String(n)] of an integer is its decimal numeral (exact below
      10^21 in absolute value).
    - [Array.prototype.sort] follows ECMAScript: when the comparator is a
      consistent comparison function for the elements of the array, the
      result is the sorted rearrangement that keeps equal elements in
      their order; there is one such array ([sort_unique]) and
      [insertion_sort] computes it.  Otherwise the order is
      implementation-defined: the engine, a field of the class [Host],
      chooses the rearrangement.  The sample host of the fixtures follows
      V8's path for arrays of fewer than 64 elements. *)

From Stdlib Require Import ZArith List String Ascii Bool Lia Permutation.
From Stdlib Require Import DecimalString.
Import ListNotations.

Local Open Scope string_scope.
Local Open Scope list_scope.
Local Open Scope Z_scope.

(* ================================================================== *)
(** * Part I. Definitions *)
(* ================================================================== *)

(** ** JavaScript values and the platform operations the component uses *)

Module JS.

(** The scalar values a row field can hold. *)
Inductive value : Type :=
| VUndefined
| VNull
| VNumber (n : Z)
| VString (s : string).

(** [a === b] *)
Definition strict_eq (a b : value) : bool :=
  match a, b with
  | VUndefined, VUndefined => true
  | VNull, VNull => true
  | VNumber x, VNumber y => Z.eqb x y
  | VString s, VString t => String.eqb s t
  | _, _ => false
  end.

(** [v == null], which holds for [null] and for [undefined]. *)
Definition loose_eq_null (v : value) : bool :=
  match v with
  | VUndefined | VNull => true
  | _ => false
  end.

(** [v === null || v === undefined] *)
Definition is_null_or_undefined (v : value) : bool :=
  strict_eq v VNull || strict_eq v VUndefined.

(** [String(v)] *)
Definition String_ (v : value) : string :=
  match v with
  | VUndefined => "undefined"
  | VNull => "null"
  | VNumber n => NilZero.string_of_int (Z.to_int n)
  | VString s => s
  end.

(** Truthiness of a string: only the empty string is falsy. *)
Definition truthy (s : string) : bool :=
  match s with
  | EmptyString => false
  | String _ _ => true
  end.

Definition lower_ascii (c : ascii) : ascii :=
  let n := nat_of_ascii c in
  if (Nat.leb 65 n && Nat.leb n 90)%bool then ascii_of_nat (n + 32) else c.

(** [s.toLowerCase()] *)
Fixpoint toLowerCase (s : string) : string :=
  match s with
  | EmptyString => EmptyString
  | String c s' => String (lower_ascii c) (toLowerCase s')
  end.

(** White space stripped by [trim]: TAB, LF, VT, FF, CR and SPACE. *)
Definition is_space (c : ascii) : bool :=
  let n := nat_of_ascii c in
  ((Nat.leb 9 n && Nat.leb n 13) || Nat.eqb n 32)%bool.

Fixpoint trimStart (s : string) : string :=
  match s with
  | EmptyString => EmptyString
  | String c s' => if is_space c then trimStart s' else s
  end.

Fixpoint trimEnd (s : string) : string :=
  match s with
  | EmptyString => EmptyString
  | String c s' =>
      match trimEnd s' with
      | EmptyString => if is_space c then EmptyString else String c EmptyString
      | t => String c t
      end
  end.

(** [s.trim()] *)
Definition trim (s : string) : string := trimEnd (trimStart s).

(** [s.startsWith(t)] *)
Fixpoint startsWith (s t : string) : bool :=
  match t, s with
  | EmptyString, _ => true
  | String _ _, EmptyString => false
  | String b t', String a s' => (Ascii.eqb a b && startsWith s' t')%bool
  end.

(** [s.includes(t)] *)
Fixpoint includes (s t : string) : bool :=
  (startsWith s t ||
   match s with
   | EmptyString => false
   | String _ s' => includes s' t
   end)%bool.

(** [Math.ceil(a / b)] on integers, for [b <> 0]. *)
Definition ceil_div (a b : Z) : Z := - ((- a) / b).

(** [arr.slice(start, end)], negative indices counting from the end. *)
Definition slice {A : Type} (l : list A) (start end_ : Z) : list A :=
  let len := Z.of_nat (List.length l) in
  let k := if start <? 0 then Z.max (len + start) 0 else Z.min start len in
  let final := if end_ <? 0 then Z.max (len + end_) 0 else Z.min end_ len in
  firstn (Z.to_nat (final - k)) (skipn (Z.to_nat k) l).

(** One step of the sort: [x] stood before every element of the sorted
    list [l]; it moves right past [y] only when the comparator says that
    [x] goes after [y]. *)
Fixpoint insert {A : Type} (cmp : A -> A -> Z) (x : A) (l : list A) : list A :=
  match l with
  | [] => [x]
  | y :: l' => if 0 <? cmp x y then y :: insert cmp x l' else x :: l
  end.

(** The sorted rearrangement of [arr] that keeps equal elements in their
    order, built by insertion from the right. *)
Fixpoint insertion_sort {A : Type} (cmp : A -> A -> Z) (arr : list A)
    : list A :=
  match arr with
  | [] => []
  | x :: l => insert cmp x (insertion_sort cmp l)
  end.

(** The requirements of ECMAScript on a "consistent comparison function"
    at the values [a], [b] and [c]: [a] equals itself, equality is
    symmetric, and equality, "before" and "after" are transitive.  The
    sign of the result is what the engine looks at. *)
Definition consistent_at {A : Type} (cmp : A -> A -> Z) (a b c : A) : bool :=
  (cmp a a =? 0)
  && implb (cmp a b =? 0) (cmp b a =? 0)
  && implb ((cmp a b =? 0) && (cmp b c =? 0)) (cmp a c =? 0)
  && implb ((cmp a b <? 0) && (cmp b c <? 0)) (cmp a c <? 0)
  && implb ((0 <? cmp a b) && (0 <? cmp b c)) (0 <? cmp a c).

(** [cmp] is a consistent comparison function for the elements of
    [arr]. *)
Definition consistent_onb {A : Type} (cmp : A -> A -> Z) (arr : list A)
    : bool :=
  forallb (fun a =>
    forallb (fun b =>
      forallb (fun c => consistent_at cmp a b c) arr) arr) arr.

(** The integers [a, a+1, ..., b] pushed by
    [for (let i = a; i <= b; i++) pages.push(i)]. *)
Definition for_range (a b : Z) : list Z :=
  map (fun i => a + Z.of_nat i) (seq 0 (Z.to_nat (b - a + 1))).

(** The host operations the component calls and whose result is fixed by
    the engine and its locale data. *)
Class Host : Type := {
  (** [s.localeCompare(t)] *)
  localeCompare : string -> string -> Z;
  (** [a < b] for two values that are neither [null] nor [undefined] *)
  less_than : value -> value -> bool;
  (** The order in which [arr.sort(cmp)] leaves the elements when [cmp] is
      not a consistent comparison function for them: the list of the
      indices of [arr] in the order of the result. *)
  implementation_defined_order :
    forall A : Type, (A -> A -> Z) -> list A -> list nat
}.

(** [order] lists each of the indices [0 .. n-1] once. *)
Definition is_rearrangement (order : list nat) (n : nat) : bool :=
  (List.length order =? n)%nat
  && forallb (fun i => existsb (Nat.eqb i) order) (seq 0 n).

(** The elements of [arr] in the order [order]; an engine only rearranges
    the array, so an answer that is not a rearrangement of its indices
    leaves the array as it is. *)
Definition rearrange {A : Type} (arr : list A) (order : list nat) : list A :=
  if is_rearrangement order (List.length arr)
  then flat_map (fun i => match nth_error arr i with
                          | Some x => [x]
                          | None => []
                          end) order
  else arr.

(** [[...arr].sort(cmp)]: a new array, the argument is not changed. *)
Definition sort {host : Host} {A : Type} (cmp : A -> A -> Z) (arr : list A)
    : list A :=
  if consistent_onb cmp arr then insertion_sort cmp arr
  else rearrange arr (implementation_defined_order A cmp arr).

End JS.

Import JS.

(** ** The types of [types/index.ts] (the same in the three versions) *)

Module Row.
(** A row object: its own properties in insertion order. *)
Definition t : Type := list (string * value).

(** [row[key]]: the value of the property, [undefined] when it is absent. *)
Fixpoint get (row : t) (key : string) : value :=
  match row with
  | [] => VUndefined
  | (k, v) :: row' => if String.eqb k key then v else get row' key
  end.
End Row.

Module Column.
(** [interface Column<T>]; [sortable?: boolean] is [None] when absent.
    The [render] callback only produces the text of a cell and is not part
    of the model. *)
Record t : Type := mk {
  key : string;
  header : string;
  sortable : option bool
}.

(** [col.sortable] used as a condition. *)
Definition is_sortable (col : t) : bool :=
  match sortable col with
  | Some true => true
  | _ => false
  end.
End Column.

Inductive SortDirection : Type := asc | desc.

Module SortConfig.
(** [interface SortConfig<T>]: [key: keyof T | null]. *)
Record t : Type := mk {
  key : option string;
  direction : SortDirection
}.

(** [!sortConfig.key] is false: the key is neither [null] nor the empty
    property name. *)
Definition active_key (c : t) : option string :=
  match key c with
  | Some k => if truthy k then Some k else None
  | None => None
  end.
End SortConfig.

(** [prev.key === key && prev.direction === 'asc'] *)
Definition same_key_asc (prev : SortConfig.t) (key : string) : bool :=
  match SortConfig.key prev, SortConfig.direction prev with
  | Some k, asc => String.eqb k key
  | _, _ => false
  end.

(* ------------------------------------------------------------------ *)
(** ** v4-results/src/components/DataTable.tsx *)
(* ------------------------------------------------------------------ *)

Module V4.
Section Component.
Context {host : Host}.

(** Props of the component. *)
Record Props : Type := mkProps {
  data : list Row.t;
  columns : list Column.t;
  pageSizeOptions : list Z;
  defaultPageSize : Z
}.

(** The [useState] cells ([hoveredRow] only drives a row style). *)
Record State : Type := mkState {
  filterText : string;
  sortConfig : SortConfig.t;
  currentPage : Z;
  pageSize : Z
}.

Definition initial (p : Props) : State :=
  {| filterText := "";
     sortConfig := SortConfig.mk None asc;
     currentPage := 1;
     pageSize := defaultPageSize p |}.

(** [const filteredData = useMemo(...)] *)
Definition filteredData (data : list Row.t) (columns : list Column.t)
    (filterText : string) : list Row.t :=
  if negb (truthy (trim filterText)) then data
  else
    let searchTerm := trim (toLowerCase filterText) in
    filter (fun row =>
      existsb (fun col =>
        let value := Row.get row (Column.key col) in
        includes (toLowerCase (String_ value)) searchTerm) columns) data.

(** The comparator passed to [sort]. *)
Definition compare (key : string) (direction : SortDirection)
    (a b : Row.t) : Z :=
  let aVal := Row.get a key in
  let bVal := Row.get b key in
  if strict_eq aVal bVal then 0
  else if loose_eq_null aVal then 1
  else if loose_eq_null bVal then -1
  else
    let comparison :=
      match aVal, bVal with
      | VNumber x, VNumber y => x - y
      | _, _ => localeCompare (String_ aVal) (String_ bVal)
      end in
    match direction with
    | asc => comparison
    | desc => - comparison
    end.

(** [const sortedData = useMemo(...)] *)
Definition sortedData (filteredData : list Row.t) (sortConfig : SortConfig.t)
    : list Row.t :=
  match SortConfig.active_key sortConfig with
  | None => filteredData
  | Some key =>
      sort (compare key (SortConfig.direction sortConfig)) filteredData
  end.

(** [Math.max(1, Math.ceil(sortedData.length / pageSize))] *)
Definition totalPages (sortedData : list Row.t) (pageSize : Z) : Z :=
  Z.max 1 (ceil_div (Z.of_nat (List.length sortedData)) pageSize).

(** [Math.min(currentPage, totalPages)] *)
Definition safePage (currentPage totalPages : Z) : Z :=
  Z.min currentPage totalPages.

(** [const paginatedData = useMemo(...)] *)
Definition paginatedData (sortedData : list Row.t) (safePage pageSize : Z)
    : list Row.t :=
  let startIndex := (safePage - 1) * pageSize in
  slice sortedData startIndex (startIndex + pageSize).

(** [getPageNumbers] *)
Definition getPageNumbers (totalPages safePage : Z) : list Z :=
  let maxVisible := 5 in
  if totalPages <=? maxVisible then for_range 1 totalPages
  else if safePage <=? 3 then for_range 1 maxVisible
  else if totalPages - 2 <=? safePage
       then for_range (totalPages - maxVisible + 1) totalPages
  else for_range (safePage - 2) (safePage + 2).

(** *** Event handlers *)

Definition handleSort (key : string) (s : State) : State :=
  {| filterText := filterText s;
     sortConfig :=
       SortConfig.mk (Some key)
         (if same_key_asc (sortConfig s) key then desc else asc);
     currentPage := 1;
     pageSize := pageSize s |}.

Definition handleFilterChange (value : string) (s : State) : State :=
  {| filterText := value;
     sortConfig := sortConfig s;
     currentPage := 1;
     pageSize := pageSize s |}.

Definition handlePageSizeChange (value : Z) (s : State) : State :=
  {| filterText := filterText s;
     sortConfig := sortConfig s;
     currentPage := 1;
     pageSize := value |}.

(** [setCurrentPage(n)] and [setCurrentPage(p => f p)] *)
Definition setCurrentPage (f : Z -> Z) (s : State) : State :=
  {| filterText := filterText s;
     sortConfig := sortConfig s;
     currentPage := f (currentPage s);
     pageSize := pageSize s |}.

(** *** The values of one render *)

Record View : Type := mkView {
  v_sortedData : list Row.t;
  v_totalItems : Z;
  v_totalPages : Z;
  v_safePage : Z;
  v_paginatedData : list Row.t;
  v_startIndex : Z;
  v_endIndex : Z
}.

Definition render (p : Props) (s : State) : View :=
  let filtered := filteredData (data p) (columns p) (filterText s) in
  let sorted := sortedData filtered (sortConfig s) in
  let tp := totalPages sorted (pageSize s) in
  let sp := safePage (currentPage s) tp in
  let len := Z.of_nat (List.length sorted) in
  {| v_sortedData := sorted;
     v_totalItems := len;
     v_totalPages := tp;
     v_safePage := sp;
     v_paginatedData := paginatedData sorted sp (pageSize s);
     v_startIndex := if len =? 0 then 0 else (sp - 1) * pageSize s + 1;
     v_endIndex := Z.min (sp * pageSize s) len |}.

(** *** User interaction

    One constructor per control of the rendered table.  A header is named
    by the index of its column in [columns]; the page-size select offers
    the values of [pageSizeOptions]; numbered buttons exist for the pages
    of [getPageNumbers]; a disabled button does not fire. *)
Inductive Event : Type :=
| FilterInput (value : string)
| PageSizeSelect (size : Z)
| HeaderClick (col : nat)
| HeaderKeyDown (col : nat) (key : string)
| FirstPage
| PreviousPage
| PageButton (pageNum : Z)
| NextPage
| LastPage.

Definition step (p : Props) (s : State) (e : Event) : State :=
  let v := render p s in
  match e with
  | FilterInput value => handleFilterChange value s
  | PageSizeSelect size =>
      if existsb (Z.eqb size) (pageSizeOptions p)
      then handlePageSizeChange size s else s
  | HeaderClick i =>
      match nth_error (columns p) i with
      | Some col =>
          if Column.is_sortable col then handleSort (Column.key col) s else s
      | None => s
      end
  | HeaderKeyDown i k =>
      match nth_error (columns p) i with
      | Some col =>
          if (Column.is_sortable col
              && (String.eqb k "Enter" || String.eqb k " "))%bool
          then handleSort (Column.key col) s else s
      | None => s
      end
  | FirstPage =>
      if v_safePage v =? 1 then s else setCurrentPage (fun _ => 1) s
  | PreviousPage =>
      if v_safePage v =? 1 then s
      else setCurrentPage (fun page => Z.max 1 (page - 1)) s
  | PageButton pageNum =>
      if existsb (Z.eqb pageNum)
           (getPageNumbers (v_totalPages v) (v_safePage v))
      then setCurrentPage (fun _ => pageNum) s else s
  | NextPage =>
      if v_safePage v =? v_totalPages v then s
      else setCurrentPage (fun page => Z.min (v_totalPages v) (page + 1)) s
  | LastPage =>
      if v_safePage v =? v_totalPages v then s
      else setCurrentPage (fun _ => v_totalPages v) s
  end.

(** The state after a sequence of interactions. *)
Definition run (p : Props) (s : State) (es : list Event) : State :=
  fold_left (step p) es s.

End Component.
End V4.

(* ------------------------------------------------------------------ *)
(** ** v3-results/DataTable.tsx *)
(* ------------------------------------------------------------------ *)

Module V3.
Section Component.
Context {host : Host}.

(** [DataTableProps<T>]; [pageSize] is the initial page size. *)
Record Props : Type := mkProps {
  data : list Row.t;
  columns : list Column.t;
  initialPageSize : Z;
  pageSizeOptions : list Z
}.

(** The [useState] cells of [useFilter], [useSort] and [usePagination]. *)
Record State : Type := mkState {
  filterText : string;
  sortConfig : SortConfig.t;
  currentPage : Z;
  pageSize : Z
}.

Definition initial (p : Props) : State :=
  {| filterText := "";
     sortConfig := SortConfig.mk None asc;
     currentPage := 1;
     pageSize := initialPageSize p |}.

(** [useFilter]: [filteredData] *)
Definition filteredData (data : list Row.t) (columns : list Column.t)
    (filterText : string) : list Row.t :=
  if negb (truthy (trim filterText)) then data
  else
    let lowerFilter := toLowerCase filterText in
    filter (fun row =>
      existsb (fun col =>
        let value := Row.get row (Column.key col) in
        if is_null_or_undefined value then false
        else includes (toLowerCase (String_ value)) lowerFilter) columns) data.

(** [useSort]: the comparator *)
Definition compare (key : string) (direction : SortDirection)
    (a b : Row.t) : Z :=
  let aValue := Row.get a key in
  let bValue := Row.get b key in
  if strict_eq aValue bValue then 0
  else if is_null_or_undefined aValue then 1
  else if is_null_or_undefined bValue then -1
  else
    let comparison := if less_than aValue bValue then -1 else 1 in
    match direction with
    | asc => comparison
    | desc => - comparison
    end.

(** [useSort]: [sortedData] *)
Definition sortedData (data : list Row.t) (sortConfig : SortConfig.t)
    : list Row.t :=
  match SortConfig.active_key sortConfig with
  | None => data
  | Some key => sort (compare key (SortConfig.direction sortConfig)) data
  end.

(** [useSort]: [handleSort] *)
Definition handleSort (key : string) (s : State) : State :=
  {| filterText := filterText s;
     sortConfig :=
       let newDirection :=
         if same_key_asc (sortConfig s) key then desc else asc in
       SortConfig.mk (Some key) newDirection;
     currentPage := currentPage s;
     pageSize := pageSize s |}.

Definition setFilterText (value : string) (s : State) : State :=
  {| filterText := value;
     sortConfig := sortConfig s;
     currentPage := currentPage s;
     pageSize := pageSize s |}.

Definition setCurrentPage (page : Z) (s : State) : State :=
  {| filterText := filterText s;
     sortConfig := sortConfig s;
     currentPage := page;
     pageSize := pageSize s |}.

(** [usePagination]: derived values *)
Definition totalPages (data : list Row.t) (pageSize : Z) : Z :=
  Z.max 1 (ceil_div (Z.of_nat (List.length data)) pageSize).

Definition safePage (currentPage totalPages : Z) : Z :=
  Z.min currentPage totalPages.

Definition paginatedData (data : list Row.t) (safePage pageSize : Z)
    : list Row.t :=
  let startIndex := (safePage - 1) * pageSize in
  slice data startIndex (startIndex + pageSize).

(** [usePagination]: callbacks; [totalPages] is the value of the render
    in which the callback was created. *)
Definition goToPage (totalPages : Z) (page : Z) (s : State) : State :=
  let validPage := Z.max 1 (Z.min page totalPages) in
  setCurrentPage validPage s.

Definition goToNextPage (totalPages : Z) (s : State) : State :=
  goToPage totalPages (currentPage s + 1) s.

Definition goToPreviousPage (totalPages : Z) (s : State) : State :=
  goToPage totalPages (currentPage s - 1) s.

Definition resetPage (s : State) : State := setCurrentPage 1 s.

Definition changePageSize (newSize : Z) (s : State) : State :=
  {| filterText := filterText s;
     sortConfig := sortConfig s;
     currentPage := 1;
     pageSize := newSize |}.

(** The object returned by [usePagination] (callbacks left out). *)
Record Pagination : Type := mkPagination {
  p_currentPage : Z;
  p_pageSize : Z;
  p_totalPages : Z;
  p_totalItems : Z;
  p_paginatedData : list Row.t;
  p_hasNextPage : bool;
  p_hasPreviousPage : bool
}.

Definition usePagination (data : list Row.t) (s : State) : Pagination :=
  let tp := totalPages data (pageSize s) in
  let sp := safePage (currentPage s) tp in
  {| p_currentPage := sp;
     p_pageSize := pageSize s;
     p_totalPages := tp;
     p_totalItems := Z.of_nat (List.length data);
     p_paginatedData := paginatedData data sp (pageSize s);
     p_hasNextPage := sp <? tp;
     p_hasPreviousPage := 1 <? sp |}.

(** [DataTable]: the hooks chained as in the component body. *)
Definition pagination (p : Props) (s : State) : Pagination :=
  let filtered := filteredData (data p) (columns p) (filterText s) in
  let sorted := sortedData filtered (sortConfig s) in
  usePagination sorted s.

(** [DataTable]: handlers *)
Definition handleFilterChange (value : string) (s : State) : State :=
  resetPage (setFilterText value s).

Definition handleSortClick (key : string) (s : State) : State :=
  resetPage (handleSort key s).

Definition handlePageSizeChange (value : Z) (s : State) : State :=
  changePageSize value s.

(** *** User interaction

    A sort button exists only in the header of a column whose [sortable]
    is truthy; the "Clear filter" button exists only in the empty state
    and while the filter text is not empty; a disabled button does not
    fire. *)
Inductive Event : Type :=
| FilterInput (value : string)
| ClearFilter
| SortButton (col : nat)
| PageSizeSelect (size : Z)
| Previous
| Next.

Definition step (p : Props) (s : State) (e : Event) : State :=
  let pg := pagination p s in
  match e with
  | FilterInput value => handleFilterChange value s
  | ClearFilter =>
      match p_paginatedData pg with
      | [] => if truthy (filterText s) then setFilterText "" s else s
      | _ :: _ => s
      end
  | SortButton i =>
      match nth_error (columns p) i with
      | Some column =>
          if Column.is_sortable column
          then handleSortClick (Column.key column) s else s
      | None => s
      end
  | PageSizeSelect size =>
      if existsb (Z.eqb size) (pageSizeOptions p)
      then handlePageSizeChange size s else s
  | Previous =>
      if p_hasPreviousPage pg then goToPreviousPage (p_totalPages pg) s else s
  | Next =>
      if p_hasNextPage pg then goToNextPage (p_totalPages pg) s else s
  end.

Definition run (p : Props) (s : State) (es : list Event) : State :=
  fold_left (step p) es s.

End Component.
End V3.

(* ------------------------------------------------------------------ *)
(** ** v2-results/DataTable.tsx: the sort and filter hooks *)
(* ------------------------------------------------------------------ *)

Module V2.
Section Component.
Context {host : Host}.

(** [stableSort]: decorate with the index, sort with the index as the
    last tie-break, undecorate. *)
Definition stableSort {T : Type} (arr : list T) (compareFn : T -> T -> Z)
    : list T :=
  let indexed := combine arr (map Z.of_nat (seq 0 (List.length arr))) in
  let sorted :=
    sort (fun a b =>
            let result := compareFn (fst a) (fst b) in
            if negb (result =? 0) then result else snd a - snd b) indexed in
  map fst sorted.

(** [useSorting]: the comparator of [sortData] *)
Definition compare (key : string) (direction : SortDirection)
    (a b : Row.t) : Z :=
  let aVal := Row.get a key in
  let bVal := Row.get b key in
  if strict_eq aVal bVal then 0
  else if loose_eq_null aVal then 1
  else if loose_eq_null bVal then -1
  else
    let comparison := if less_than aVal bVal then -1 else 1 in
    match direction with
    | asc => comparison
    | desc => - comparison
    end.

(** [useSorting]: [sortData] *)
Definition sortData (sortConfig : SortConfig.t) (data : list Row.t)
    : list Row.t :=
  match SortConfig.active_key sortConfig with
  | None => data
  | Some key =>
      stableSort data (compare key (SortConfig.direction sortConfig))
  end.

(** [useSorting]: [handleSort] *)
Definition handleSort (key : string) (prev : SortConfig.t) : SortConfig.t :=
  SortConfig.mk (Some key) (if same_key_asc prev key then desc else asc).

(** The gate of a header in [DataTable]: [column.sortable !== false]. *)
Definition sortable_not_false (column : Column.t) : bool :=
  match Column.sortable column with
  | Some false => false
  | _ => true
  end.

(** The sort state after a click on the header of [column]:
    [column.sortable !== false && handleColumnSort(column.key)]. *)
Definition headerClick (column : Column.t) (prev : SortConfig.t)
    : SortConfig.t :=
  if sortable_not_false column then handleSort (Column.key column) prev
  else prev.

(** [useFiltering]: [filterData] *)
Definition filterData (columns : list Column.t) (filterText : string)
    (data : list Row.t) : list Row.t :=
  if negb (truthy (trim filterText)) then data
  else
    let searchTerm := trim (toLowerCase filterText) in
    let filterableKeys := map Column.key columns in
    filter (fun row =>
      existsb (fun key =>
        let value := Row.get row key in
        if loose_eq_null value then false
        else includes (toLowerCase (String_ value)) searchTerm)
        filterableKeys) data.

End Component.
End V2.

(* ------------------------------------------------------------------ *)
(** ** Fixtures: the data of the v4 test-suite and a sample host *)
(* ------------------------------------------------------------------ *)

Module Fixture.

(** A host that compares strings by code units. *)
Definition codeUnitCompare (s t : string) : Z :=
  match String.compare s t with
  | Lt => -1
  | Eq => 0
  | Gt => 1
  end.

Definition lessThan (a b : value) : bool :=
  match a, b with
  | VNumber x, VNumber y => x <? y
  | VString s, VString t =>
      match String.compare s t with Lt => true | _ => false end
  | _, _ => false
  end.

(** The sort of V8 (third_party/v8/builtins/array-sort.tq) on an array of
    fewer than 64 elements, which it treats as one run: the initial run is
    counted and, when it is strictly descending, reversed
    ([CountAndMakeRun]); every later element is then put into the sorted
    part at the place a binary search finds ([BinaryInsertionSort]). *)
Module V8.

(** The number of elements after [previous] that continue the run. *)
Fixpoint run_rest {A : Type} (cmp : A -> A -> Z) (isDescending : bool)
    (previous : A) (l : list A) : nat :=
  match l with
  | [] => 0
  | current :: l' =>
      let order := cmp current previous in
      if (if isDescending then order <? 0 else 0 <=? order)
      then S (run_rest cmp isDescending current l')
      else 0
  end.

(** [while (left < right)]: [mid = left + ((right - left) >> 1)], then
    [right = mid] when the pivot compares less than the element at [mid]
    and [left = mid + 1] otherwise. *)
Fixpoint binary_search {A : Type} (cmp : A -> A -> Z) (pivot : A)
    (sorted : list A) (left right : nat) (steps : nat) : nat :=
  match steps with
  | O => left
  | S steps' =>
      if (left <? right)%nat
      then
        let mid := (left + (right - left) / 2)%nat in
        match nth_error sorted mid with
        | Some element =>
            if cmp pivot element <? 0
            then binary_search cmp pivot sorted left mid steps'
            else binary_search cmp pivot sorted (S mid) right steps'
        | None => left
        end
      else left
  end.

(** The pivot moved to the place found, the elements from there on
    shifted by one. *)
Definition binary_insert {A : Type} (cmp : A -> A -> Z) (sorted : list A)
    (pivot : A) : list A :=
  let left :=
    binary_search cmp pivot sorted 0 (List.length sorted)
      (List.length sorted) in
  firstn left sorted ++ pivot :: skipn left sorted.

Definition sort {A : Type} (cmp : A -> A -> Z) (arr : list A) : list A :=
  match arr with
  | elementHigh :: elementLow :: rest =>
      let isDescending := cmp elementLow elementHigh <? 0 in
      let runLength := (2 + run_rest cmp isDescending elementLow rest)%nat in
      let run := firstn runLength arr in
      fold_left (binary_insert cmp) (skipn runLength arr)
        (if isDescending then rev run else run)
  | _ => arr
  end.

(** The result named by the indices of the array. *)
Definition order (A : Type) (cmp : A -> A -> Z) (arr : list A) : list nat :=
  sort (fun i j =>
          match nth_error arr i, nth_error arr j with
          | Some a, Some b => cmp a b
          | _, _ => 0
          end) (seq 0 (List.length arr)).

End V8.

Definition host : Host :=
  {| localeCompare := codeUnitCompare;
     less_than := lessThan;
     implementation_defined_order := V8.order |}.

(** [interface TestPerson] *)
Definition person (id : Z) (name : string) (age : Z) (city : string) : Row.t :=
  [("id", VNumber id); ("name", VString name);
   ("age", VNumber age); ("city", VString city)].

Definition testData : list Row.t :=
  [ person 1 "Alice" 30 "New York";
    person 2 "Bob" 25 "Los Angeles";
    person 3 "Charlie" 35 "Chicago";
    person 4 "Diana" 28 "Houston";
    person 5 "Eve" 32 "Phoenix";
    person 6 "Frank" 29 "Philadelphia";
    person 7 "Grace" 27 "San Antonio";
    person 8 "Henry" 33 "San Diego";
    person 9 "Iris" 26 "Dallas";
    person 10 "Jack" 31 "San Jose";
    person 11 "Karen" 34 "Austin";
    person 12 "Leo" 24 "Jacksonville" ].

Definition testColumns : list Column.t :=
  [ Column.mk "name" "Name" (Some true);
    Column.mk "age" "Age" (Some true);
    Column.mk "city" "City" (Some true) ].

(** A table with one plain column and a row whose field is [null]. *)
Definition nameOnly : list Column.t := [ Column.mk "name" "Name" None ].

Definition nullRow : Row.t := [("id", VNumber 1); ("name", VNull)].

(** A row without the optional property [name]. *)
Definition bareRow : Row.t := [("id", VNumber 2)].

(** Rows with duplicate sort keys, from the v2 test "stable sort preserves
    order of equal elements", and a table with null and undefined keys. *)
Definition employee (id : Z) (name : string) (department : value) : Row.t :=
  [("id", VNumber id); ("name", VString name); ("department", department)].

Definition dataWithDupes : list Row.t :=
  [ employee 1 "Zara" (VString "Engineering");
    employee 2 "Alex" (VString "Engineering");
    employee 3 "Maya" (VString "Engineering") ].

Definition dataWithNulls : list Row.t :=
  [ employee 1 "Ann" VNull;
    employee 2 "Ben" (VString "Sales");
    [("id", VNumber 3); ("name", VString "Cal")];
    employee 4 "Dee" (VString "Engineering") ].

(** A column of type [string | number]: the string ['9'] and the numbers
    [10] and [9]. *)
Definition coded (id : Z) (code : value) : Row.t :=
  [("id", VNumber id); ("code", code)].

Definition dataWithMixedCodes : list Row.t :=
  [ coded 1 (VString "9"); coded 2 (VNumber 10); coded 3 (VNumber 9) ].



(** The columns of the v3 test "handles column without sortable flag". *)
Definition columnsWithoutSort : list Column.t :=
  [ Column.mk "name" "Name" None;
    Column.mk "age" "Age" (Some true) ].

Definition v4Props : V4.Props :=
  V4.mkProps testData testColumns [5; 10; 20] 5.

Definition v4PropsWithoutSort : V4.Props :=
  V4.mkProps testData columnsWithoutSort [5; 10; 20] 5.

Definition v3PropsWithoutSort : V3.Props :=
  V3.mkProps testData columnsWithoutSort 5 [5; 10; 20].

Definition v3Props : V3.Props :=
  V3.mkProps testData testColumns 5 [5; 10; 20].

End Fixture.

(* ------------------------------------------------------------------ *)
(** ** Vocabulary of the statements *)
(* ------------------------------------------------------------------ *)

(** No element of the class [late] stands before an element outside it. *)
Definition late_last {A : Type} (late : A -> bool) (l : list A) : Prop :=
  ForallOrdPairs (fun x y => late x = true -> late y = true) l.

(** [cmp] is a consistent comparison function for the elements of [l]
    (ECMAScript, Array.prototype.sort): for all elements [a], [b], [c],
    [a] compares equal to itself, equality is symmetric, and equality,
    "before" and "after" are transitive. *)
Definition consistent_on {A : Type} (cmp : A -> A -> Z) (l : list A) : Prop :=
  forall a b c, In a l -> In b l -> In c l ->
    cmp a a = 0 /\
    (cmp a b = 0 -> cmp b a = 0) /\
    (cmp a b = 0 -> cmp b c = 0 -> cmp a c = 0) /\
    (cmp a b < 0 -> cmp b c < 0 -> cmp a c < 0) /\
    (0 < cmp a b -> 0 < cmp b c -> 0 < cmp a c).

(** No element of [l] compares greater than a later one. *)
Definition sorted_by {A : Type} (cmp : A -> A -> Z) (l : list A) : Prop :=
  ForallOrdPairs (fun a b => cmp a b <= 0) l.

(** [clamp(x, lo, hi)] as the specification of the pagination stage
    writes it. *)
Definition clamp (x lo hi : Z) : Z := Z.max lo (Z.min x hi).

(** The value of column [col] in [row] is neither [null] nor [undefined]. *)
Definition field_defined (row : Row.t) (col : Column.t) : bool :=
  negb (loose_eq_null (Row.get row (Column.key col))).

(** The value of column [col] in [row], stringified and case-folded,
    contains [needle]. *)
Definition field_contains (row : Row.t) (col : Column.t) (needle : string)
    : bool :=
  includes (toLowerCase (String_ (Row.get row (Column.key col)))) needle.

(** A null or undefined field never contributes a match: a row all of
    whose column values are null or undefined is never kept by a
    non-blank query. *)
Definition null_fields_never_match
    (stage : list Row.t -> list Column.t -> string -> list Row.t) : Prop :=
  forall data columns q r,
    trim q <> "" ->
    (forall col, In col columns -> field_defined r col = false) ->
    ~ In r (stage data columns q).

(** The sort-key value of row [r] is null or undefined. *)
Definition key_is_nullish (key : string) (r : Row.t) : bool :=
  loose_eq_null (Row.get r key).

(** Stability of a sort stage [out] of [input] under the comparator
    [cmp]: the output is a rearrangement of the input and every class of
    rows that compare equal to one another keeps its input order. *)
Definition stable_rearrangement (cmp : Row.t -> Row.t -> Z)
    (input out : list Row.t) : Prop :=
  Permutation out input /\
  forall p : Row.t -> bool,
    (forall a b, p a = true -> p b = true -> cmp a b = 0) ->
    filter p out = filter p input.

(** The rows with a defined sort key come first, the others follow. *)
Definition nulls_at_end (key : string) (out : list Row.t) : Prop :=
  exists defined_rows null_rows,
    out = defined_rows ++ null_rows /\
    Forall (fun r => key_is_nullish key r = false) defined_rows /\
    Forall (fun r => key_is_nullish key r = true) null_rows.

(** The data model of the pagination state: page sizes are positive. *)
Definition positive_sizes (initial : Z) (options : list Z) : Prop :=
  1 <= initial /\ Forall (fun n => 1 <= n) options.

(** v4: what holds of the state cells in every reachable state. *)
Definition V4_state_ok {host : Host} (p : V4.Props) (s : V4.State) : Prop :=
  1 <= V4.pageSize s /\
  1 <= V4.currentPage s <= V4.v_totalPages (V4.render p s).

(** v3: what holds of the state cells in every reachable state. *)
Definition V3_state_ok {host : Host} (p : V3.Props) (s : V3.State) : Prop :=
  1 <= V3.pageSize s /\
  1 <= V3.currentPage s <= V3.p_totalPages (V3.pagination p s).

(** The other direction. *)
Definition flip (d : SortDirection) : SortDirection :=
  match d with
  | asc => desc
  | desc => asc
  end.

(** The sort key names a column whose [sortable] flag is [true]. *)
Definition sort_key_is_sortable (columns : list Column.t) (cfg : SortConfig.t)
    : Prop :=
  match SortConfig.key cfg with
  | None => True
  | Some k =>
      exists col, In col columns /\ Column.sortable col = Some true /\
                  Column.key col = k
  end.

(** Page navigation among the interactions of v4 and of v3. *)
Definition V4_is_navigation (e : V4.Event) : bool :=
  match e with
  | V4.FirstPage | V4.PreviousPage | V4.PageButton _
  | V4.NextPage | V4.LastPage => true
  | _ => false
  end.

Definition V3_is_navigation (e : V3.Event) : bool :=
  match e with
  | V3.Previous | V3.Next => true
  | _ => false
  end.

(* ------------------------------------------------------------------ *)
(** ** v2-results/DataTable.tsx: [usePagination] and the component *)
(* ------------------------------------------------------------------ *)

Module V2Table.
Section Component.
Context {host : Host}.

(** [DataTableProps<T>] of v2. *)
Record Props : Type := mkProps {
  data : list Row.t;
  columns : list Column.t;
  pageSizeOptions : list Z;
  defaultPageSize : Z
}.

(** The [useState] cells of [useSorting], [useFiltering] and
    [usePagination]. *)
Record State : Type := mkState {
  filterText : string;
  sortConfig : SortConfig.t;
  currentPage : Z;
  pageSize : Z
}.

Definition initial (p : Props) : State :=
  {| filterText := "";
     sortConfig := SortConfig.mk None asc;
     currentPage := 1;
     pageSize := defaultPageSize p |}.

(** [usePagination]: [Math.max(1, Math.ceil(totalItems / pageSize))] *)
Definition totalPages (totalItems pageSize : Z) : Z :=
  Z.max 1 (ceil_div totalItems pageSize).

(** [usePagination]: [Math.min(currentPage, totalPages)] *)
Definition safeCurrentPage (currentPage totalPages : Z) : Z :=
  Z.min currentPage totalPages.

(** [usePagination]: [paginateData] *)
Definition paginateData (safeCurrentPage pageSize : Z) (data : list Row.t)
    : list Row.t :=
  let startIndex := (safeCurrentPage - 1) * pageSize in
  slice data startIndex (startIndex + pageSize).

Definition setCurrentPage (page : Z) (s : State) : State :=
  {| filterText := filterText s;
     sortConfig := sortConfig s;
     currentPage := page;
     pageSize := pageSize s |}.

(** [usePagination]: [goToPage], with the [totalPages] of the render. *)
Definition goToPage (totalPages : Z) (page : Z) (s : State) : State :=
  setCurrentPage (Z.max 1 (Z.min page totalPages)) s.

Definition resetToFirstPage (s : State) : State := setCurrentPage 1 s.

(** [usePagination]: [handlePageSizeChange] *)
Definition handlePageSizeChange (newSize : Z) (s : State) : State :=
  {| filterText := filterText s;
     sortConfig := sortConfig s;
     currentPage := 1;
     pageSize := newSize |}.

(** [DataTable]: [handleFilterChange] *)
Definition handleFilterChange (value : string) (s : State) : State :=
  resetToFirstPage
    {| filterText := value;
       sortConfig := sortConfig s;
       currentPage := currentPage s;
       pageSize := pageSize s |}.

(** [DataTable]: [handleColumnSort] *)
Definition handleColumnSort (key : string) (s : State) : State :=
  resetToFirstPage
    {| filterText := filterText s;
       sortConfig := V2.handleSort key (sortConfig s);
       currentPage := currentPage s;
       pageSize := pageSize s |}.

(** The values of one render; [v_currentPage] is the [currentPage]
    returned by [usePagination], that is [safeCurrentPage]. *)
Record View : Type := mkView {
  v_sortedData : list Row.t;
  v_currentPage : Z;
  v_totalPages : Z;
  v_displayedData : list Row.t
}.

Definition render (p : Props) (s : State) : View :=
  let filteredData := V2.filterData (columns p) (filterText s) (data p) in
  let sortedData := V2.sortData (sortConfig s) filteredData in
  let tp := totalPages (Z.of_nat (List.length sortedData)) (pageSize s) in
  let cp := safeCurrentPage (currentPage s) tp in
  {| v_sortedData := sortedData;
     v_currentPage := cp;
     v_totalPages := tp;
     v_displayedData := paginateData cp (pageSize s) sortedData |}.

(** The controls of the rendered table; in [First], [Prev], [Next] and
    [Last] the name [currentPage] is the clamped page of the render. *)
Inductive Event : Type :=
| FilterInput (value : string)
| PageSizeSelect (size : Z)
| HeaderClick (col : nat)
| HeaderKeyDown (col : nat) (key : string)
| First
| Prev
| Next
| Last.

Definition step (p : Props) (s : State) (e : Event) : State :=
  let v := render p s in
  match e with
  | FilterInput value => handleFilterChange value s
  | PageSizeSelect size =>
      if existsb (Z.eqb size) (pageSizeOptions p)
      then handlePageSizeChange size s else s
  | HeaderClick i =>
      match nth_error (columns p) i with
      | Some column =>
          if V2.sortable_not_false column
          then handleColumnSort (Column.key column) s else s
      | None => s
      end
  | HeaderKeyDown i k =>
      match nth_error (columns p) i with
      | Some column =>
          if ((String.eqb k "Enter" || String.eqb k " ")
              && V2.sortable_not_false column)%bool
          then handleColumnSort (Column.key column) s else s
      | None => s
      end
  | First =>
      if v_currentPage v =? 1 then s else goToPage (v_totalPages v) 1 s
  | Prev =>
      if v_currentPage v =? 1 then s
      else goToPage (v_totalPages v) (v_currentPage v - 1) s
  | Next =>
      if v_currentPage v =? v_totalPages v then s
      else goToPage (v_totalPages v) (v_currentPage v + 1) s
  | Last =>
      if v_currentPage v =? v_totalPages v then s
      else goToPage (v_totalPages v) (v_totalPages v) s
  end.

Definition run (p : Props) (s : State) (es : list Event) : State :=
  fold_left (step p) es s.

End Component.
End V2Table.

(* ------------------------------------------------------------------ *)
(** ** What the headers and the footer show *)
(* ------------------------------------------------------------------ *)

(** The three glyphs of a sort indicator: up and down for the active
    column (v4: U+25B2 and U+25BC; v3 and v2: U+2191 and U+2193) and the
    neutral one (v4 and v3: U+21C5; v2: U+2195). *)
Inductive Glyph : Type := GlyphUp | GlyphDown | GlyphNeutral.

(** [sortConfig.key === col.key] *)
Definition is_sort_key (cfg : SortConfig.t) (col : Column.t) : bool :=
  match SortConfig.key cfg with
  | Some k => String.eqb k (Column.key col)
  | None => false
  end.

Module V4Header.

(** The [aria-sort] attribute of a header cell ([None]: not set). *)
Definition ariaSort (sortConfig : SortConfig.t) (col : Column.t)
    : option string :=
  if is_sort_key sortConfig col
  then Some (match SortConfig.direction sortConfig with
             | asc => "ascending"
             | desc => "descending"
             end)
  else None.

(** [SortIndicator]: nothing for a column that is not sortable. *)
Definition SortIndicator (sortConfig : SortConfig.t) (column : Column.t)
    : option Glyph :=
  if negb (Column.is_sortable column) then None
  else
    let isActive := is_sort_key sortConfig column in
    let arrow :=
      if isActive
      then match SortConfig.direction sortConfig with
           | asc => GlyphUp
           | desc => GlyphDown
           end
      else GlyphNeutral in
    Some arrow.

End V4Header.

Module V3Footer.

(** [startItem] and [endItem] of "Showing a-b of n" in v3's [DataTable];
    [pg] is the object returned by [usePagination]. *)
Definition startItem (pg : V3.Pagination) : Z :=
  match V3.p_paginatedData pg with
  | _ :: _ => (V3.p_currentPage pg - 1) * V3.p_pageSize pg + 1
  | [] => 0
  end.

Definition endItem (pg : V3.Pagination) : Z :=
  Z.min (V3.p_currentPage pg * V3.p_pageSize pg) (V3.p_totalItems pg).

End V3Footer.

(** ** Vocabulary of the further statements *)

(** [l1] is [l2] with some elements left out, the others in order. *)
Inductive subsequence {A : Type} : list A -> list A -> Prop :=
| subseq_nil : subsequence [] []
| subseq_skip x l1 l2 : subsequence l1 l2 -> subsequence l1 (x :: l2)
| subseq_keep x l1 l2 : subsequence l1 l2 -> subsequence (x :: l1) (x :: l2).

(** The needle the filter of each version looks for. *)
Definition needle_trimmed (q : string) : string := trim (toLowerCase q).

(** v2: what holds of the state cells in every reachable state. *)
Definition V2_state_ok {host : Host} (p : V2Table.Props) (s : V2Table.State)
    : Prop :=
  1 <= V2Table.pageSize s /\
  1 <= V2Table.currentPage s <= V2Table.v_totalPages (V2Table.render p s).

(** The sort key names a column that v2 lets the user sort:
    [sortable !== false]. *)
Definition sort_key_not_unsortable (columns : list Column.t)
    (cfg : SortConfig.t) : Prop :=
  match SortConfig.key cfg with
  | None => True
  | Some k =>
      exists col, In col columns /\ V2.sortable_not_false col = true /\
                  Column.key col = k
  end.

(** The rows of page [page] of [rows]: the slice that [paginatedData] of
    the three versions takes. *)
Definition page_of (rows : list Row.t) (pageSize page : Z) : list Row.t :=
  slice rows ((page - 1) * pageSize) ((page - 1) * pageSize + pageSize).

(** The numeric sort-key value of a row, if it is a number. *)
Definition number_at (key : string) (r : Row.t) : option Z :=
  match Row.get r key with
  | VNumber n => Some n
  | _ => None
  end.

(** What "Showing [first] to [last] of n" says about the rows [shown] of
    the sorted rows [rows]: nothing is shown of an empty table and both
    numbers are 0; otherwise [shown] are the rows at the 1-based positions
    [first], ..., [last]. *)
Definition shows_range (rows shown : list Row.t) (first last : Z) : Prop :=
  (rows = [] -> first = 0 /\ last = 0 /\ shown = []) /\
  (rows <> [] ->
   1 <= first <= last /\ last <= Z.of_nat (List.length rows) /\
   Z.of_nat (List.length shown) = last - first + 1 /\
   shown = firstn (Z.to_nat (last - first + 1))
             (skipn (Z.to_nat (first - 1)) rows)).

(** Page navigation among the interactions of v2. *)
Definition V2_is_navigation (e : V2Table.Event) : bool :=
  match e with
  | V2Table.First | V2Table.Prev | V2Table.Next | V2Table.Last => true
  | _ => false
  end.

(** The data of v2's [App]: [mockEmployees] and [employeeColumns] (no
    column carries a [sortable] flag), and a variant with a locked
    column. *)
Module V2App.

Definition mockEmployee (id : Z) (name department role : string)
    (salary : Z) (startDate : string) : Row.t :=
  [("id", VNumber id); ("name", VString name);
   ("department", VString department); ("role", VString role);
   ("salary", VNumber salary); ("startDate", VString startDate)].

Definition mockEmployees : list Row.t :=
  [ mockEmployee 1 "Alice Johnson" "Engineering" "Senior Developer"
      120000 "2020-03-15";
    mockEmployee 2 "Bob Smith" "Marketing" "Marketing Manager"
      95000 "2019-07-22";
    mockEmployee 3 "Carol Williams" "Engineering" "Tech Lead"
      140000 "2018-01-10";
    mockEmployee 4 "David Brown" "Sales" "Sales Representative"
      75000 "2021-06-01";
    mockEmployee 5 "Eva Martinez" "HR" "HR Specialist" 65000 "2022-02-14";
    mockEmployee 6 "Frank Lee" "Engineering" "Junior Developer"
      70000 "2023-01-03";
    mockEmployee 7 "Grace Kim" "Finance" "Financial Analyst"
      85000 "2020-11-20";
    mockEmployee 8 "Henry Chen" "Engineering" "DevOps Engineer"
      115000 "2019-04-08";
    mockEmployee 9 "Iris Patel" "Marketing" "Content Strategist"
      72000 "2021-09-15";
    mockEmployee 10 "Jack Wilson" "Sales" "Sales Manager"
      105000 "2017-12-01";
    mockEmployee 11 "Karen Thompson" "Engineering" "QA Engineer"
      88000 "2020-08-17";
    mockEmployee 12 "Leo Garcia" "Finance" "Accountant" 68000 "2022-05-23" ].

Definition employeeColumns : list Column.t :=
  [ Column.mk "name" "Name" None;
    Column.mk "department" "Department" None;
    Column.mk "role" "Role" None;
    Column.mk "salary" "Salary" None;
    Column.mk "startDate" "Start Date" None ].

Definition props : V2Table.Props :=
  V2Table.mkProps mockEmployees employeeColumns [5; 10; 20] 5.

Definition lockedColumns : list Column.t :=
  [ Column.mk "name" "Name" (Some false);
    Column.mk "salary" "Salary" None ].

Definition lockedProps : V2Table.Props :=
  V2Table.mkProps mockEmployees lockedColumns [5; 10; 20] 5.

End V2App.

(* ================================================================== *)
(** * Part II. Properties *)
(* ================================================================== *)

(** ** Strings *)

Lemma startsWith_iff (s t : string) :
  startsWith s t = true <-> exists rest, s = String.append t rest.
Proof.
  revert s; induction t as [|b t IH]; intros s; simpl.
  - split; [intros _; exists s; reflexivity | destruct s; reflexivity].
  - destruct s as [|a s].
    + split; [discriminate | intros [r Hr]; discriminate].
    + simpl. rewrite andb_true_iff, Ascii.eqb_eq, IH. split.
      * intros [-> [r ->]]. exists r. reflexivity.
      * intros [r Hr]. injection Hr as -> ->. split; [reflexivity | eauto].
Qed.

(** [includes] is the substring test. *)
Lemma includes_iff (s t : string) :
  includes s t = true <->
  exists before after, s = String.append before (String.append t after).
Proof.
  induction s as [|a s IH]; cbn [includes].
  - rewrite orb_false_r, startsWith_iff. split.
    + intros [r Hr]. exists EmptyString, r. exact Hr.
    + intros [[|c b] [r Hr]]; simpl in Hr; [eauto | discriminate].
  - rewrite orb_true_iff, startsWith_iff, IH. split.
    + intros [[r Hr] | [b [r Hr]]].
      * exists EmptyString, r. exact Hr.
      * exists (String a b), r. simpl. now rewrite Hr.
    + intros [[|c b] [r Hr]]; simpl in Hr.
      * left. eauto.
      * injection Hr as -> ->. right. eauto.
Qed.

Lemma lower_ascii_space (c : ascii) : is_space (lower_ascii c) = is_space c.
Proof.
  destruct c as [[] [] [] [] [] [] [] []]; reflexivity.
Qed.

Lemma toLowerCase_trimStart (s : string) :
  toLowerCase (trimStart s) = trimStart (toLowerCase s).
Proof.
  induction s as [|c s IH]; simpl; [reflexivity|].
  rewrite lower_ascii_space. destruct (is_space c); [exact IH | reflexivity].
Qed.

Lemma toLowerCase_trimEnd (s : string) :
  toLowerCase (trimEnd s) = trimEnd (toLowerCase s).
Proof.
  induction s as [|c s IH]; simpl; [reflexivity|].
  rewrite <- IH, lower_ascii_space.
  destruct (trimEnd s); simpl; [destruct (is_space c)|]; reflexivity.
Qed.

(** Folding the case and trimming commute. *)
Lemma toLowerCase_trim (s : string) :
  toLowerCase (trim s) = trim (toLowerCase s).
Proof.
  unfold trim. now rewrite toLowerCase_trimEnd, toLowerCase_trimStart.
Qed.

Lemma toLowerCase_empty (s : string) :
  toLowerCase s = EmptyString <-> s = EmptyString.
Proof.
  destruct s; simpl; split; congruence.
Qed.

(** The emptiness test on the raw text and the search term agree. *)
Lemma truthy_trim_toLowerCase (s : string) :
  truthy (trim (toLowerCase s)) = truthy (trim s).
Proof.
  rewrite <- toLowerCase_trim. destruct (trim s); reflexivity.
Qed.

(** ** Arithmetic of [Math.ceil] and of [slice] *)

Lemma ceil_div_bounds (a b : Z) :
  0 < b -> (ceil_div a b - 1) * b < a <= ceil_div a b * b.
Proof.
  intros Hb. unfold ceil_div.
  pose proof (Z.div_mod (- a) b ltac:(lia)) as Hdm.
  pose proof (Z.mod_pos_bound (- a) b Hb) as Hm.
  nia.
Qed.

Lemma ceil_div_unique (a b c : Z) :
  0 < b -> (c - 1) * b < a <= c * b -> ceil_div a b = c.
Proof.
  intros Hb Hc. pose proof (ceil_div_bounds a b Hb) as H. nia.
Qed.

Lemma ceil_div_zero (b : Z) : ceil_div 0 b = 0.
Proof. unfold ceil_div. now rewrite Z.opp_0, Zdiv_0_l. Qed.

Lemma ceil_div_mono (a a' b : Z) :
  0 < b -> a <= a' -> ceil_div a b <= ceil_div a' b.
Proof.
  intros Hb Ha.
  pose proof (ceil_div_bounds a b Hb).
  pose proof (ceil_div_bounds a' b Hb). nia.
Qed.

(** [slice] between two indices in range is [skipn] followed by [firstn]. *)
Lemma slice_window {A : Type} (l : list A) (start count : Z) :
  0 <= start -> 0 <= count ->
  slice l start (start + count) =
  firstn (Z.to_nat count) (skipn (Z.to_nat start) l).
Proof.
  intros Hs Hc. unfold slice.
  pose proof (Nat2Z.is_nonneg (List.length l)) as Hlen.
  destruct (Z.ltb_spec start 0) as [?|_]; [lia|].
  destruct (Z.ltb_spec (start + count) 0) as [?|_]; [lia|].
  destruct (Z.le_gt_cases (Z.of_nat (List.length l)) start) as [Hge|Hlt].
  - rewrite !Z.min_r by lia. rewrite Z.sub_diag. simpl.
    rewrite skipn_all2 by lia. now rewrite firstn_nil.
  - rewrite (Z.min_l start) by lia.
    destruct (Z.le_gt_cases (start + count) (Z.of_nat (List.length l)))
      as [Hin|Hout].
    + rewrite Z.min_l by lia. f_equal. lia.
    + rewrite Z.min_r by lia.
      rewrite !firstn_all2; [reflexivity | |]; rewrite length_skipn; lia.
Qed.

Lemma slice_nil {A : Type} (start end_ : Z) : slice (@nil A) start end_ = [].
Proof.
  unfold slice. now rewrite skipn_nil, firstn_nil.
Qed.

Lemma in_for_range (a b n : Z) : In n (for_range a b) <-> a <= n <= b.
Proof.
  unfold for_range. rewrite in_map_iff. split.
  - intros [i [<- Hi]]. apply in_seq in Hi. lia.
  - intros H. exists (Z.to_nat (n - a)). split; [lia|]. apply in_seq. lia.
Qed.

(** ** The sorted rearrangement that keeps equal elements in order *)

Section InsertionSort.
Context {A : Type} (cmp : A -> A -> Z).

Lemma insert_perm (x : A) (l : list A) : Permutation (insert cmp x l) (x :: l).
Proof.
  induction l as [|y l IH]; simpl; [reflexivity|].
  destruct (0 <? cmp x y); [|reflexivity].
  rewrite IH. apply perm_swap.
Qed.

Lemma insertion_sort_perm (l : list A) : Permutation (insertion_sort cmp l) l.
Proof.
  induction l as [|x l IH]; simpl; [reflexivity|].
  rewrite insert_perm. now constructor.
Qed.

Lemma in_insertion_sort (l : list A) (y : A) :
  In y (insertion_sort cmp l) <-> In y l.
Proof.
  split; apply Permutation_in; [|symmetry]; apply insertion_sort_perm.
Qed.

(** [x] never moves past a member of its own class. *)
Lemma filter_insert (p : A -> bool) (x : A) (l : list A) :
  (p x = true -> Forall (fun y => p y = true -> cmp x y <= 0) l) ->
  filter p (insert cmp x l) = filter p (x :: l).
Proof.
  induction l as [|y l IH]; intros H; [reflexivity|].
  simpl. destruct (Z.ltb_spec 0 (cmp x y)) as [Hgt|Hle]; [|reflexivity].
  simpl. rewrite IH.
  - simpl. destruct (p x) eqn:Hx; [|reflexivity].
    specialize (H eq_refl). inversion H as [|? ? Hy _]; subst.
    destruct (p y) eqn:Hpy; [|reflexivity]. specialize (Hy eq_refl). lia.
  - intros Hx. specialize (H Hx). now inversion H.
Qed.

(** Stability: the members of a class whose earlier elements never
    compare greater than its later ones keep their order. *)
Lemma insertion_sort_stable (p : A -> bool) (l : list A) :
  ForallOrdPairs (fun x y => p x = true -> p y = true -> cmp x y <= 0) l ->
  filter p (insertion_sort cmp l) = filter p l.
Proof.
  induction 1 as [|x l Hx Hl IH]; [reflexivity|].
  cbn [insertion_sort]. rewrite filter_insert.
  - simpl. now rewrite IH.
  - intros Hpx. rewrite Forall_forall in *. intros y Hy Hpy.
    apply Hx; [exact (proj1 (in_insertion_sort l y) Hy) | exact Hpx | exact Hpy].
Qed.

(** A comparator that puts the members of [late] after the others keeps
    them at the end of the sorted array. *)
Section Late.
Variable late : A -> bool.
Hypothesis late_after : forall x y,
  late x = true -> late y = false -> 0 < cmp x y.
Hypothesis early_before : forall x y,
  late x = false -> late y = true -> cmp x y <= 0.

Lemma insert_late_last (x : A) (l : list A) :
  late_last late l -> late_last late (insert cmp x l).
Proof.
  unfold late_last. induction 1 as [|y l Hy Hl IH]; simpl.
  - repeat constructor.
  - destruct (Z.ltb_spec 0 (cmp x y)) as [Hgt|Hle].
    + constructor; [|exact IH].
      rewrite Forall_forall in *. intros z Hz Hly.
      apply (Permutation_in _ (insert_perm x l)) in Hz.
      destruct Hz as [<-|Hz]; [|now apply Hy].
      destruct (late x) eqn:Hlx; [reflexivity|].
      specialize (early_before _ _ Hlx Hly). lia.
    + constructor; [|now constructor].
      assert (Hxy : late x = true -> late y = true).
      { intros Hlx. destruct (late y) eqn:Hly; [reflexivity|].
        specialize (late_after _ _ Hlx Hly). lia. }
      constructor; [exact Hxy|].
      rewrite Forall_forall in *. intros z Hz Hlx. apply Hy; auto.
Qed.

Lemma insertion_sort_late_last (l : list A) :
  late_last late (insertion_sort cmp l).
Proof.
  induction l as [|x l IH]; simpl; [constructor|].
  now apply insert_late_last.
Qed.
End Late.

(** What follows from consistency on the elements of [u]. *)
Section Consistent.
Variable u : list A.
Hypothesis consistent : consistent_on cmp u.

Lemma cmp_refl (a : A) : In a u -> cmp a a = 0.
Proof. intros Ha. now destruct (consistent a a a Ha Ha Ha). Qed.

Lemma cmp_zero_sym (a b : A) :
  In a u -> In b u -> cmp a b = 0 -> cmp b a = 0.
Proof.
  intros Ha Hb. destruct (consistent a b b Ha Hb Hb) as (_ & H & _). exact H.
Qed.

Lemma cmp_gt_lt (a b : A) : In a u -> In b u -> 0 < cmp a b -> cmp b a < 0.
Proof.
  intros Ha Hb Hgt.
  destruct (Z.lt_trichotomy (cmp b a) 0) as [Hlt|[Heq|Hgt']]; [exact Hlt| |].
  - apply (cmp_zero_sym b a Hb Ha) in Heq. lia.
  - destruct (consistent a b a Ha Hb Ha) as (Hr & _ & _ & _ & Ht).
    specialize (Ht Hgt Hgt'). lia.
Qed.

Lemma cmp_lt_gt (a b : A) : In a u -> In b u -> cmp a b < 0 -> 0 < cmp b a.
Proof.
  intros Ha Hb Hlt.
  destruct (Z.lt_trichotomy (cmp b a) 0) as [Hlt'|[Heq|Hgt]]; [| |exact Hgt].
  - destruct (consistent a b a Ha Hb Ha) as (Hr & _ & _ & Ht & _).
    specialize (Ht Hlt Hlt'). lia.
  - apply (cmp_zero_sym b a Hb Ha) in Heq. lia.
Qed.

Lemma cmp_zero_trans (a b c : A) :
  In a u -> In b u -> In c u -> cmp a b = 0 -> cmp b c = 0 -> cmp a c = 0.
Proof.
  intros Ha Hb Hc. destruct (consistent a b c Ha Hb Hc) as (_ & _ & H & _).
  exact H.
Qed.

Lemma cmp_lt_trans (a b c : A) :
  In a u -> In b u -> In c u -> cmp a b < 0 -> cmp b c < 0 -> cmp a c < 0.
Proof.
  intros Ha Hb Hc.
  destruct (consistent a b c Ha Hb Hc) as (_ & _ & _ & H & _). exact H.
Qed.

(** The classes of equal elements are totally ordered. *)
Lemma cmp_lt_zero (a b c : A) :
  In a u -> In b u -> In c u -> cmp a b < 0 -> cmp b c = 0 -> cmp a c < 0.
Proof.
  intros Ha Hb Hc Hab Hbc.
  destruct (Z.lt_trichotomy (cmp a c) 0) as [Hlt|[Heq|Hgt]]; [exact Hlt| |].
  - pose proof (cmp_zero_sym b c Hb Hc Hbc) as Hcb.
    pose proof (cmp_zero_trans a c b Ha Hc Hb Heq Hcb). lia.
  - pose proof (cmp_gt_lt a c Ha Hc Hgt) as Hca.
    pose proof (cmp_lt_trans c a b Hc Ha Hb Hca Hab) as Hcb.
    pose proof (cmp_zero_sym b c Hb Hc Hbc). lia.
Qed.

Lemma cmp_zero_lt (a b c : A) :
  In a u -> In b u -> In c u -> cmp a b = 0 -> cmp b c < 0 -> cmp a c < 0.
Proof.
  intros Ha Hb Hc Hab Hbc.
  destruct (Z.lt_trichotomy (cmp a c) 0) as [Hlt|[Heq|Hgt]]; [exact Hlt| |].
  - pose proof (cmp_zero_sym a b Ha Hb Hab) as Hba.
    pose proof (cmp_zero_trans b a c Hb Ha Hc Hba Heq). lia.
  - pose proof (cmp_gt_lt a c Ha Hc Hgt) as Hca.
    pose proof (cmp_lt_trans b c a Hb Hc Ha Hbc Hca) as Hba.
    pose proof (cmp_zero_sym a b Ha Hb Hab). lia.
Qed.

Lemma cmp_le_trans (a b c : A) :
  In a u -> In b u -> In c u -> cmp a b <= 0 -> cmp b c <= 0 -> cmp a c <= 0.
Proof.
  intros Ha Hb Hc Hab Hbc.
  destruct (Z.eq_dec (cmp a b) 0) as [E1|N1];
    destruct (Z.eq_dec (cmp b c) 0) as [E2|N2].
  - rewrite (cmp_zero_trans a b c Ha Hb Hc E1 E2). lia.
  - pose proof (cmp_zero_lt a b c Ha Hb Hc E1 ltac:(lia)). lia.
  - pose proof (cmp_lt_zero a b c Ha Hb Hc ltac:(lia) E2). lia.
  - pose proof (cmp_lt_trans a b c Ha Hb Hc ltac:(lia) ltac:(lia)). lia.
Qed.

Lemma class_pairwise_equal (x a b : A) :
  In x u -> In a u -> In b u -> cmp x a = 0 -> cmp x b = 0 -> cmp a b = 0.
Proof.
  intros Hx Ha Hb Hxa Hxb.
  apply (cmp_zero_trans a x b Ha Hx Hb); [|exact Hxb].
  now apply cmp_zero_sym.
Qed.

(** For a consistent comparator the result is sorted: no element compares
    greater than a later one. *)
Lemma insert_sorted (x : A) (l : list A) :
  In x u -> incl l u ->
  sorted_by cmp l -> sorted_by cmp (insert cmp x l).
Proof.
  unfold sorted_by. intros Hxu Hlu H.
  induction H as [|y l Hy Hl IH]; simpl.
  - repeat constructor.
  - assert (Hyu : In y u) by (apply Hlu; now left).
    assert (Hlu' : incl l u) by (intros z Hz; apply Hlu; now right).
    destruct (Z.ltb_spec 0 (cmp x y)) as [Hgt|Hle].
    + constructor; [|now apply IH].
      rewrite Forall_forall in *. intros z Hz.
      apply (Permutation_in _ (insert_perm x l)) in Hz.
      destruct Hz as [<-|Hz]; [|now apply Hy].
      pose proof (cmp_gt_lt x y Hxu Hyu Hgt). lia.
    + constructor; [|now constructor].
      constructor; [exact Hle|].
      rewrite Forall_forall in *. intros z Hz.
      apply (cmp_le_trans x y z); auto.
Qed.

Lemma insertion_sort_sorted_in (l : list A) :
  incl l u -> sorted_by cmp (insertion_sort cmp l).
Proof.
  induction l as [|x l IH]; intros Hlu; simpl; [constructor|].
  apply insert_sorted.
  - apply Hlu. now left.
  - intros z Hz. apply Hlu. right. exact (proj1 (in_insertion_sort l z) Hz).
  - apply IH. intros z Hz. apply Hlu. now right.
Qed.

Lemma same_class_order (o o' : list A) :
  incl o u ->
  Permutation o o' ->
  sorted_by cmp o -> sorted_by cmp o' ->
  (forall x, In x u ->
     filter (fun z => cmp x z =? 0) o = filter (fun z => cmp x z =? 0) o') ->
  o = o'.
Proof.
  unfold sorted_by. intros Hou Hperm Ho. revert o' Hou Hperm.
  induction Ho as [|x o Hx Ho IH]; intros o' Hou Hperm Ho' Hcls.
  - now apply Permutation_nil in Hperm.
  - destruct Ho' as [|y o' Hy Ho'].
    + symmetry in Hperm. now apply Permutation_nil in Hperm.
    + rewrite Forall_forall in Hx, Hy.
      assert (Hxu : In x u) by (apply Hou; now left).
      assert (Hyu : In y u).
      { apply Hou. apply (Permutation_in y (Permutation_sym Hperm)).
        now left. }
      assert (Hxy : cmp x y = 0).
      { pose proof (Permutation_in x Hperm (or_introl eq_refl)) as [E|Hxin].
        { subst y. now apply cmp_refl. }
        pose proof (Permutation_in y (Permutation_sym Hperm)
                      (or_introl eq_refl)) as [E|Hyin].
        { subst y. now apply cmp_refl. }
        specialize (Hx _ Hyin). specialize (Hy _ Hxin).
        destruct (Z.lt_trichotomy (cmp x y) 0) as [Hlt|[Heq|Hgt]];
          [|exact Heq|lia].
        pose proof (cmp_lt_gt x y Hxu Hyu Hlt). lia. }
      assert (x = y) as <-.
      { specialize (Hcls x Hxu). simpl in Hcls.
        rewrite (cmp_refl x Hxu), Hxy in Hcls. simpl in Hcls. congruence. }
      f_equal. apply IH; [| |exact Ho'|].
      * intros z Hz. apply Hou. now right.
      * now apply Permutation_cons_inv in Hperm.
      * intros z Hz. specialize (Hcls z Hz). simpl in Hcls.
        destruct (cmp z x =? 0); congruence.
Qed.

(** The array ECMAScript asks for: a rearrangement of [u] that is sorted
    and keeps every class of equal elements in the order of [u].  There
    is one, and [insertion_sort] computes it. *)
Lemma insertion_sort_unique (out : list A) :
  Permutation out u ->
  sorted_by cmp out ->
  (forall x, In x u ->
     filter (fun z => cmp x z =? 0) out = filter (fun z => cmp x z =? 0) u) ->
  out = insertion_sort cmp u.
Proof.
  intros Hperm Hsorted Hstable. apply same_class_order.
  - intros z Hz. now apply (Permutation_in _ Hperm).
  - rewrite Hperm. symmetry. apply insertion_sort_perm.
  - exact Hsorted.
  - apply insertion_sort_sorted_in. apply incl_refl.
  - intros x Hx. rewrite (Hstable x Hx). symmetry.
    apply insertion_sort_stable.
    assert (Hsub : incl u u) by apply incl_refl. revert Hsub.
    generalize u at 1 3. intros l Hsub.
    induction l as [|a l' IH]; constructor.
    + rewrite Forall_forall. intros b Hb Ha Hb'.
      apply Z.eqb_eq in Ha, Hb'.
      rewrite (class_pairwise_equal x a b); try assumption; try lia.
      * apply Hsub. now left.
      * apply Hsub. now right.
    + apply IH. intros z Hz. apply Hsub. now right.
Qed.

End Consistent.

End InsertionSort.

(** ** The platform sort *)

Lemma consistent_at_spec {A : Type} (cmp : A -> A -> Z) (a b c : A) :
  consistent_at cmp a b c = true <->
  cmp a a = 0 /\
  (cmp a b = 0 -> cmp b a = 0) /\
  (cmp a b = 0 -> cmp b c = 0 -> cmp a c = 0) /\
  (cmp a b < 0 -> cmp b c < 0 -> cmp a c < 0) /\
  (0 < cmp a b -> 0 < cmp b c -> 0 < cmp a c).
Proof.
  unfold consistent_at.
  rewrite !andb_true_iff, !implb_true_iff, !andb_true_iff, !Z.eqb_eq,
    !Z.ltb_lt.
  tauto.
Qed.

Lemma consistent_onb_spec {A : Type} (cmp : A -> A -> Z) (l : list A) :
  consistent_onb cmp l = true <-> consistent_on cmp l.
Proof.
  unfold consistent_onb, consistent_on. rewrite forallb_forall. split.
  - intros H a b c Ha Hb Hc. specialize (H a Ha).
    rewrite forallb_forall in H. specialize (H b Hb).
    rewrite forallb_forall in H. specialize (H c Hc).
    now apply consistent_at_spec.
  - intros H a Ha. apply forallb_forall. intros b Hb.
    apply forallb_forall. intros c Hc. apply consistent_at_spec. now apply H.
Qed.

Lemma is_rearrangement_perm (order : list nat) (n : nat) :
  is_rearrangement order n = true -> Permutation order (seq 0 n).
Proof.
  unfold is_rearrangement. intros H. apply andb_true_iff in H.
  destruct H as [Hlen Hall]. apply Nat.eqb_eq in Hlen.
  rewrite forallb_forall in Hall. symmetry.
  apply NoDup_Permutation_bis.
  - apply seq_NoDup.
  - rewrite length_seq. lia.
  - intros i Hi. specialize (Hall i Hi). apply existsb_exists in Hall.
    destruct Hall as [j [Hj Hij]]. apply Nat.eqb_eq in Hij. now subst.
Qed.

Lemma flat_map_nth_error_seq {A : Type} (pre arr : list A) :
  flat_map (fun i => match nth_error (pre ++ arr) i with
                     | Some x => [x]
                     | None => []
                     end) (seq (List.length pre) (List.length arr)) = arr.
Proof.
  revert pre. induction arr as [|x arr IH]; intros pre; [reflexivity|].
  cbn [List.length seq flat_map].
  rewrite nth_error_app2 by lia. rewrite Nat.sub_diag. cbn [nth_error app].
  f_equal. specialize (IH (pre ++ [x])).
  rewrite <- app_assoc, length_app in IH. cbn [List.length app] in IH.
  rewrite Nat.add_1_r in IH. exact IH.
Qed.

(** Whatever the engine answers, the result is a rearrangement. *)
Lemma rearrange_perm {A : Type} (arr : list A) (order : list nat) :
  Permutation (rearrange arr order) arr.
Proof.
  unfold rearrange.
  destruct (is_rearrangement order (List.length arr)) eqn:H; [|reflexivity].
  apply is_rearrangement_perm in H.
  rewrite (Permutation_flat_map _ H).
  pose proof (flat_map_nth_error_seq [] arr) as E. cbn [app List.length] in E.
  now rewrite E.
Qed.

Section Sort.
Context {host : Host} {A : Type} (cmp : A -> A -> Z).

Lemma sort_perm (l : list A) : Permutation (sort cmp l) l.
Proof.
  unfold sort. destruct (consistent_onb cmp l).
  - apply insertion_sort_perm.
  - apply rearrange_perm.
Qed.

Lemma sort_length (l : list A) : List.length (sort cmp l) = List.length l.
Proof. apply Permutation_length, sort_perm. Qed.

Lemma in_sort (l : list A) (y : A) : In y (sort cmp l) <-> In y l.
Proof.
  split; apply Permutation_in; [|symmetry]; apply sort_perm.
Qed.

(** For a consistent comparator the engine has no choice. *)
Lemma sort_consistent (l : list A) :
  consistent_on cmp l -> sort cmp l = insertion_sort cmp l.
Proof.
  intros H. apply consistent_onb_spec in H. unfold sort. now rewrite H.
Qed.

Lemma sort_sorted (l : list A) :
  consistent_on cmp l -> sorted_by cmp (sort cmp l).
Proof.
  intros H. rewrite (sort_consistent l H).
  apply (insertion_sort_sorted_in cmp l H). apply incl_refl.
Qed.

Lemma sort_stable (p : A -> bool) (l : list A) :
  consistent_on cmp l ->
  (forall a b, p a = true -> p b = true -> cmp a b = 0) ->
  filter p (sort cmp l) = filter p l.
Proof.
  intros H Hp. rewrite (sort_consistent l H). apply insertion_sort_stable.
  induction l as [|x l' IH]; constructor.
  - rewrite Forall_forall. intros y _ Hx Hy. rewrite (Hp x y Hx Hy). lia.
  - apply IH. intros a b c Ha Hb Hc. apply H; now right.
Qed.

(** The sorted, stable rearrangement is unique: a conforming engine,
    whatever its algorithm, returns the array of the model. *)
Theorem sort_unique (l out : list A) :
  consistent_on cmp l ->
  Permutation out l ->
  sorted_by cmp out ->
  (forall x, In x l ->
     filter (fun z => cmp x z =? 0) out = filter (fun z => cmp x z =? 0) l) ->
  out = sort cmp l.
Proof.
  intros H Hperm Hsorted Hstable. rewrite (sort_consistent l H).
  now apply (insertion_sort_unique cmp l H).
Qed.

End Sort.

(** "No late element before an early one" is the same as "the array is
    the early elements followed by the late ones". *)
Lemma late_last_split {A : Type} (late : A -> bool) (l : list A) :
  late_last late l <->
  exists early_part late_part,
    l = early_part ++ late_part /\
    Forall (fun x => late x = false) early_part /\
    Forall (fun x => late x = true) late_part.
Proof.
  unfold late_last. split.
  - induction 1 as [|x l Hx Hl IH].
    + exists [], []. repeat split; constructor.
    + destruct IH as (e & t & -> & He & Ht).
      destruct (late x) eqn:Hlx.
      * exists [], (x :: e ++ t). repeat split; [constructor|].
        constructor; [exact Hlx|].
        rewrite Forall_forall in *. intros z Hz. now apply Hx.
      * exists (x :: e), t. repeat split; [|exact Ht]. now constructor.
  - intros (e & t & -> & He & Ht).
    induction He as [|x e Hx He IH]; simpl.
    + induction Ht as [|y t Hy Ht IH]; constructor; [|exact IH].
      rewrite Forall_forall in *. auto.
    + constructor; [|exact IH].
      rewrite Forall_forall. intros z _ Hlx. congruence.
Qed.

(** The decoration of [stableSort]: indices grow along the array. *)
Lemma combine_seq_increasing {T : Type} (arr : list T) (n : nat) :
  ForallOrdPairs (fun a b : T * Z => snd a < snd b)
    (combine arr (map Z.of_nat (seq n (List.length arr)))).
Proof.
  revert n; induction arr as [|x arr IH]; intros n; simpl; constructor.
  - rewrite Forall_forall. intros [y j] Hy. simpl.
    apply in_combine_r in Hy. apply in_map_iff in Hy.
    destruct Hy as [i [<- Hi]]. apply in_seq in Hi. lia.
  - apply IH.
Qed.

Lemma combine_seq_fst {T : Type} (arr : list T) (n : nat) :
  map fst (combine arr (map Z.of_nat (seq n (List.length arr)))) = arr.
Proof.
  revert n; induction arr as [|x arr IH]; intros n; simpl; [reflexivity|].
  now rewrite IH.
Qed.

Lemma ForallOrdPairs_impl {T : Type} (R S : T -> T -> Prop) (l : list T) :
  (forall x y, R x y -> S x y) -> ForallOrdPairs R l -> ForallOrdPairs S l.
Proof.
  intros HRS. induction 1 as [|x l Hx Hl IH]; constructor; [|exact IH].
  eapply Forall_impl; [|exact Hx]. auto.
Qed.

Lemma filter_map_fst {T U : Type} (p : T -> bool) (l : list (T * U)) :
  filter p (map fst l) = map fst (filter (fun a => p (fst a)) l).
Proof.
  induction l as [|a l IH]; simpl; [reflexivity|].
  destruct (p (fst a)); simpl; now rewrite IH.
Qed.

(** ** Filter stage *)

Lemma truthy_iff (s : string) : truthy s = true <-> s <> "".
Proof. destruct s; simpl; split; congruence. Qed.

Lemma not_truthy_iff (s : string) : truthy s = false <-> s = "".
Proof. destruct s; simpl; split; congruence. Qed.

Lemma is_null_or_undefined_loose (v : value) :
  is_null_or_undefined v = loose_eq_null v.
Proof. destruct v; reflexivity. Qed.

(** v4: a blank query is the identity. *)
Lemma V4_filteredData_blank (data : list Row.t) (columns : list Column.t)
    (q : string) :
  trim q = "" -> V4.filteredData data columns q = data.
Proof.
  intros H. unfold V4.filteredData. now rewrite H.
Qed.

(** v4: the kept rows, exactly as the code selects them. *)
Lemma V4_filteredData_eq (data : list Row.t) (columns : list Column.t)
    (q : string) :
  trim q <> "" ->
  V4.filteredData data columns q =
  filter (fun r =>
    existsb (fun col => field_contains r col (trim (toLowerCase q))) columns)
    data.
Proof.
  intros H. apply truthy_iff in H. unfold V4.filteredData. now rewrite H.
Qed.

Lemma V4_filteredData_In (data : list Row.t) (columns : list Column.t)
    (q : string) (r : Row.t) :
  trim q <> "" ->
  In r (V4.filteredData data columns q) <->
  In r data /\
  exists col, In col columns /\
              field_contains r col (trim (toLowerCase q)) = true.
Proof.
  intros H. rewrite V4_filteredData_eq by exact H.
  now rewrite filter_In, existsb_exists.
Qed.

Lemma V3_filteredData_blank (data : list Row.t) (columns : list Column.t)
    (q : string) :
  trim q = "" -> V3.filteredData data columns q = data.
Proof.
  intros H. unfold V3.filteredData. now rewrite H.
Qed.

Lemma V3_filteredData_eq (data : list Row.t) (columns : list Column.t)
    (q : string) :
  trim q <> "" ->
  V3.filteredData data columns q =
  filter (fun r =>
    existsb (fun col =>
      (field_defined r col && field_contains r col (toLowerCase q))%bool)
      columns) data.
Proof.
  intros H. apply truthy_iff in H. unfold V3.filteredData. rewrite H. simpl.
  apply filter_ext. intros r.
  induction columns as [|col cols IH]; simpl; [reflexivity|].
  rewrite IH. f_equal. unfold field_defined, field_contains.
  rewrite is_null_or_undefined_loose.
  now destruct (loose_eq_null (Row.get r (Column.key col))).
Qed.

Lemma V3_filteredData_In (data : list Row.t) (columns : list Column.t)
    (q : string) (r : Row.t) :
  trim q <> "" ->
  In r (V3.filteredData data columns q) <->
  In r data /\
  exists col, In col columns /\ field_defined r col = true /\
              field_contains r col (toLowerCase q) = true.
Proof.
  intros H. rewrite V3_filteredData_eq by exact H.
  rewrite filter_In, existsb_exists.
  split; intros [Hr [col [Hc Hm]]]; (split; [exact Hr|]); exists col.
  - apply andb_true_iff in Hm. tauto.
  - split; [tauto|]. apply andb_true_iff. tauto.
Qed.

Lemma V2_filterData_blank (data : list Row.t) (columns : list Column.t)
    (q : string) :
  trim q = "" -> V2.filterData columns q data = data.
Proof.
  intros H. unfold V2.filterData. now rewrite H.
Qed.

Lemma V2_filterData_eq (data : list Row.t) (columns : list Column.t)
    (q : string) :
  trim q <> "" ->
  V2.filterData columns q data =
  filter (fun r =>
    existsb (fun col =>
      (field_defined r col && field_contains r col (trim (toLowerCase q)))%bool)
      columns) data.
Proof.
  intros H. apply truthy_iff in H. unfold V2.filterData. rewrite H. simpl.
  apply filter_ext. intros r.
  induction columns as [|col cols IH]; simpl; [reflexivity|].
  rewrite IH. f_equal. unfold field_defined, field_contains.
  now destruct (loose_eq_null (Row.get r (Column.key col))).
Qed.

Lemma V2_filterData_In (data : list Row.t) (columns : list Column.t)
    (q : string) (r : Row.t) :
  trim q <> "" ->
  In r (V2.filterData columns q data) <->
  In r data /\
  exists col, In col columns /\ field_defined r col = true /\
              field_contains r col (trim (toLowerCase q)) = true.
Proof.
  intros H. rewrite V2_filterData_eq by exact H.
  rewrite filter_In, existsb_exists.
  split; intros [Hr [col [Hc Hm]]]; (split; [exact Hr|]); exists col.
  - apply andb_true_iff in Hm. tauto.
  - split; [tauto|]. apply andb_true_iff. tauto.
Qed.

(** v3 and v2 guard the match with a null test, so a row without a
    defined column value is never kept. *)
Lemma V3_null_fields_never_match : null_fields_never_match V3.filteredData.
Proof.
  intros data columns q r Hq Hnull Hin.
  apply V3_filteredData_In in Hin; [|exact Hq].
  destruct Hin as [_ [col [Hc [Hd _]]]]. rewrite (Hnull col Hc) in Hd.
  discriminate.
Qed.

Lemma V2_null_fields_never_match :
  null_fields_never_match (fun data columns q => V2.filterData columns q data).
Proof.
  intros data columns q r Hq Hnull Hin.
  apply V2_filterData_In in Hin; [|exact Hq].
  destruct Hin as [_ [col [Hc [Hd _]]]]. rewrite (Hnull col Hc) in Hd.
  discriminate.
Qed.

(** ** Sort stage *)

Lemma stableSort_perm {host : Host} {T : Type} (arr : list T)
    (compareFn : T -> T -> Z) :
  Permutation (V2.stableSort arr compareFn) arr.
Proof.
  unfold V2.stableSort.
  etransitivity; [apply Permutation_map, sort_perm|].
  now rewrite combine_seq_fst.
Qed.

(** The sign of the comparator of [stableSort] on two decorated
    elements. *)
Lemma decorated_sign {T : Type} (compareFn : T -> T -> Z) (a b : T * Z) :
  let cmp := fun a b : T * Z =>
    let result := compareFn (fst a) (fst b) in
    if negb (result =? 0) then result else snd a - snd b in
  (cmp a b = 0 <-> compareFn (fst a) (fst b) = 0 /\ snd a = snd b) /\
  (cmp a b < 0 <->
   compareFn (fst a) (fst b) < 0 \/
   (compareFn (fst a) (fst b) = 0 /\ snd a < snd b)) /\
  (0 < cmp a b <->
   0 < compareFn (fst a) (fst b) \/
   (compareFn (fst a) (fst b) = 0 /\ snd b < snd a)).
Proof.
  cbv zeta beta.
  destruct (Z.eqb_spec (compareFn (fst a) (fst b)) 0) as [E|N]; cbn [negb];
    lia.
Qed.

(** The index tie-break keeps a consistent comparator consistent. *)
Lemma decorated_consistent {T : Type} (compareFn : T -> T -> Z)
    (arr : list T) (indices : list Z) :
  consistent_on compareFn arr ->
  consistent_on
    (fun a b : T * Z =>
       let result := compareFn (fst a) (fst b) in
       if negb (result =? 0) then result else snd a - snd b)
    (combine arr indices).
Proof.
  intros H [x i] [y j] [z k] Hx Hy Hz.
  apply in_combine_l in Hx, Hy, Hz.
  pose proof (decorated_sign compareFn (x, i) (x, i)) as (Sxx & _).
  pose proof (decorated_sign compareFn (x, i) (y, j)) as (Exy & Lxy & Gxy).
  pose proof (decorated_sign compareFn (y, j) (x, i)) as (Eyx & _).
  pose proof (decorated_sign compareFn (y, j) (z, k)) as (Eyz & Lyz & Gyz).
  pose proof (decorated_sign compareFn (x, i) (z, k)) as (Exz & Lxz & Gxz).
  cbv zeta beta in *. cbn [fst snd] in *.
  pose proof (cmp_refl compareFn arr H x Hx) as Rx.
  pose proof (cmp_zero_sym compareFn arr H x y Hx Hy) as Sxy.
  pose proof (cmp_zero_sym compareFn arr H y z Hy Hz) as Syz.
  pose proof (cmp_zero_trans compareFn arr H x y z Hx Hy Hz) as Txyz.
  repeat apply conj.
  - apply Sxx. split; [exact Rx | reflexivity].
  - intros E. apply Exy in E. destruct E as [E I]. apply Eyx.
    split; [exact (Sxy E) | clear - I; lia].
  - intros E1 E2. apply Exy in E1. apply Eyz in E2.
    destruct E1 as [E1 I1], E2 as [E2 I2]. apply Exz.
    split; [exact (Txyz E1 E2) | clear - I1 I2; lia].
  - intros L1 L2. apply Lxy in L1. apply Lyz in L2. apply Lxz.
    destruct L1 as [L1|[E1 I1]], L2 as [L2|[E2 I2]].
    + left. now apply (cmp_lt_trans compareFn arr H x y z).
    + left. now apply (cmp_lt_zero compareFn arr H x y z).
    + left. now apply (cmp_zero_lt compareFn arr H x y z).
    + right. split; [exact (Txyz E1 E2) | clear - I1 I2; lia].
  - intros G1 G2. apply Gxy in G1. apply Gyz in G2. apply Gxz.
    destruct G1 as [G1|[E1 I1]], G2 as [G2|[E2 I2]].
    + left. apply (cmp_gt_lt compareFn arr H x y Hx Hy) in G1.
      apply (cmp_gt_lt compareFn arr H y z Hy Hz) in G2.
      apply (cmp_lt_gt compareFn arr H z x Hz Hx).
      now apply (cmp_lt_trans compareFn arr H z y x).
    + left. apply (cmp_gt_lt compareFn arr H x y Hx Hy) in G1.
      apply (cmp_lt_gt compareFn arr H z x Hz Hx).
      apply (cmp_zero_lt compareFn arr H z y x Hz Hy Hx);
        [exact (Syz E2) | exact G1].
    + left. apply (cmp_gt_lt compareFn arr H y z Hy Hz) in G2.
      apply (cmp_lt_gt compareFn arr H z x Hz Hx).
      apply (cmp_lt_zero compareFn arr H z y x Hz Hy Hx);
        [exact G2 | exact (Sxy E1)].
    + right. split; [exact (Txyz E1 E2) | clear - I1 I2; lia].
Qed.

(** For a consistent comparator the index tie-break of [stableSort] keeps
    every class of equal elements in input order. *)
Lemma stableSort_stable {host : Host} {T : Type} (arr : list T)
    (compareFn : T -> T -> Z) (p : T -> bool) :
  consistent_on compareFn arr ->
  (forall a b, p a = true -> p b = true -> compareFn a b = 0) ->
  filter p (V2.stableSort arr compareFn) = filter p arr.
Proof.
  intros Hc Heq. unfold V2.stableSort. cbv zeta.
  rewrite sort_consistent by now apply decorated_consistent.
  rewrite filter_map_fst, insertion_sort_stable.
  - now rewrite <- filter_map_fst, combine_seq_fst.
  - eapply ForallOrdPairs_impl; [|apply combine_seq_increasing].
    intros [a i] [b j]; simpl. intros Hij Ha Hb.
    rewrite (Heq a b Ha Hb). simpl. lia.
Qed.

Section SortStage.
Context {host : Host}.

Lemma active_key_some (cfg : SortConfig.t) (k : string) :
  SortConfig.active_key cfg = Some k -> SortConfig.key cfg = Some k.
Proof.
  unfold SortConfig.active_key.
  destruct (SortConfig.key cfg) as [k'|]; [|discriminate].
  destruct (truthy k'); congruence.
Qed.

Lemma V4_sortedData_stable (data : list Row.t) (cfg : SortConfig.t)
    (k : string) :
  SortConfig.key cfg = Some k ->
  consistent_on (V4.compare k (SortConfig.direction cfg)) data ->
  stable_rearrangement (V4.compare k (SortConfig.direction cfg))
    data (V4.sortedData data cfg).
Proof.
  intros Hk Hc. unfold V4.sortedData.
  destruct (SortConfig.active_key cfg) as [k'|] eqn:Hact.
  - apply active_key_some in Hact. assert (k' = k) as -> by congruence.
    split; [apply sort_perm|]. intros p Hp. now apply sort_stable.
  - split; [reflexivity | intros; reflexivity].
Qed.

Lemma V3_sortedData_stable (data : list Row.t) (cfg : SortConfig.t)
    (k : string) :
  SortConfig.key cfg = Some k ->
  consistent_on (V3.compare k (SortConfig.direction cfg)) data ->
  stable_rearrangement (V3.compare k (SortConfig.direction cfg))
    data (V3.sortedData data cfg).
Proof.
  intros Hk Hc. unfold V3.sortedData.
  destruct (SortConfig.active_key cfg) as [k'|] eqn:Hact.
  - apply active_key_some in Hact. assert (k' = k) as -> by congruence.
    split; [apply sort_perm|]. intros p Hp. now apply sort_stable.
  - split; [reflexivity | intros; reflexivity].
Qed.

Lemma V2_sortData_stable (data : list Row.t) (cfg : SortConfig.t)
    (k : string) :
  SortConfig.key cfg = Some k ->
  consistent_on (V2.compare k (SortConfig.direction cfg)) data ->
  stable_rearrangement (V2.compare k (SortConfig.direction cfg))
    data (V2.sortData cfg data).
Proof.
  intros Hk Hc. unfold V2.sortData.
  destruct (SortConfig.active_key cfg) as [k'|] eqn:Hact.
  - apply active_key_some in Hact. assert (k' = k) as -> by congruence.
    split; [apply stableSort_perm|]. intros p Hp. now apply stableSort_stable.
  - split; [reflexivity | intros; reflexivity].
Qed.

(** Rows with the same ([===]) sort-key value compare equal, in both
    directions, so each such class is covered by the stability lemmas. *)
Lemma V4_compare_same_value (k : string) (d : SortDirection) (a b : Row.t) :
  strict_eq (Row.get a k) (Row.get b k) = true -> V4.compare k d a b = 0.
Proof. intros H. unfold V4.compare. now rewrite H. Qed.

Lemma V3_compare_same_value (k : string) (d : SortDirection) (a b : Row.t) :
  strict_eq (Row.get a k) (Row.get b k) = true -> V3.compare k d a b = 0.
Proof. intros H. unfold V3.compare. now rewrite H. Qed.

Lemma V2_compare_same_value (k : string) (d : SortDirection) (a b : Row.t) :
  strict_eq (Row.get a k) (Row.get b k) = true -> V2.compare k d a b = 0.
Proof. intros H. unfold V2.compare. now rewrite H. Qed.

Lemma strict_eq_true (u v : value) : strict_eq u v = true <-> u = v.
Proof.
  destruct u, v; simpl; try (split; [discriminate | congruence]);
    try (split; reflexivity).
  - rewrite Z.eqb_eq. split; congruence.
  - rewrite String.eqb_eq. split; congruence.
Qed.

Lemma strict_eq_nullish_defined (u v : value) :
  loose_eq_null u <> loose_eq_null v -> strict_eq u v = false.
Proof. destruct u, v; simpl; congruence. Qed.

(** *** Placement of null and undefined keys *)

Lemma V4_compare_null_left (k : string) (d : SortDirection) (a b : Row.t) :
  key_is_nullish k a = true -> key_is_nullish k b = false ->
  V4.compare k d a b = 1.
Proof.
  unfold key_is_nullish, V4.compare. intros Ha Hb.
  rewrite strict_eq_nullish_defined by congruence. now rewrite Ha.
Qed.

Lemma V4_compare_null_right (k : string) (d : SortDirection) (a b : Row.t) :
  key_is_nullish k a = false -> key_is_nullish k b = true ->
  V4.compare k d a b = -1.
Proof.
  unfold key_is_nullish, V4.compare. intros Ha Hb.
  rewrite strict_eq_nullish_defined by congruence. now rewrite Ha, Hb.
Qed.



Lemma V2_compare_null_left (k : string) (d : SortDirection) (a b : Row.t) :
  key_is_nullish k a = true -> key_is_nullish k b = false ->
  V2.compare k d a b = 1.
Proof.
  unfold key_is_nullish, V2.compare. intros Ha Hb.
  rewrite strict_eq_nullish_defined by congruence. now rewrite Ha.
Qed.

Lemma V2_compare_null_right (k : string) (d : SortDirection) (a b : Row.t) :
  key_is_nullish k a = false -> key_is_nullish k b = true ->
  V2.compare k d a b = -1.
Proof.
  unfold key_is_nullish, V2.compare. intros Ha Hb.
  rewrite strict_eq_nullish_defined by congruence. now rewrite Ha, Hb.
Qed.

Lemma V4_sortedData_nulls_at_end (data : list Row.t) (cfg : SortConfig.t)
    (k : string) :
  SortConfig.active_key cfg = Some k ->
  consistent_on (V4.compare k (SortConfig.direction cfg)) data ->
  nulls_at_end k (V4.sortedData data cfg).
Proof.
  intros Hk Hc. unfold V4.sortedData, nulls_at_end. rewrite Hk.
  rewrite (sort_consistent _ _ Hc).
  apply late_last_split, insertion_sort_late_last; intros x y Hx Hy.
  - rewrite V4_compare_null_left by assumption. lia.
  - rewrite V4_compare_null_right by assumption. lia.
Qed.






Lemma late_last_map_fst {T U : Type} (late : T -> bool) (l : list (T * U)) :
  late_last (fun a => late (fst a)) l -> late_last late (map fst l).
Proof.
  unfold late_last. induction 1 as [|x l Hx Hl IH]; simpl; constructor;
    [|exact IH].
  rewrite Forall_forall in *. intros y Hy. apply in_map_iff in Hy.
  destruct Hy as [a [<- Ha]]. now apply Hx.
Qed.

Lemma V2_sortData_nulls_at_end (data : list Row.t) (cfg : SortConfig.t)
    (k : string) :
  SortConfig.active_key cfg = Some k ->
  consistent_on (V2.compare k (SortConfig.direction cfg)) data ->
  nulls_at_end k (V2.sortData cfg data).
Proof.
  intros Hk Hc. unfold V2.sortData, nulls_at_end, V2.stableSort. rewrite Hk.
  cbv zeta. rewrite sort_consistent by now apply decorated_consistent.
  apply late_last_split, late_last_map_fst, insertion_sort_late_last;
    intros [x i] [y j] Hx Hy; cbn [fst snd] in *.
  - rewrite V2_compare_null_left by assumption. simpl. lia.
  - rewrite V2_compare_null_right by assumption. simpl. lia.
Qed.

End SortStage.

(** ** [stableSort] does not depend on the stability of the platform sort

    Whatever array the platform returns for [indexed.sort(...)], provided
    it is a rearrangement of [indexed] in which no element compares greater
    than a later one, undecorating it keeps every class of equal elements
    in input order. *)

Lemma Permutation_filter_compat {T : Type} (f : T -> bool) (l l' : list T) :
  Permutation l l' -> Permutation (filter f l) (filter f l').
Proof.
  induction 1 as [|x l l' _ IH|x y l|l l' l'' _ IH1 _ IH2]; simpl.
  - constructor.
  - destruct (f x); [now constructor | exact IH].
  - destruct (f x), (f y); try reflexivity. apply perm_swap.
  - now transitivity (filter f l').
Qed.

Lemma ForallOrdPairs_filter {T : Type} (R : T -> T -> Prop) (f : T -> bool)
    (l : list T) :
  ForallOrdPairs R l -> ForallOrdPairs R (filter f l).
Proof.
  induction 1 as [|x l Hx Hl IH]; simpl; [constructor|].
  destruct (f x); [|exact IH]. constructor; [|exact IH].
  rewrite Forall_forall in *. intros y Hy. apply Hx.
  now apply filter_In in Hy.
Qed.

Lemma ForallOrdPairs_impl_In {T : Type} (R S : T -> T -> Prop) (l : list T) :
  (forall x y, In x l -> In y l -> R x y -> S x y) ->
  ForallOrdPairs R l -> ForallOrdPairs S l.
Proof.
  intros HRS H. induction H as [|x l Hx Hl IH]; constructor.
  - rewrite Forall_forall in *. intros y Hy.
    apply HRS; [now left | now right | now apply Hx].
  - apply IH. intros a b Ha Hb. apply HRS; now right.
Qed.

Lemma increasing_NoDup {T : Type} (l : list (T * Z)) :
  ForallOrdPairs (fun a b => snd a < snd b) l -> NoDup (map snd l).
Proof.
  induction 1 as [|x l Hx Hl IH]; simpl; constructor; [|exact IH].
  rewrite Forall_forall in Hx. intros Hin. apply in_map_iff in Hin.
  destruct Hin as [y [Heq Hy]]. specialize (Hx y Hy). lia.
Qed.

Lemma nondecreasing_NoDup_increasing {T : Type} (l : list (T * Z)) :
  NoDup (map snd l) ->
  ForallOrdPairs (fun a b => snd a <= snd b) l ->
  ForallOrdPairs (fun a b => snd a < snd b) l.
Proof.
  intros Hnd H. induction H as [|x l Hx Hl IH]; constructor.
  - simpl in Hnd. inversion Hnd as [|? ? Hnotin _]; subst.
    rewrite Forall_forall in *. intros y Hy. specialize (Hx y Hy).
    assert (snd x <> snd y).
    { intros E. apply Hnotin. rewrite E. now apply in_map. }
    lia.
  - apply IH. simpl in Hnd. now inversion Hnd.
Qed.

(** Two rearrangements of each other that both run by strictly growing
    index are the same array. *)
Lemma increasing_unique {T : Type} (l l' : list (T * Z)) :
  Permutation l l' ->
  ForallOrdPairs (fun a b => snd a < snd b) l ->
  ForallOrdPairs (fun a b => snd a < snd b) l' ->
  l = l'.
Proof.
  intros Hperm Hl. revert l' Hperm.
  induction Hl as [|x l Hx Hl IH]; intros l' Hperm Hl'.
  - now apply Permutation_nil in Hperm.
  - destruct Hl' as [|y l' Hy Hl'].
    + symmetry in Hperm. now apply Permutation_nil in Hperm.
    + rewrite Forall_forall in Hx, Hy.
      assert (Hxy : x = y).
      { pose proof (Permutation_in x Hperm (or_introl eq_refl)) as [E|Hxin];
          [now symmetry|].
        pose proof (Permutation_in y (Permutation_sym Hperm)
                      (or_introl eq_refl)) as [E|Hyin]; [exact E|].
        specialize (Hx _ Hyin). specialize (Hy _ Hxin). lia. }
      subst y. f_equal. apply IH; [|exact Hl'].
      now apply Permutation_cons_inv in Hperm.
Qed.

Lemma stableSort_platform_independent {T : Type} (arr : list T)
    (compareFn : T -> T -> Z) (sorted : list (T * Z)) (p : T -> bool) :
  let indexed := combine arr (map Z.of_nat (seq 0 (List.length arr))) in
  let cmp := fun a b : T * Z =>
    let result := compareFn (fst a) (fst b) in
    if negb (result =? 0) then result else snd a - snd b in
  Permutation sorted indexed ->
  ForallOrdPairs (fun a b => cmp a b <= 0) sorted ->
  (forall a b, p a = true -> p b = true -> compareFn a b = 0) ->
  filter p (map fst sorted) = filter p arr.
Proof.
  intros indexed cmp Hperm Hsorted Hclass.
  transitivity (filter p (map fst indexed));
    [|unfold indexed; now rewrite combine_seq_fst].
  rewrite !filter_map_fst. f_equal.
  set (P := fun a : T * Z => p (fst a)).
  assert (Hinc : ForallOrdPairs (fun a b : T * Z => snd a < snd b)
                   (filter P indexed))
    by apply ForallOrdPairs_filter, combine_seq_increasing.
  assert (Hp : Permutation (filter P sorted) (filter P indexed))
    by now apply Permutation_filter_compat.
  apply increasing_unique; [exact Hp | | exact Hinc].
  apply nondecreasing_NoDup_increasing.
  - apply (Permutation_NoDup (l := map snd (filter P indexed)));
      [|exact (increasing_NoDup _ Hinc)].
    symmetry. now apply Permutation_map.
  - apply ForallOrdPairs_impl_In with (R := fun a b => cmp a b <= 0);
      [|now apply ForallOrdPairs_filter].
    intros x y Hx Hy Hle. apply filter_In in Hx, Hy.
    unfold cmp in Hle. cbv zeta in Hle.
    rewrite (Hclass _ _ (proj2 Hx) (proj2 Hy)) in Hle. simpl in Hle. lia.
Qed.

(** ** Pagination stage *)

Lemma existsb_Zeqb (n : Z) (l : list Z) :
  existsb (Z.eqb n) l = true <-> In n l.
Proof.
  rewrite existsb_exists. split.
  - intros [m [Hm Heq]]. apply Z.eqb_eq in Heq. now subst.
  - intros H. exists n. split; [exact H | apply Z.eqb_refl].
Qed.

(** The numbered buttons only offer pages of the table. *)
Lemma getPageNumbers_range (tp sp n : Z) :
  1 <= sp <= tp -> In n (V4.getPageNumbers tp sp) -> 1 <= n <= tp.
Proof.
  intros Hsp. unfold V4.getPageNumbers.
  destruct (Z.leb_spec tp 5); [rewrite in_for_range; lia|].
  destruct (Z.leb_spec sp 3); [rewrite in_for_range; lia|].
  destruct (Z.leb_spec (tp - 2) sp); rewrite in_for_range; lia.
Qed.

Section V4Pagination.
Context {host : Host}.

Lemma V4_totalPages_ge_1 (rows : list Row.t) (ps : Z) :
  1 <= V4.totalPages rows ps.
Proof. unfold V4.totalPages. lia. Qed.

Lemma V4_render_totalPages_ge_1 (p : V4.Props) (s : V4.State) :
  1 <= V4.v_totalPages (V4.render p s).
Proof. apply V4_totalPages_ge_1. Qed.

Lemma V4_render_safePage (p : V4.Props) (s : V4.State) :
  V4.v_safePage (V4.render p s) =
  Z.min (V4.currentPage s) (V4.v_totalPages (V4.render p s)).
Proof. reflexivity. Qed.

(** Writing the page cell leaves the number of pages as it was. *)
Lemma V4_render_totalPages_setCurrentPage (p : V4.Props) (s : V4.State)
    (f : Z -> Z) :
  V4.v_totalPages (V4.render p (V4.setCurrentPage f s)) =
  V4.v_totalPages (V4.render p s).
Proof. reflexivity. Qed.

Lemma V4_setCurrentPage_ok (p : V4.Props) (s : V4.State) (f : Z -> Z) :
  V4_state_ok p s ->
  1 <= f (V4.currentPage s) <= V4.v_totalPages (V4.render p s) ->
  V4_state_ok p (V4.setCurrentPage f s).
Proof.
  intros [Hps Hcp] Hf. split; [exact Hps|].
  rewrite V4_render_totalPages_setCurrentPage. exact Hf.
Qed.

Lemma V4_handleSort_ok (p : V4.Props) (s : V4.State) (k : string) :
  V4_state_ok p s -> V4_state_ok p (V4.handleSort k s).
Proof.
  intros [Hps _]. split; [exact Hps|].
  pose proof (V4_render_totalPages_ge_1 p (V4.handleSort k s)).
  simpl V4.currentPage. lia.
Qed.

Lemma V4_step_ok (p : V4.Props) (s : V4.State) (e : V4.Event) :
  positive_sizes (V4.defaultPageSize p) (V4.pageSizeOptions p) ->
  V4_state_ok p s -> V4_state_ok p (V4.step p s e).
Proof.
  intros [_ Hopt] Hok.
  pose proof Hok as [Hps Hcp].
  pose proof (V4_render_safePage p s) as Hsp.
  destruct e as [q|size|col|col key| | |pageNum| | ]; cbn [V4.step].
  - (* FilterInput *)
    split; [exact Hps|].
    pose proof (V4_render_totalPages_ge_1 p (V4.handleFilterChange q s)).
    simpl V4.currentPage. lia.
  - (* PageSizeSelect *)
    destruct (existsb (Z.eqb size) (V4.pageSizeOptions p)) eqn:Hin;
      [|exact Hok].
    apply existsb_Zeqb in Hin. rewrite Forall_forall in Hopt.
    split; [exact (Hopt _ Hin)|].
    pose proof (V4_render_totalPages_ge_1 p (V4.handlePageSizeChange size s)).
    simpl V4.currentPage. lia.
  - (* HeaderClick *)
    destruct (nth_error (V4.columns p) col) as [c|]; [|exact Hok].
    destruct (Column.is_sortable c); [now apply V4_handleSort_ok | exact Hok].
  - (* HeaderKeyDown *)
    destruct (nth_error (V4.columns p) col) as [c|]; [|exact Hok].
    destruct (Column.is_sortable c && _)%bool;
      [now apply V4_handleSort_ok | exact Hok].
  - (* FirstPage *)
    destruct (_ =? 1); [exact Hok|].
    apply V4_setCurrentPage_ok; [exact Hok | lia].
  - (* PreviousPage *)
    destruct (_ =? 1); [exact Hok|].
    apply V4_setCurrentPage_ok; [exact Hok | lia].
  - (* PageButton *)
    destruct (existsb _ _) eqn:Hin; [|exact Hok].
    apply existsb_Zeqb, getPageNumbers_range in Hin; [|lia].
    apply V4_setCurrentPage_ok; [exact Hok | lia].
  - (* NextPage *)
    destruct (_ =? _); [exact Hok|].
    apply V4_setCurrentPage_ok; [exact Hok | lia].
  - (* LastPage *)
    destruct (_ =? _); [exact Hok|].
    apply V4_setCurrentPage_ok; [exact Hok | lia].
Qed.

Lemma V4_initial_ok (p : V4.Props) :
  positive_sizes (V4.defaultPageSize p) (V4.pageSizeOptions p) ->
  V4_state_ok p (V4.initial p).
Proof.
  intros [Hd _]. split; [exact Hd|].
  pose proof (V4_render_totalPages_ge_1 p (V4.initial p)).
  simpl V4.currentPage. lia.
Qed.

Lemma V4_run_ok (p : V4.Props) (es : list V4.Event) (s : V4.State) :
  positive_sizes (V4.defaultPageSize p) (V4.pageSizeOptions p) ->
  V4_state_ok p s -> V4_state_ok p (V4.run p s es).
Proof.
  intros Hp. revert s. induction es as [|e es IH]; intros s Hs; [exact Hs|].
  apply IH. now apply V4_step_ok.
Qed.

End V4Pagination.

Section V3Pagination.
Context {host : Host}.

Lemma V3_totalPages_ge_1 (rows : list Row.t) (ps : Z) :
  1 <= V3.totalPages rows ps.
Proof. unfold V3.totalPages. lia. Qed.

Lemma V3_pagination_totalPages_ge_1 (p : V3.Props) (s : V3.State) :
  1 <= V3.p_totalPages (V3.pagination p s).
Proof. apply V3_totalPages_ge_1. Qed.

Lemma V3_pagination_currentPage (p : V3.Props) (s : V3.State) :
  V3.p_currentPage (V3.pagination p s) =
  Z.min (V3.currentPage s) (V3.p_totalPages (V3.pagination p s)).
Proof. reflexivity. Qed.

Lemma V3_pagination_totalPages_setCurrentPage (p : V3.Props) (s : V3.State)
    (page : Z) :
  V3.p_totalPages (V3.pagination p (V3.setCurrentPage page s)) =
  V3.p_totalPages (V3.pagination p s).
Proof. reflexivity. Qed.

Lemma V3_totalPages_mono (rows rows' : list Row.t) (ps : Z) :
  1 <= ps -> (List.length rows <= List.length rows')%nat ->
  V3.totalPages rows ps <= V3.totalPages rows' ps.
Proof.
  intros Hps Hlen. unfold V3.totalPages.
  apply Z.max_le_compat_l, ceil_div_mono; lia.
Qed.

Lemma V3_sortedData_length (rows : list Row.t) (cfg : SortConfig.t) :
  List.length (V3.sortedData rows cfg) = List.length rows.
Proof.
  unfold V3.sortedData. destruct (SortConfig.active_key cfg); [|reflexivity].
  apply sort_length.
Qed.

Lemma V3_filteredData_length (data : list Row.t) (columns : list Column.t)
    (q : string) :
  (List.length (V3.filteredData data columns q) <= List.length data)%nat.
Proof.
  unfold V3.filteredData. destruct (negb _); [lia | apply filter_length_le].
Qed.

(** Clearing the filter can only add pages. *)
Lemma V3_clear_totalPages (p : V3.Props) (s : V3.State) :
  1 <= V3.pageSize s ->
  V3.p_totalPages (V3.pagination p s) <=
  V3.p_totalPages (V3.pagination p (V3.setFilterText "" s)).
Proof.
  intros Hps. unfold V3.pagination, V3.usePagination. cbn [V3.p_totalPages].
  apply V3_totalPages_mono; [exact Hps|].
  rewrite !V3_sortedData_length. cbn [V3.filterText V3.setFilterText].
  rewrite (V3_filteredData_blank _ _ "") by reflexivity.
  apply V3_filteredData_length.
Qed.

Lemma V3_reset_ok (p : V3.Props) (s : V3.State) :
  1 <= V3.pageSize s -> V3.currentPage s = 1 -> V3_state_ok p s.
Proof.
  intros Hps Hcp. split; [exact Hps|].
  pose proof (V3_pagination_totalPages_ge_1 p s). lia.
Qed.

Lemma V3_goToPage_ok (p : V3.Props) (s : V3.State) (page : Z) :
  V3_state_ok p s ->
  V3_state_ok p (V3.goToPage (V3.p_totalPages (V3.pagination p s)) page s).
Proof.
  intros [Hps Hcp]. split; [exact Hps|]. unfold V3.goToPage.
  rewrite V3_pagination_totalPages_setCurrentPage.
  cbn [V3.currentPage V3.setCurrentPage].
  lia.
Qed.

Lemma V3_step_ok (p : V3.Props) (s : V3.State) (e : V3.Event) :
  positive_sizes (V3.initialPageSize p) (V3.pageSizeOptions p) ->
  V3_state_ok p s -> V3_state_ok p (V3.step p s e).
Proof.
  intros [_ Hopt] Hok. pose proof Hok as [Hps Hcp].
  destruct e as [q| |col|size| | ]; cbn [V3.step].
  - (* FilterInput *) now apply V3_reset_ok.
  - (* ClearFilter *)
    destruct (V3.p_paginatedData _); [|exact Hok].
    destruct (truthy _); [|exact Hok].
    split; [exact Hps|].
    pose proof (V3_clear_totalPages p s Hps).
    cbn [V3.currentPage V3.setFilterText]. lia.
  - (* SortButton *)
    destruct (nth_error (V3.columns p) col) as [c|]; [|exact Hok].
    destruct (Column.is_sortable c); [now apply V3_reset_ok | exact Hok].
  - (* PageSizeSelect *)
    destruct (existsb _ _) eqn:Hin; [|exact Hok].
    apply existsb_Zeqb in Hin. rewrite Forall_forall in Hopt.
    apply V3_reset_ok; [exact (Hopt _ Hin) | reflexivity].
  - (* Previous *)
    destruct (V3.p_hasPreviousPage _); [now apply V3_goToPage_ok | exact Hok].
  - (* Next *)
    destruct (V3.p_hasNextPage _); [now apply V3_goToPage_ok | exact Hok].
Qed.

Lemma V3_initial_ok (p : V3.Props) :
  positive_sizes (V3.initialPageSize p) (V3.pageSizeOptions p) ->
  V3_state_ok p (V3.initial p).
Proof. intros [Hd _]. now apply V3_reset_ok. Qed.

Lemma V3_run_ok (p : V3.Props) (es : list V3.Event) (s : V3.State) :
  positive_sizes (V3.initialPageSize p) (V3.pageSizeOptions p) ->
  V3_state_ok p s -> V3_state_ok p (V3.run p s es).
Proof.
  intros Hp. revert s. induction es as [|e es IH]; intros s Hs; [exact Hs|].
  apply IH. now apply V3_step_ok.
Qed.

End V3Pagination.

(** *** The "Clear filter" button of v3

    It calls [setFilterText('')] without [resetPage]; it is only rendered
    in the empty state, and there the stored page is already 1. *)

Lemma V3_empty_page_is_page_1 {host : Host} (p : V3.Props) (s : V3.State) :
  V3_state_ok p s ->
  V3.p_paginatedData (V3.pagination p s) = [] ->
  V3.currentPage s = 1.
Proof.
  intros [Hps Hcp]. unfold V3.pagination, V3.usePagination in *.
  cbn [V3.p_paginatedData V3.p_totalPages] in *.
  set (rows := V3.sortedData _ _) in *.
  unfold V3.safePage. rewrite Z.min_l by lia.
  unfold V3.paginatedData. cbv zeta.
  rewrite slice_window by nia. intros Hempty.
  destruct (Z.eq_dec (V3.currentPage s) 1) as [|Hne]; [assumption|exfalso].
  unfold V3.totalPages in Hcp.
  pose proof (ceil_div_bounds (Z.of_nat (List.length rows)) (V3.pageSize s)
                ltac:(lia)) as Hceil.
  assert (Hlen : (Z.to_nat ((V3.currentPage s - 1) * V3.pageSize s)
                  < List.length rows)%nat) by nia.
  pose proof (length_skipn (Z.to_nat ((V3.currentPage s - 1) * V3.pageSize s))
                rows) as Hskip.
  destruct (skipn _ rows) as [|r rest] eqn:E; [simpl in Hskip; lia|].
  destruct (Z.to_nat (V3.pageSize s)) eqn:Eps; [lia|]. discriminate Hempty.
Qed.

Lemma V3_clear_filter_on_page_1 {host : Host} (p : V3.Props)
    (es : list V3.Event) :
  positive_sizes (V3.initialPageSize p) (V3.pageSizeOptions p) ->
  let s := V3.run p (V3.initial p) es in
  V3.step p s V3.ClearFilter = s \/
  V3.currentPage (V3.step p s V3.ClearFilter) = 1.
Proof.
  intros Hp s.
  pose proof (V3_run_ok p es (V3.initial p) Hp (V3_initial_ok p Hp)) as Hok.
  fold s in Hok. cbn [V3.step].
  destruct (V3.p_paginatedData (V3.pagination p s)) eqn:E; [|now left].
  destruct (truthy (V3.filterText s)); [|now left].
  right. cbn [V3.currentPage V3.setFilterText].
  now apply (V3_empty_page_is_page_1 p).
Qed.

(* ================================================================== *)
(** * Part III. The claims *)
(* ================================================================== *)

(** ** Filter stage *)

(** C1 (as amended).  A query that is blank after trimming returns the
    input rows unchanged in the three versions.  For a query [q] that is
    not blank after trimming, v4 and v2 match against the case-folded AND
    TRIMMED query: in v4 every input row with a defined column value whose
    case-folded string contains [trim (toLowerCase q)] is kept, and every
    kept row is an input row with a column whose case-folded string contains
    it; in v2 a row is kept iff it is an input row with such a defined
    column value.  v3 matches against the case-folded query without
    trimming it. *)
Theorem filter_membership (data : list Row.t) (columns : list Column.t)
    (q : string) :
  (trim q = "" ->
   V4.filteredData data columns q = data /\
   V3.filteredData data columns q = data /\
   V2.filterData columns q data = data) /\
  (trim q <> "" ->
   (forall r, In r data ->
      (exists col, In col columns /\ field_defined r col = true /\
                   field_contains r col (trim (toLowerCase q)) = true) ->
      In r (V4.filteredData data columns q)) /\
   (forall r, In r (V4.filteredData data columns q) ->
      In r data /\
      exists col, In col columns /\
                  field_contains r col (trim (toLowerCase q)) = true) /\
   (forall r, In r (V2.filterData columns q data) <->
      In r data /\
      exists col, In col columns /\ field_defined r col = true /\
                  field_contains r col (trim (toLowerCase q)) = true) /\
   (forall r, In r (V3.filteredData data columns q) <->
      In r data /\
      exists col, In col columns /\ field_defined r col = true /\
                  field_contains r col (toLowerCase q) = true)).
Proof.
  split.
  - intros Hq. repeat split.
    + now apply V4_filteredData_blank.
    + now apply V3_filteredData_blank.
    + now apply V2_filterData_blank.
  - intros Hq. repeat apply conj.
    + intros r Hr (col & Hc & _ & Hm). apply V4_filteredData_In; eauto.
    + intros r Hr. now apply V4_filteredData_In in Hr.
    + intros r. now apply V2_filterData_In.
    + intros r. now apply V3_filteredData_In.
Qed.

Lemma filter_membership_witness :
  V4.filteredData Fixture.testData Fixture.testColumns "   "
    = Fixture.testData /\
  In (Fixture.person 1 "Alice" 30 "New York")
     (V4.filteredData Fixture.testData Fixture.testColumns " ALI ").
Proof.
  split.
  - destruct (filter_membership Fixture.testData Fixture.testColumns "   ")
      as [Hblank _].
    destruct Hblank as [H4 _]; [vm_compute; reflexivity | exact H4].
  - destruct (filter_membership Fixture.testData Fixture.testColumns " ALI ")
      as [_ Hquery].
    destruct Hquery as [Hkeep _]; [vm_compute; discriminate|].
    apply Hkeep.
    + left. reflexivity.
    + exists (Column.mk "name" "Name" (Some true)).
      split; [left; reflexivity | split; vm_compute; reflexivity].
Defined.

(** C1 as stated fails in v4: the query [" ali "] is not blank after
    trimming and keeps the row of Alice, although no column of that row,
    stringified and case-folded, contains the case-folded query
    [" ali "]. *)
Lemma filter_untrimmed_query_counterexample :
  trim " ali " <> "" /\
  In (Fixture.person 1 "Alice" 30 "New York")
     (V4.filteredData Fixture.testData Fixture.testColumns " ali ") /\
  ~ (exists col, In col Fixture.testColumns /\
       field_contains (Fixture.person 1 "Alice" 30 "New York") col
         (toLowerCase " ali ") = true).
Proof.
  split; [vm_compute; discriminate|]. split; [vm_compute; left; reflexivity|].
  intros [col [Hc Hm]].
  destruct Hc as [<-|[<-|[<-|[]]]]; vm_compute in Hm; discriminate Hm.
Qed.

(** C4 (the code at the failing inputs).  In v4 the query ["null"] keeps a
    row for the only reason that its [name] field is [null], and the query
    ["undef"] keeps a row for the only reason that it has no [name]
    property: the value is coerced to the string ["null"] or
    ["undefined"] before the test.  v3 and v2 test the value first and drop
    both rows. *)
Theorem V4_null_field_matches_null_query :
  key_is_nullish "name" Fixture.nullRow = true /\
  V4.filteredData [Fixture.nullRow] Fixture.nameOnly "null"
    = [Fixture.nullRow] /\
  V3.filteredData [Fixture.nullRow] Fixture.nameOnly "null" = [] /\
  V2.filterData Fixture.nameOnly "null" [Fixture.nullRow] = [] /\
  Row.get Fixture.bareRow "name" = VUndefined /\
  V4.filteredData [Fixture.bareRow] Fixture.nameOnly "undef"
    = [Fixture.bareRow] /\
  V3.filteredData [Fixture.bareRow] Fixture.nameOnly "undef" = [] /\
  V2.filterData Fixture.nameOnly "undef" [Fixture.bareRow] = [].
Proof. vm_compute. repeat split. Qed.

(** The guard is what v4 lacks: the property of C4 fails for its filter. *)
Lemma V4_null_fields_may_match : ~ null_fields_never_match V4.filteredData.
Proof.
  intros H.
  apply (H [Fixture.nullRow] Fixture.nameOnly "null" Fixture.nullRow).
  - vm_compute. discriminate.
  - intros col [<-|[]]. vm_compute. reflexivity.
  - vm_compute. left. reflexivity.
Qed.

(** ** Sort stage *)

(** C2 (the code at the failing input).  A column of type
    [string | number] with the values ['9'], [10], [9], sorted ascending
    by v4 on the sample engine: the comparator says that [10] goes before
    ['9'] (strings ["10"] and ["9"]) and [9] before [10] (numbers), so the
    array is one strictly descending run, which the engine reverses.  The
    rows of ['9'] and of [9] compare equal in both orders and come out in
    the opposite of their input order: the output is not a stable
    rearrangement of the input.  The comparator is not a consistent
    comparison function for these rows. *)
Theorem sort_unstable_on_mixed_column :
  let cfg := SortConfig.mk (Some "code") asc in
  let cmp := V4.compare (host := Fixture.host) "code" asc in
  let out := V4.sortedData (host := Fixture.host)
               Fixture.dataWithMixedCodes cfg in
  cmp (Fixture.coded 2 (VNumber 10)) (Fixture.coded 1 (VString "9")) < 0 /\
  cmp (Fixture.coded 3 (VNumber 9)) (Fixture.coded 2 (VNumber 10)) < 0 /\
  cmp (Fixture.coded 1 (VString "9")) (Fixture.coded 3 (VNumber 9)) = 0 /\
  cmp (Fixture.coded 3 (VNumber 9)) (Fixture.coded 1 (VString "9")) = 0 /\
  consistent_onb cmp Fixture.dataWithMixedCodes = false /\
  out = [ Fixture.coded 3 (VNumber 9); Fixture.coded 2 (VNumber 10);
          Fixture.coded 1 (VString "9") ] /\
  ~ stable_rearrangement cmp Fixture.dataWithMixedCodes out.
Proof.
  cbv zeta. repeat apply conj; try (vm_compute; reflexivity).
  intros [_ Hstable].
  set (nine := fun r : Row.t =>
         (strict_eq (Row.get r "code") (VString "9")
          || strict_eq (Row.get r "code") (VNumber 9))%bool).
  specialize (Hstable nine).
  assert (Hclass : forall a b, nine a = true -> nine b = true ->
            V4.compare (host := Fixture.host) "code" asc a b = 0).
  { intros a b Ha Hb. unfold nine in Ha, Hb.
    apply orb_true_iff in Ha, Hb. unfold V4.compare.
    destruct Ha as [Ha|Ha], Hb as [Hb|Hb];
      apply strict_eq_true in Ha, Hb; rewrite Ha, Hb; vm_compute; reflexivity. }
  specialize (Hstable Hclass). vm_compute in Hstable. discriminate Hstable.
Qed.

(** X20.  For every row list and every sort state with a key, on every
    engine, the sorted rows are a permutation of the input; and when the
    comparator of the sort state is a consistent comparison function for
    the rows, every class of rows that compare equal keeps its input order
    (v4 and v3 through the platform sort, v2 through [stableSort]). *)
Theorem sort_stage_stable {host : Host} (data : list Row.t)
    (cfg : SortConfig.t) (k : string) :
  SortConfig.key cfg = Some k ->
  (Permutation (V4.sortedData data cfg) data /\
   Permutation (V2.sortData cfg data) data /\
   Permutation (V3.sortedData data cfg) data) /\
  (consistent_on (V4.compare k (SortConfig.direction cfg)) data ->
   stable_rearrangement (V4.compare k (SortConfig.direction cfg))
     data (V4.sortedData data cfg)) /\
  (consistent_on (V2.compare k (SortConfig.direction cfg)) data ->
   stable_rearrangement (V2.compare k (SortConfig.direction cfg))
     data (V2.sortData cfg data)) /\
  (consistent_on (V3.compare k (SortConfig.direction cfg)) data ->
   stable_rearrangement (V3.compare k (SortConfig.direction cfg))
     data (V3.sortedData data cfg)).
Proof.
  intros Hk. split; [|split; [|split]].
  - split; [|split].
    + unfold V4.sortedData.
      destruct (SortConfig.active_key cfg); [apply sort_perm | reflexivity].
    + unfold V2.sortData.
      destruct (SortConfig.active_key cfg);
        [apply stableSort_perm | reflexivity].
    + unfold V3.sortedData.
      destruct (SortConfig.active_key cfg); [apply sort_perm | reflexivity].
  - now apply V4_sortedData_stable.
  - now apply V2_sortData_stable.
  - now apply V3_sortedData_stable.
Qed.

Lemma dataWithDupes_consistent {host : Host} (k : string)
    (d : SortDirection) :
  k = "department" ->
  consistent_on (V4.compare k d) Fixture.dataWithDupes /\
  consistent_on (V2.compare k d) Fixture.dataWithDupes.
Proof.
  intros ->.
  assert (H4 : forall a b, In a Fixture.dataWithDupes ->
            In b Fixture.dataWithDupes -> V4.compare "department" d a b = 0).
  { intros a b Ha Hb. apply V4_compare_same_value.
    destruct Ha as [<-|[<-|[<-|[]]]]; destruct Hb as [<-|[<-|[<-|[]]]];
      reflexivity. }
  assert (H2 : forall a b, In a Fixture.dataWithDupes ->
            In b Fixture.dataWithDupes -> V2.compare "department" d a b = 0).
  { intros a b Ha Hb. apply V2_compare_same_value.
    destruct Ha as [<-|[<-|[<-|[]]]]; destruct Hb as [<-|[<-|[<-|[]]]];
      reflexivity. }
  split; intros a b c Ha Hb Hc.
  - rewrite !H4 by assumption. repeat split; intros; lia.
  - rewrite !H2 by assumption. repeat split; intros; lia.
Qed.

Lemma sort_stage_stable_witness :
  let cfg := SortConfig.mk (Some "department") desc in
  let engineering := fun r : Row.t =>
    strict_eq (Row.get r "department") (VString "Engineering") in
  Permutation (V4.sortedData (host := Fixture.host) Fixture.dataWithDupes cfg)
    Fixture.dataWithDupes /\
  filter engineering
    (V4.sortedData (host := Fixture.host) Fixture.dataWithDupes cfg)
    = filter engineering Fixture.dataWithDupes /\
  filter engineering
    (V2.sortData (host := Fixture.host) cfg Fixture.dataWithDupes)
    = filter engineering Fixture.dataWithDupes.
Proof.
  intros cfg engineering.
  destruct (sort_stage_stable (host := Fixture.host) Fixture.dataWithDupes cfg
              "department" eq_refl) as [[Hperm _] [H4 [H2 _]]].
  destruct (dataWithDupes_consistent (host := Fixture.host) "department" desc
              eq_refl) as [C4 C2].
  split; [exact Hperm|]. split.
  - apply (H4 C4). intros a b Ha Hb. apply V4_compare_same_value.
    apply strict_eq_true in Ha, Hb. apply strict_eq_true. congruence.
  - apply (H2 C2). intros a b Ha Hb. apply V2_compare_same_value.
    apply strict_eq_true in Ha, Hb. apply strict_eq_true. congruence.
Defined.




(** ** Pagination and the coordinator *)

Lemma fixture_v4_sizes :
  positive_sizes (V4.defaultPageSize Fixture.v4Props)
    (V4.pageSizeOptions Fixture.v4Props).
Proof.
  split; [vm_compute; discriminate|].
  repeat constructor; vm_compute; discriminate.
Qed.

Lemma fixture_v3_sizes :
  positive_sizes (V3.initialPageSize Fixture.v3Props)
    (V3.pageSizeOptions Fixture.v3Props).
Proof.
  split; [vm_compute; discriminate|].
  repeat constructor; vm_compute; discriminate.
Qed.

(** C5.  With positive page sizes, after any sequence of interactions
    starting from the initial state (filter input, header clicks and key
    presses, page-size selection, page buttons), the page that is shown
    lies between 1 and the number of pages, in v4 ([safePage]) and in v3
    ([currentPage] of the object returned by [usePagination]); the stored
    page cell lies in the same range. *)
Theorem current_page_within_bounds {host : Host}
    (p4 : V4.Props) (es4 : list V4.Event)
    (p3 : V3.Props) (es3 : list V3.Event) :
  positive_sizes (V4.defaultPageSize p4) (V4.pageSizeOptions p4) ->
  positive_sizes (V3.initialPageSize p3) (V3.pageSizeOptions p3) ->
  (let s := V4.run p4 (V4.initial p4) es4 in
   let v := V4.render p4 s in
   1 <= V4.v_safePage v <= V4.v_totalPages v /\
   1 <= V4.currentPage s <= V4.v_totalPages v) /\
  (let s := V3.run p3 (V3.initial p3) es3 in
   let pg := V3.pagination p3 s in
   1 <= V3.p_currentPage pg <= V3.p_totalPages pg /\
   1 <= V3.currentPage s <= V3.p_totalPages pg).
Proof.
  intros H4 H3. split; cbv zeta.
  - destruct (V4_run_ok p4 es4 (V4.initial p4) H4 (V4_initial_ok p4 H4))
      as [_ Hcp].
    rewrite V4_render_safePage. lia.
  - destruct (V3_run_ok p3 es3 (V3.initial p3) H3 (V3_initial_ok p3 H3))
      as [_ Hcp].
    rewrite V3_pagination_currentPage. lia.
Qed.

Lemma current_page_within_bounds_witness :
  (let v := V4.render (host := Fixture.host) Fixture.v4Props
              (V4.run (host := Fixture.host) Fixture.v4Props
                 (V4.initial Fixture.v4Props)
                 [V4.LastPage; V4.FilterInput "Alice"]) in
   1 <= V4.v_safePage v <= V4.v_totalPages v) /\
  (let pg := V3.pagination (host := Fixture.host) Fixture.v3Props
               (V3.run (host := Fixture.host) Fixture.v3Props
                  (V3.initial Fixture.v3Props)
                  [V3.Next; V3.Next; V3.FilterInput "Alice"]) in
   1 <= V3.p_currentPage pg <= V3.p_totalPages pg).
Proof.
  destruct (current_page_within_bounds (host := Fixture.host)
              Fixture.v4Props [V4.LastPage; V4.FilterInput "Alice"]
              Fixture.v3Props [V3.Next; V3.Next; V3.FilterInput "Alice"]
              fixture_v4_sizes fixture_v3_sizes) as [[H4 _] [H3 _]].
  split; [exact H4 | exact H3].
Defined.

(** The scenario of the specification: 12 rows, page size 5, last page,
    then a filter that keeps one row. *)
Example scenario_filter_from_last_page :
  let s3 := V4.run (host := Fixture.host) Fixture.v4Props
              (V4.initial Fixture.v4Props) [V4.LastPage] in
  let s := V4.step (host := Fixture.host) Fixture.v4Props s3
             (V4.FilterInput "Alice") in
  let v := V4.render (host := Fixture.host) Fixture.v4Props s in
  V4.currentPage s3 = 3 /\
  V4.v_totalItems v = 1 /\ V4.v_totalPages v = 1 /\ V4.v_safePage v = 1 /\
  V4.v_paginatedData v = [Fixture.person 1 "Alice" 30 "New York"].
Proof. vm_compute. repeat split. Qed.

(** In a reachable state of v4 the stored page is itself in range, so the
    clamp of the render changes nothing. *)
Lemma V4_reachable_stored_page {host : Host} (p : V4.Props)
    (es : list V4.Event) :
  positive_sizes (V4.defaultPageSize p) (V4.pageSizeOptions p) ->
  let s := V4.run p (V4.initial p) es in
  V4.v_safePage (V4.render p s) = V4.currentPage s.
Proof.
  intros Hp s.
  destruct (V4_run_ok p es (V4.initial p) Hp (V4_initial_ok p Hp)) as [_ Hcp].
  rewrite V4_render_safePage. fold s in Hcp. lia.
Qed.

(** C6.  In v4 the three handlers [handleFilterChange], [handleSort] and
    [handlePageSizeChange] set the page to 1 whatever it was; an
    interaction that is not page navigation either changes nothing (a
    header that is not sortable, a size that is not offered) or leaves the
    page at 1; page navigation leaves the filter text, the sort state and
    the page size unchanged, and it does not reset the page (from the
    initial state of the fixture "next" leads to page 2). *)
Theorem resets_and_navigation {host : Host} :
  (forall q s, V4.currentPage (V4.handleFilterChange q s) = 1) /\
  (forall k s, V4.currentPage (V4.handleSort k s) = 1) /\
  (forall n s, V4.currentPage (V4.handlePageSizeChange n s) = 1) /\
  (forall p s e,
     if V4_is_navigation e
     then V4.filterText (V4.step p s e) = V4.filterText s /\
          V4.sortConfig (V4.step p s e) = V4.sortConfig s /\
          V4.pageSize (V4.step p s e) = V4.pageSize s
     else V4.step p s e = s \/ V4.currentPage (V4.step p s e) = 1) /\
  V4.currentPage
    (V4.step Fixture.v4Props (V4.initial Fixture.v4Props) V4.NextPage) = 2.
Proof.
  repeat apply conj; try reflexivity.
  intros p s e. destruct e as [q|size|col|col key| | |pageNum| | ];
    cbn [V4_is_navigation V4.step].
  - right. reflexivity.
  - destruct (existsb _ _); [right | left]; reflexivity.
  - destruct (nth_error _ _) as [c|]; [|left; reflexivity].
    destruct (Column.is_sortable c); [right | left]; reflexivity.
  - destruct (nth_error _ _) as [c|]; [|left; reflexivity].
    destruct (Column.is_sortable c && _)%bool; [right | left]; reflexivity.
  - destruct (_ =? _); repeat split.
  - destruct (_ =? _); repeat split.
  - destruct (existsb _ _); repeat split.
  - destruct (_ =? _); repeat split.
  - destruct (_ =? _); repeat split.
Qed.

(** ** Sort state *)

Lemma same_key_asc_spec (prev : SortConfig.t) (k : string) :
  same_key_asc prev k = true <->
  SortConfig.key prev = Some k /\ SortConfig.direction prev = asc.
Proof.
  unfold same_key_asc.
  destruct (SortConfig.key prev) as [k'|], (SortConfig.direction prev);
    try (split; [discriminate | intros [? ?]; discriminate]).
  rewrite String.eqb_eq.
  split; [intros ->; auto | intros [[= ->] _]; reflexivity].
Qed.

Lemma toggle_direction (prev : SortConfig.t) (k : string) :
  (SortConfig.key prev = Some k ->
   (if same_key_asc prev k then desc else asc)
     = flip (SortConfig.direction prev)) /\
  (SortConfig.key prev <> Some k ->
   (if same_key_asc prev k then desc else asc) = asc).
Proof.
  destruct (same_key_asc prev k) eqn:H.
  - apply same_key_asc_spec in H. destruct H as [Hk Hd].
    rewrite Hd. split; [reflexivity | congruence].
  - split; [|reflexivity]. intros Hk.
    destruct (SortConfig.direction prev) eqn:Hd; [|reflexivity].
    assert (same_key_asc prev k = true) by (apply same_key_asc_spec; auto).
    congruence.
Qed.

(** C7.  [handleSort k] (v4 and v3) always makes [k] the one key of the
    sort state (and, for a non-empty [k], the key the sort stage sorts by);
    when [k] was already the key the direction is flipped, otherwise the
    direction is ascending.  Hence repeated toggling of one key yields
    ascending, descending, ascending and never a state without a key. *)
Theorem toggle_sort_transition {host : Host} (k : string) :
  (forall s,
     SortConfig.key (V4.sortConfig (V4.handleSort k s)) = Some k /\
     (SortConfig.key (V4.sortConfig s) = Some k ->
      SortConfig.direction (V4.sortConfig (V4.handleSort k s))
        = flip (SortConfig.direction (V4.sortConfig s))) /\
     (SortConfig.key (V4.sortConfig s) <> Some k ->
      SortConfig.direction (V4.sortConfig (V4.handleSort k s)) = asc)) /\
  (forall s,
     SortConfig.key (V3.sortConfig (V3.handleSortClick k s)) = Some k /\
     (SortConfig.key (V3.sortConfig s) = Some k ->
      SortConfig.direction (V3.sortConfig (V3.handleSortClick k s))
        = flip (SortConfig.direction (V3.sortConfig s))) /\
     (SortConfig.key (V3.sortConfig s) <> Some k ->
      SortConfig.direction (V3.sortConfig (V3.handleSortClick k s)) = asc)) /\
  (forall s,
     SortConfig.key (V4.sortConfig s) <> Some k ->
     let s1 := V4.handleSort k s in
     let s2 := V4.handleSort k s1 in
     let s3 := V4.handleSort k s2 in
     V4.sortConfig s1 = SortConfig.mk (Some k) asc /\
     V4.sortConfig s2 = SortConfig.mk (Some k) desc /\
     V4.sortConfig s3 = SortConfig.mk (Some k) asc) /\
  (forall s4 s3,
     k <> "" ->
     SortConfig.active_key (V4.sortConfig (V4.handleSort k s4)) = Some k /\
     SortConfig.active_key (V3.sortConfig (V3.handleSortClick k s3)) = Some k).
Proof.
  split; [|split; [|split]].
  - intros s. split; [reflexivity|]. apply toggle_direction.
  - intros s. split; [reflexivity|]. apply toggle_direction.
  - intros s Hk. cbv zeta. cbn [V4.handleSort V4.sortConfig].
    destruct (toggle_direction (V4.sortConfig s) k) as [_ H]. rewrite (H Hk).
    unfold same_key_asc. cbn [SortConfig.key SortConfig.direction].
    rewrite String.eqb_refl. cbn [SortConfig.key SortConfig.direction].
    repeat split.
  - intros s4 s3 Hk. apply truthy_iff in Hk.
    unfold SortConfig.active_key. cbn. rewrite Hk. split; reflexivity.
Qed.

Lemma toggle_sort_transition_witness :
  let s0 := V4.initial Fixture.v4Props in
  let s1 := V4.handleSort "name" s0 in
  let s2 := V4.handleSort "name" s1 in
  let s3 := V4.handleSort "name" s2 in
  let s4 := V4.handleSort "age" s3 in
  V4.sortConfig s1 = SortConfig.mk (Some "name") asc /\
  V4.sortConfig s2 = SortConfig.mk (Some "name") desc /\
  V4.sortConfig s3 = SortConfig.mk (Some "name") asc /\
  SortConfig.direction (V4.sortConfig s4) = asc.
Proof.
  cbv zeta.
  destruct (toggle_sort_transition (host := Fixture.host) "name")
    as [_ [_ [Hcycle _]]].
  destruct (Hcycle (V4.initial Fixture.v4Props)) as [H1 [H2 H3]];
    [discriminate|].
  destruct (toggle_sort_transition (host := Fixture.host) "age")
    as [Hage _].
  destruct (Hage (V4.handleSort "name" (V4.handleSort "name"
              (V4.handleSort "name" (V4.initial Fixture.v4Props)))))
    as [_ [_ Hother]].
  split; [exact H1|]. split; [exact H2|]. split; [exact H3|].
  apply Hother. cbn. discriminate.
Defined.

(** ** The pagination slice *)

Lemma clamp_min (x hi : Z) : 1 <= x -> 1 <= hi -> Z.min x hi = clamp x 1 hi.
Proof. unfold clamp. lia. Qed.

Lemma V4_paginatedData_window (rows : list Row.t) (sp ps : Z) :
  1 <= sp -> 1 <= ps ->
  V4.paginatedData rows sp ps = slice rows ((sp - 1) * ps) (sp * ps) /\
  V4.paginatedData rows sp ps =
    firstn (Z.to_nat ps) (skipn (Z.to_nat ((sp - 1) * ps)) rows).
Proof.
  intros Hsp Hps. unfold V4.paginatedData. cbv zeta. split.
  - f_equal. lia.
  - apply slice_window; nia.
Qed.

(** C8.  In a render of v4 with a positive page size and a positive
    stored page: the item count is the length of the sorted rows; the
    number of pages is [max 1 c] for the ceiling [c] of
    [totalItems / pageSize]; the page shown is
    [clamp currentPage 1 totalPages]; the rows shown are the slice
    [(page-1)*pageSize .. page*pageSize] of the sorted rows, that is
    [pageSize] rows after skipping [(page-1)*pageSize]; and for an empty
    row list there is 1 page, the page shown is 1 and no row is shown. *)
Theorem pagination_arithmetic {host : Host} (p : V4.Props) (s : V4.State) :
  1 <= V4.pageSize s -> 1 <= V4.currentPage s ->
  let v := V4.render p s in
  let rows := V4.v_sortedData v in
  let ps := V4.pageSize s in
  let page := V4.v_safePage v in
  V4.v_totalItems v = Z.of_nat (List.length rows) /\
  (exists c, (c - 1) * ps < V4.v_totalItems v <= c * ps /\
             V4.v_totalPages v = Z.max 1 c) /\
  page = clamp (V4.currentPage s) 1 (V4.v_totalPages v) /\
  V4.v_paginatedData v = slice rows ((page - 1) * ps) (page * ps) /\
  V4.v_paginatedData v =
    firstn (Z.to_nat ps) (skipn (Z.to_nat ((page - 1) * ps)) rows) /\
  (rows = [] ->
   V4.v_totalPages v = 1 /\ page = 1 /\ V4.v_paginatedData v = []).
Proof.
  intros Hps Hcp v rows ps page.
  pose proof (V4_render_totalPages_ge_1 p s) as Htp. fold v in Htp.
  assert (Hpage : page = clamp (V4.currentPage s) 1 (V4.v_totalPages v))
    by (apply clamp_min; assumption).
  assert (Hpage1 : 1 <= page) by (rewrite Hpage; unfold clamp; lia).
  split; [reflexivity|]. split.
  { exists (ceil_div (Z.of_nat (List.length rows)) ps). split; [|reflexivity].
    apply ceil_div_bounds. unfold ps. lia. }
  split; [exact Hpage|].
  destruct (V4_paginatedData_window rows page ps Hpage1 Hps) as [Hslice Hwin].
  split; [exact Hslice|]. split; [exact Hwin|].
  intros Hnil.
  assert (Htp1 : V4.v_totalPages v = 1).
  { change (V4.v_totalPages v) with (V4.totalPages rows ps).
    unfold V4.totalPages. rewrite Hnil. cbn [List.length Z.of_nat].
    rewrite ceil_div_zero. reflexivity. }
  split; [exact Htp1|]. split.
  - rewrite Hpage, Htp1. unfold clamp. lia.
  - change (V4.v_paginatedData v) with (V4.paginatedData rows page ps).
    unfold V4.paginatedData. rewrite Hnil. apply slice_nil.
Qed.

Lemma pagination_arithmetic_witness :
  let s := V4.mkState "" (SortConfig.mk None asc) 2 5 in
  let v := V4.render (host := Fixture.host) Fixture.v4Props s in
  V4.v_totalItems v = 12 /\
  (exists c, (c - 1) * 5 < V4.v_totalItems v <= c * 5 /\
             V4.v_totalPages v = Z.max 1 c) /\
  V4.v_safePage v = clamp 2 1 (V4.v_totalPages v).
Proof.
  cbv zeta.
  destruct (pagination_arithmetic (host := Fixture.host) Fixture.v4Props
              (V4.mkState "" (SortConfig.mk None asc) 2 5))
    as (Hitems & Hpages & Hpage & _).
  - vm_compute. discriminate.
  - vm_compute. discriminate.
  - split; [exact Hitems|]. split; [exact Hpages | exact Hpage].
Defined.

(** C9 (as amended).  The page shown is [clamp currentPage 1 totalPages]
    for any positive stored page, in range or not, and it lies in
    [1, totalPages] (v4 and v3).  The render does not write the state: the
    stored page changes only in [step], and there an interaction either
    leaves it as it was, or sets it to 1, or is page navigation.  A filter
    input is one of the interactions that set the stored page to 1: the
    stored page is not kept across a change of the filter. *)
Theorem clamp_on_read {host : Host} :
  (forall p s, 1 <= V4.currentPage s ->
     let v := V4.render p s in
     V4.v_safePage v = clamp (V4.currentPage s) 1 (V4.v_totalPages v) /\
     1 <= V4.v_safePage v <= V4.v_totalPages v) /\
  (forall p s, 1 <= V3.currentPage s ->
     let pg := V3.pagination p s in
     V3.p_currentPage pg = clamp (V3.currentPage s) 1 (V3.p_totalPages pg) /\
     1 <= V3.p_currentPage pg <= V3.p_totalPages pg) /\
  (forall p s e,
     V4.currentPage (V4.step p s e) = V4.currentPage s \/
     V4.currentPage (V4.step p s e) = 1 \/
     V4_is_navigation e = true) /\
  (forall p s e,
     V3.currentPage (V3.step p s e) = V3.currentPage s \/
     V3.currentPage (V3.step p s e) = 1 \/
     V3_is_navigation e = true) /\
  (forall p s q, V4.currentPage (V4.step p s (V4.FilterInput q)) = 1) /\
  (forall p s q, V3.currentPage (V3.step p s (V3.FilterInput q)) = 1).
Proof.
  repeat apply conj; try reflexivity.
  - intros p s Hcp v. subst v.
    pose proof (V4_render_totalPages_ge_1 p s) as Htp.
    rewrite V4_render_safePage. split; [now apply clamp_min | lia].
  - intros p s Hcp pg. subst pg.
    pose proof (V3_pagination_totalPages_ge_1 p s) as Htp.
    rewrite V3_pagination_currentPage. split; [now apply clamp_min | lia].
  - intros p s e. destruct e as [q|size|col|col key| | |pageNum| | ];
      cbn [V4_is_navigation V4.step]; auto.
    + destruct (existsb _ _); auto.
    + destruct (nth_error _ _) as [c|]; auto.
      destruct (Column.is_sortable c); auto.
    + destruct (nth_error _ _) as [c|]; auto.
      destruct (Column.is_sortable c && _)%bool; auto.
  - intros p s e. destruct e as [q| |col|size| | ];
      cbn [V3_is_navigation V3.step]; auto.
    + destruct (V3.p_paginatedData _); auto. destruct (truthy _); auto.
    + destruct (nth_error _ _) as [c|]; auto.
      destruct (Column.is_sortable c); auto.
    + destruct (existsb _ _); auto.
Qed.

Lemma clamp_on_read_witness :
  let s := V4.mkState "" (SortConfig.mk None asc) 7 5 in
  let v := V4.render (host := Fixture.host) Fixture.v4Props s in
  V4.v_safePage v = clamp 7 1 (V4.v_totalPages v) /\
  1 <= V4.v_safePage v <= V4.v_totalPages v.
Proof.
  cbv zeta.
  destruct (@clamp_on_read Fixture.host) as [H4 _].
  apply (H4 Fixture.v4Props (V4.mkState "" (SortConfig.mk None asc) 7 5)).
  vm_compute. discriminate.
Defined.

(** C9 as stated fails: on the last page of the fixture (stored page 3 of
    3) the filter input "Alice" shrinks the number of pages to 1, and the
    stored page does not keep its value 3: the handler writes 1. *)
Lemma stored_page_reset_by_filter_counterexample :
  let s := V4.run (host := Fixture.host) Fixture.v4Props
             (V4.initial Fixture.v4Props) [V4.LastPage] in
  let s' := V4.step (host := Fixture.host) Fixture.v4Props s
              (V4.FilterInput "Alice") in
  V4.v_totalPages (V4.render (host := Fixture.host) Fixture.v4Props s') <
  V4.v_totalPages (V4.render (host := Fixture.host) Fixture.v4Props s) /\
  V4.currentPage s = 3 /\
  V4.currentPage s' <> V4.currentPage s.
Proof. vm_compute. repeat split; discriminate. Qed.

(** ** Sortable gate *)

Lemma is_sortable_true (col : Column.t) :
  Column.is_sortable col = true <-> Column.sortable col = Some true.
Proof.
  unfold Column.is_sortable.
  destruct (Column.sortable col) as [[|]|]; split; congruence.
Qed.

Lemma handleSort_sortable (columns : list Column.t) (i : nat) (col : Column.t)
    (d : SortDirection) :
  nth_error columns i = Some col -> Column.is_sortable col = true ->
  sort_key_is_sortable columns (SortConfig.mk (Some (Column.key col)) d).
Proof.
  intros Hnth Hs. exists col. repeat split.
  - eapply nth_error_In; eassumption.
  - now apply is_sortable_true.
Qed.

Section SortableGate.
Context {host : Host}.

Lemma V4_step_sortable (p : V4.Props) (s : V4.State) (e : V4.Event) :
  sort_key_is_sortable (V4.columns p) (V4.sortConfig s) ->
  sort_key_is_sortable (V4.columns p) (V4.sortConfig (V4.step p s e)).
Proof.
  intros H. destruct e as [q|size|col|col key| | |pageNum| | ];
    cbn [V4.step]; try exact H.
  - destruct (existsb _ _); exact H.
  - destruct (nth_error _ _) as [c|] eqn:Hn; [|exact H].
    destruct (Column.is_sortable c) eqn:Hs; [|exact H].
    eapply handleSort_sortable; eassumption.
  - destruct (nth_error _ _) as [c|] eqn:Hn; [|exact H].
    destruct (Column.is_sortable c) eqn:Hs; [|exact H].
    destruct (_ || _)%bool; [|exact H].
    eapply handleSort_sortable; eassumption.
  - destruct (_ =? _); exact H.
  - destruct (_ =? _); exact H.
  - destruct (existsb _ _); exact H.
  - destruct (_ =? _); exact H.
  - destruct (_ =? _); exact H.
Qed.

Lemma V4_run_sortable (p : V4.Props) (es : list V4.Event) (s : V4.State) :
  sort_key_is_sortable (V4.columns p) (V4.sortConfig s) ->
  sort_key_is_sortable (V4.columns p) (V4.sortConfig (V4.run p s es)).
Proof.
  revert s. induction es as [|e es IH]; intros s Hs; [exact Hs|].
  apply IH. now apply V4_step_sortable.
Qed.

Lemma V3_step_sortable (p : V3.Props) (s : V3.State) (e : V3.Event) :
  sort_key_is_sortable (V3.columns p) (V3.sortConfig s) ->
  sort_key_is_sortable (V3.columns p) (V3.sortConfig (V3.step p s e)).
Proof.
  intros H. destruct e as [q| |col|size| | ]; cbn [V3.step]; try exact H.
  - destruct (V3.p_paginatedData _); [|exact H]. destruct (truthy _); exact H.
  - destruct (nth_error _ _) as [c|] eqn:Hn; [|exact H].
    destruct (Column.is_sortable c) eqn:Hs; [|exact H].
    eapply handleSort_sortable; eassumption.
  - destruct (existsb _ _); exact H.
  - destruct (V3.p_hasPreviousPage _); exact H.
  - destruct (V3.p_hasNextPage _); exact H.
Qed.

Lemma V3_run_sortable (p : V3.Props) (es : list V3.Event) (s : V3.State) :
  sort_key_is_sortable (V3.columns p) (V3.sortConfig s) ->
  sort_key_is_sortable (V3.columns p) (V3.sortConfig (V3.run p s es)).
Proof.
  revert s. induction es as [|e es IH]; intros s Hs; [exact Hs|].
  apply IH. now apply V3_step_sortable.
Qed.

End SortableGate.

Lemma sortable_key_excluded (columns : list Column.t) (cfg : SortConfig.t)
    (k : string) :
  sort_key_is_sortable columns cfg ->
  (forall col, In col columns -> Column.key col = k ->
               Column.sortable col <> Some true) ->
  SortConfig.key cfg <> Some k.
Proof.
  unfold sort_key_is_sortable. intros H Hno Hk. rewrite Hk in H.
  destruct H as (col & Hin & Hs & Hkey). exact (Hno col Hin Hkey Hs).
Qed.

(** C10.  Starting from the initial sort state (no key, ascending), after
    any sequence of interactions with v4 or v3 the sort key is either
    absent or the key of a column of the table whose [sortable] flag is
    [true]; so a key all of whose columns have [sortable] false or absent
    is never the sort key. *)
Theorem sort_key_names_sortable_column {host : Host}
    (p4 : V4.Props) (es4 : list V4.Event)
    (p3 : V3.Props) (es3 : list V3.Event) :
  let cfg4 := V4.sortConfig (V4.run p4 (V4.initial p4) es4) in
  let cfg3 := V3.sortConfig (V3.run p3 (V3.initial p3) es3) in
  sort_key_is_sortable (V4.columns p4) cfg4 /\
  sort_key_is_sortable (V3.columns p3) cfg3 /\
  (forall k,
     (forall col, In col (V4.columns p4) -> Column.key col = k ->
                  Column.sortable col <> Some true) ->
     SortConfig.key cfg4 <> Some k) /\
  (forall k,
     (forall col, In col (V3.columns p3) -> Column.key col = k ->
                  Column.sortable col <> Some true) ->
     SortConfig.key cfg3 <> Some k).
Proof.
  intros cfg4 cfg3.
  assert (H4 : sort_key_is_sortable (V4.columns p4) cfg4)
    by (apply V4_run_sortable; exact I).
  assert (H3 : sort_key_is_sortable (V3.columns p3) cfg3)
    by (apply V3_run_sortable; exact I).
  split; [exact H4|]. split; [exact H3|]. split.
  - intros k Hno. now apply (sortable_key_excluded (V4.columns p4)).
  - intros k Hno. now apply (sortable_key_excluded (V3.columns p3)).
Qed.

Lemma sort_key_names_sortable_column_witness :
  SortConfig.key
    (V4.sortConfig
       (V4.run (host := Fixture.host) Fixture.v4PropsWithoutSort
          (V4.initial Fixture.v4PropsWithoutSort)
          [V4.HeaderClick 0; V4.HeaderKeyDown 0 "Enter"; V4.HeaderClick 1]))
    <> Some "name" /\
  SortConfig.key
    (V3.sortConfig
       (V3.run (host := Fixture.host) Fixture.v3PropsWithoutSort
          (V3.initial Fixture.v3PropsWithoutSort)
          [V3.SortButton 0; V3.SortButton 1]))
    <> Some "name".
Proof.
  destruct (sort_key_names_sortable_column (host := Fixture.host)
              Fixture.v4PropsWithoutSort
              [V4.HeaderClick 0; V4.HeaderKeyDown 0 "Enter"; V4.HeaderClick 1]
              Fixture.v3PropsWithoutSort
              [V3.SortButton 0; V3.SortButton 1])
    as (_ & _ & H4 & H3).
  split.
  - apply H4. intros col [<-|[<-|[]]] Hkey; [discriminate | discriminate Hkey].
  - apply H3. intros col [<-|[<-|[]]] Hkey; [discriminate | discriminate Hkey].
Defined.

(** ** Worked examples on the fixtures *)

(** The v2 test "stable sort preserves order of equal elements": sorting
    rows that share the department leaves them as they were, in the three
    versions and both directions. *)
Example equal_departments_keep_order :
  let up := SortConfig.mk (Some "department") asc in
  let down := SortConfig.mk (Some "department") desc in
  let rows := Fixture.dataWithDupes in
  V2.sortData (host := Fixture.host) up rows = rows /\
  V2.sortData (host := Fixture.host) down rows = rows /\
  V3.sortedData (host := Fixture.host) rows down = rows /\
  V4.sortedData (host := Fixture.host) rows down = rows.
Proof. vm_compute. repeat split. Qed.

(** The v4 test "sorts numbers correctly": by age, youngest first. *)
Example sorted_by_age :
  map (fun r => Row.get r "age")
    (V4.sortedData (host := Fixture.host) Fixture.testData
       (SortConfig.mk (Some "age") asc))
  = map VNumber [24; 25; 26; 27; 28; 29; 30; 31; 32; 33; 34; 35].
Proof. vm_compute. reflexivity. Qed.

(** A column that holds both [null] and [undefined]: the comparator
    answers "after" for [null] against [undefined] and for [undefined]
    against [null], so it is not consistent and the order is the
    engine's.  On the sample engine the rows without a department stay at
    the end in both directions, [null] before [undefined] as in the
    input. *)
Example null_departments_stay_last :
  let names := map (fun r => Row.get r "name") in
  consistent_onb (V4.compare (host := Fixture.host) "department" asc)
    Fixture.dataWithNulls = false /\
  names (V4.sortedData (host := Fixture.host) Fixture.dataWithNulls
           (SortConfig.mk (Some "department") asc))
    = [VString "Dee"; VString "Ben"; VString "Ann"; VString "Cal"] /\
  names (V4.sortedData (host := Fixture.host) Fixture.dataWithNulls
           (SortConfig.mk (Some "department") desc))
    = [VString "Ben"; VString "Dee"; VString "Ann"; VString "Cal"] /\
  names (V2.sortData (host := Fixture.host)
           (SortConfig.mk (Some "department") asc) Fixture.dataWithNulls)
    = [VString "Dee"; VString "Ben"; VString "Ann"; VString "Cal"].
Proof. vm_compute. repeat split. Qed.

(** The guard [!sortConfig.key] treats the empty property name like
    [null]: no sort happens. *)
Example empty_key_is_not_sorted :
  V4.sortedData (host := Fixture.host) Fixture.dataWithNulls
    (SortConfig.mk (Some "") desc) = Fixture.dataWithNulls.
Proof. reflexivity. Qed.

(** v2 gates a header on [sortable !== false], v3 and v4 on a truthy
    [sortable]: a column without the flag can become the sort key in v2
    only. *)
Example sortable_flag_absent :
  let name := Column.mk "name" "Name" None in
  Column.is_sortable name = false /\
  SortConfig.key (V2.headerClick name (SortConfig.mk None asc)) = Some "name" /\
  V4.sortConfig
    (V4.step (host := Fixture.host) Fixture.v4PropsWithoutSort
       (V4.initial Fixture.v4PropsWithoutSort) (V4.HeaderClick 0))
    = SortConfig.mk None asc /\
  V3.sortConfig
    (V3.step (host := Fixture.host) Fixture.v3PropsWithoutSort
       (V3.initial Fixture.v3PropsWithoutSort) (V3.SortButton 0))
    = SortConfig.mk None asc.
Proof. vm_compute. repeat split. Qed.

(** Where the clamp of the render matters: the parent passes a shorter
    [data] array while the stored page is 3; the table shows page 1 of 1
    and the state cell still holds 3. *)
Example clamp_after_data_shrink :
  let s := V4.run (host := Fixture.host) Fixture.v4Props
             (V4.initial Fixture.v4Props) [V4.LastPage] in
  let shorter :=
    V4.mkProps [Fixture.person 1 "Alice" 30 "New York"]
      Fixture.testColumns [5; 10; 20] 5 in
  let v := V4.render (host := Fixture.host) shorter s in
  V4.currentPage s = 3 /\ V4.v_totalPages v = 1 /\ V4.v_safePage v = 1 /\
  V4.v_paginatedData v = [Fixture.person 1 "Alice" 30 "New York"].
Proof. vm_compute. repeat split. Qed.

(* ================================================================== *)
(** * Part IV. Further properties of the code *)
(* ================================================================== *)

(** ** Filter stage *)

Lemma subsequence_refl {A : Type} (l : list A) : subsequence l l.
Proof. induction l; constructor; assumption. Qed.

Lemma subsequence_filter {A : Type} (f : A -> bool) (l : list A) :
  subsequence (filter f l) l.
Proof.
  induction l as [|x l IH]; simpl; [constructor|].
  destruct (f x); constructor; exact IH.
Qed.

Lemma subsequence_In {A : Type} (l1 l2 : list A) (x : A) :
  subsequence l1 l2 -> In x l1 -> In x l2.
Proof.
  induction 1 as [|y l1 l2 _ IH|y l1 l2 _ IH]; simpl; intuition.
Qed.

Lemma subsequence_length {A : Type} (l1 l2 : list A) :
  subsequence l1 l2 -> (List.length l1 <= List.length l2)%nat.
Proof. induction 1; simpl; lia. Qed.

Lemma filter_twice {A : Type} (f g : A -> bool) (l : list A) :
  (forall x, In x l -> g x = true -> f x = true) ->
  filter g (filter f l) = filter g l.
Proof.
  induction l as [|x l IH]; intros H; simpl; [reflexivity|].
  rewrite <- IH by (intros y Hy; apply H; now right).
  destruct (f x) eqn:Hf; simpl; [reflexivity|].
  destruct (g x) eqn:Hg; [|reflexivity].
  rewrite (H x (or_introl eq_refl) Hg) in Hf. discriminate.
Qed.

(** X1.  In the three versions the filter only leaves rows out: its output
    is the input with some rows removed and the others in their order,
    and filtering the output again with the same columns and query changes
    nothing. *)
Theorem filter_subsequence_idempotent (data : list Row.t)
    (columns : list Column.t) (q : string) :
  (subsequence (V4.filteredData data columns q) data /\
   V4.filteredData (V4.filteredData data columns q) columns q
     = V4.filteredData data columns q) /\
  (subsequence (V3.filteredData data columns q) data /\
   V3.filteredData (V3.filteredData data columns q) columns q
     = V3.filteredData data columns q) /\
  (subsequence (V2.filterData columns q data) data /\
   V2.filterData columns q (V2.filterData columns q data)
     = V2.filterData columns q data).
Proof.
  destruct (string_dec (trim q) "") as [Hq|Hq].
  - rewrite !V4_filteredData_blank, !V3_filteredData_blank,
      !V2_filterData_blank by exact Hq.
    repeat split; apply subsequence_refl.
  - repeat apply conj.
    + rewrite V4_filteredData_eq by exact Hq. apply subsequence_filter.
    + rewrite !V4_filteredData_eq by exact Hq. now apply filter_twice.
    + rewrite V3_filteredData_eq by exact Hq. apply subsequence_filter.
    + rewrite !V3_filteredData_eq by exact Hq. now apply filter_twice.
    + rewrite V2_filterData_eq by exact Hq. apply subsequence_filter.
    + rewrite !V2_filterData_eq by exact Hq. now apply filter_twice.
Qed.

Lemma trim_blank_fold (q : string) : trim q = "" <-> trim (toLowerCase q) = "".
Proof.
  rewrite <- toLowerCase_trim. symmetry. apply toLowerCase_empty.
Qed.

(** X2.  The filter ignores the case of the query, and in v4 and v2 also
    the white space around it: two queries with the same case-folded,
    trimmed form select the same rows in v4 and v2, and two queries with
    the same case-folded form select the same rows in v3. *)
Theorem filter_ignores_case_and_padding (data : list Row.t)
    (columns : list Column.t) (q1 q2 : string) :
  (trim (toLowerCase q1) = trim (toLowerCase q2) ->
   V4.filteredData data columns q1 = V4.filteredData data columns q2 /\
   V2.filterData columns q1 data = V2.filterData columns q2 data) /\
  (toLowerCase q1 = toLowerCase q2 ->
   V3.filteredData data columns q1 = V3.filteredData data columns q2).
Proof.
  split.
  - intros H.
    destruct (string_dec (trim q1) "") as [H1|H1].
    + assert (H2 : trim q2 = "")
        by (apply (proj2 (trim_blank_fold q2)); rewrite <- H;
            exact (proj1 (trim_blank_fold q1) H1)).
      now rewrite !V4_filteredData_blank, !V2_filterData_blank.
    + assert (H2 : trim q2 <> "").
      { intros E. apply H1. apply (proj2 (trim_blank_fold q1)). rewrite H.
        exact (proj1 (trim_blank_fold q2) E). }
      rewrite !V4_filteredData_eq, !V2_filterData_eq by assumption.
      now rewrite H.
  - intros H.
    destruct (string_dec (trim q1) "") as [H1|H1].
    + assert (H2 : trim q2 = "")
        by (apply (proj2 (trim_blank_fold q2)); rewrite <- H;
            exact (proj1 (trim_blank_fold q1) H1)).
      now rewrite !V3_filteredData_blank.
    + assert (H2 : trim q2 <> "").
      { intros E. apply H1. apply (proj2 (trim_blank_fold q1)). rewrite H.
        exact (proj1 (trim_blank_fold q2) E). }
      rewrite !V3_filteredData_eq by assumption. now rewrite H.
Qed.

Lemma filter_ignores_case_and_padding_witness :
  V4.filteredData Fixture.testData Fixture.testColumns "  NEW york "
    = V4.filteredData Fixture.testData Fixture.testColumns "new York" /\
  V3.filteredData Fixture.testData Fixture.testColumns "NEW york"
    = V3.filteredData Fixture.testData Fixture.testColumns "new York".
Proof.
  split.
  - destruct (filter_ignores_case_and_padding Fixture.testData
                Fixture.testColumns "  NEW york " "new York") as [H _].
    destruct H as [H4 _]; [vm_compute; reflexivity | exact H4].
  - destruct (filter_ignores_case_and_padding Fixture.testData
                Fixture.testColumns "NEW york" "new York") as [_ H].
    apply H. vm_compute. reflexivity.
Defined.

Lemma append_assoc_string (a b c : string) :
  String.append (String.append a b) c = String.append a (String.append b c).
Proof. induction a as [|x a IH]; simpl; [reflexivity | now rewrite IH]. Qed.

(** A string that contains [t] contains every substring of [t]. *)
Lemma includes_trans (s t u : string) :
  includes s t = true -> includes t u = true -> includes s u = true.
Proof.
  rewrite !includes_iff. intros (a & b & ->) (c & d & ->).
  exists (String.append a c), (String.append d b).
  now rewrite !append_assoc_string.
Qed.

Lemma includes_empty_needle (u : string) : includes "" u = true -> u = "".
Proof.
  rewrite includes_iff. intros ([|x a] & b & H); simpl in H; [|discriminate].
  destruct u; [reflexivity | discriminate].
Qed.

(** X3.  Refining a query narrows the result: when the needle of [q2]
    contains the needle of [q1] and [q2] is not blank, filtering the rows
    kept by [q1] with [q2] gives exactly the rows that [q2] keeps of the
    whole input; so every row kept by [q2] is kept by [q1].  The needle is
    the case-folded, trimmed query in v4 and v2 and the case-folded query
    in v3. *)
Theorem filter_refines (data : list Row.t) (columns : list Column.t)
    (q1 q2 : string) :
  trim q2 <> "" ->
  (includes (needle_trimmed q2) (needle_trimmed q1) = true ->
   V4.filteredData (V4.filteredData data columns q1) columns q2
     = V4.filteredData data columns q2 /\
   V2.filterData columns q2 (V2.filterData columns q1 data)
     = V2.filterData columns q2 data) /\
  (includes (toLowerCase q2) (toLowerCase q1) = true ->
   V3.filteredData (V3.filteredData data columns q1) columns q2
     = V3.filteredData data columns q2).
Proof.
  intros H2. unfold needle_trimmed. split; intros Hinc.
  - destruct (string_dec (trim q1) "") as [H1|H1].
    + now rewrite (V4_filteredData_blank data columns q1 H1),
        (V2_filterData_blank data columns q1 H1).
    + split.
      * rewrite (V4_filteredData_eq data columns q1) by exact H1.
        rewrite !(V4_filteredData_eq _ columns q2) by exact H2.
        apply filter_twice. intros r _ Hr.
        apply existsb_exists in Hr. destruct Hr as [col [Hc Hm]].
        apply existsb_exists. exists col. split; [exact Hc|].
        unfold field_contains in *. eapply includes_trans; eassumption.
      * rewrite (V2_filterData_eq data columns q1) by exact H1.
        rewrite !(V2_filterData_eq _ columns q2) by exact H2.
        apply filter_twice. intros r _ Hr.
        apply existsb_exists in Hr. destruct Hr as [col [Hc Hm]].
        apply existsb_exists. exists col. split; [exact Hc|].
        apply andb_true_iff in Hm. destruct Hm as [Hd Hm].
        apply andb_true_iff. split; [exact Hd|].
        unfold field_contains in *. eapply includes_trans; eassumption.
  - destruct (string_dec (trim q1) "") as [H1|H1].
    + now rewrite (V3_filteredData_blank data columns q1 H1).
    + rewrite (V3_filteredData_eq data columns q1) by exact H1.
      rewrite !(V3_filteredData_eq _ columns q2) by exact H2.
      apply filter_twice. intros r _ Hr.
      apply existsb_exists in Hr. destruct Hr as [col [Hc Hm]].
      apply existsb_exists. exists col. split; [exact Hc|].
      apply andb_true_iff in Hm. destruct Hm as [Hd Hm].
      apply andb_true_iff. split; [exact Hd|].
      unfold field_contains in *. eapply includes_trans; eassumption.
Qed.

Lemma filter_refines_witness :
  V4.filteredData (V4.filteredData Fixture.testData Fixture.testColumns "san ")
    Fixture.testColumns "San D"
  = V4.filteredData Fixture.testData Fixture.testColumns "San D" /\
  V3.filteredData (V3.filteredData Fixture.testData Fixture.testColumns "san")
    Fixture.testColumns "San D"
  = V3.filteredData Fixture.testData Fixture.testColumns "San D".
Proof.
  split.
  - destruct (filter_refines Fixture.testData Fixture.testColumns
                "san " "San D") as [H _]; [vm_compute; discriminate|].
    destruct H as [H4 _]; [vm_compute; reflexivity | exact H4].
  - destruct (filter_refines Fixture.testData Fixture.testColumns
                "san" "San D") as [_ H]; [vm_compute; discriminate|].
    apply H. vm_compute. reflexivity.
Defined.

(** ** Pages *)

Lemma page_of_window (rows : list Row.t) (ps page : Z) :
  0 <= ps -> 1 <= page ->
  page_of rows ps page =
  firstn (Z.to_nat ps) (skipn (Z.to_nat ((page - 1) * ps)) rows).
Proof. intros Hps Hpage. unfold page_of. apply slice_window; nia. Qed.

(** The arithmetic shared by the three [usePagination] variants: a page in
    range starts inside the rows and holds [min pageSize (rest)] rows. *)
Lemma page_in_range (rows : list Row.t) (ps page : Z) :
  1 <= ps ->
  1 <= page <= Z.max 1 (ceil_div (Z.of_nat (List.length rows)) ps) ->
  let n := Z.of_nat (List.length rows) in
  let k := (page - 1) * ps in
  0 <= k <= n /\ (0 < n -> k < n) /\
  Z.of_nat (List.length (page_of rows ps page)) = Z.min ps (n - k).
Proof.
  intros Hps Hpage n k.
  pose proof (ceil_div_bounds n ps ltac:(lia)) as Hc.
  assert (Hk : 0 <= k <= n /\ (0 < n -> k < n)) by (subst k n; nia).
  split; [tauto|]. split; [tauto|].
  rewrite page_of_window by lia.
  rewrite length_firstn, length_skipn. fold k. subst n. lia.
Qed.

Lemma firstn_add {A : Type} (a b : nat) (l : list A) :
  firstn a l ++ firstn b (skipn a l) = firstn (a + b) l.
Proof.
  revert l; induction a as [|a IH]; intros l; [reflexivity|].
  destruct l as [|x l]; simpl.
  - now rewrite firstn_nil.
  - now rewrite IH.
Qed.

Lemma for_range_snoc (k : nat) :
  for_range 1 (Z.of_nat (S k)) = for_range 1 (Z.of_nat k) ++ [Z.of_nat (S k)].
Proof.
  unfold for_range.
  replace (Z.to_nat (Z.of_nat (S k) - 1 + 1)) with (S k) by lia.
  replace (Z.to_nat (Z.of_nat k - 1 + 1)) with k by lia.
  rewrite seq_S, map_app. cbn [map Nat.add]. f_equal. f_equal. lia.
Qed.

Lemma concat_pages (rows : list Row.t) (ps : Z) (k : nat) :
  0 <= ps ->
  List.concat (map (page_of rows ps) (for_range 1 (Z.of_nat k)))
  = firstn (k * Z.to_nat ps) rows.
Proof.
  intros Hps. induction k as [|k IH]; [reflexivity|].
  rewrite for_range_snoc, map_app, concat_app, IH. cbn [List.concat map].
  rewrite app_nil_r, page_of_window by lia.
  replace (Z.to_nat ((Z.of_nat (S k) - 1) * ps)) with (k * Z.to_nat ps)%nat
    by nia.
  rewrite firstn_add. f_equal. lia.
Qed.

Lemma pages_cover (rows : list Row.t) (ps : Z) :
  1 <= ps ->
  List.concat (map (page_of rows ps)
            (for_range 1 (Z.max 1 (ceil_div (Z.of_nat (List.length rows)) ps))))
  = rows.
Proof.
  intros Hps.
  pose proof (ceil_div_bounds (Z.of_nat (List.length rows)) ps ltac:(lia)) as Hc.
  set (tp := Z.max 1 _) in *.
  rewrite <- (Z2Nat.id tp) by lia.
  rewrite concat_pages by lia. apply firstn_all2. subst tp. nia.
Qed.

(** X4.  The pages partition the rows: for a positive page size, the pages
    1, 2, ..., totalPages put one after the other are exactly the rows, in
    order (every row is on one page and no row is lost between two
    pages).  The same slice is taken by [paginatedData] of v4 and v3 and by
    [paginateData] of v2. *)
Theorem pages_partition_rows (rows : list Row.t) (ps : Z) :
  1 <= ps ->
  List.concat (map (fun page => V4.paginatedData rows page ps)
            (for_range 1 (V4.totalPages rows ps))) = rows /\
  List.concat (map (fun page => V3.paginatedData rows page ps)
            (for_range 1 (V3.totalPages rows ps))) = rows /\
  List.concat (map (fun page => V2Table.paginateData page ps rows)
            (for_range 1
               (V2Table.totalPages (Z.of_nat (List.length rows)) ps))) = rows.
Proof.
  intros Hps. repeat split; apply (pages_cover rows ps Hps).
Qed.

Lemma pages_partition_rows_witness :
  List.concat (map (fun page => V4.paginatedData Fixture.testData page 5)
            (for_range 1 (V4.totalPages Fixture.testData 5)))
  = Fixture.testData.
Proof.
  destruct (pages_partition_rows Fixture.testData 5) as [H _];
    [vm_compute; discriminate | exact H].
Defined.

(** X5.  Page lengths: for a positive page size and a page between 1 and
    totalPages, the page holds [min pageSize (n - (page-1)*pageSize)] rows;
    every page before the last is full, and when there is at least one row
    no page in range is empty. *)
Theorem page_lengths (rows : list Row.t) (ps page : Z) :
  1 <= ps -> 1 <= page <= V4.totalPages rows ps ->
  let n := Z.of_nat (List.length rows) in
  let len := Z.of_nat (List.length (V4.paginatedData rows page ps)) in
  len = Z.min ps (n - (page - 1) * ps) /\
  (page < V4.totalPages rows ps -> len = ps) /\
  (0 < n -> 1 <= len <= ps) /\
  V3.paginatedData rows page ps = V4.paginatedData rows page ps /\
  V2Table.paginateData page ps rows = V4.paginatedData rows page ps.
Proof.
  intros Hps Hpage. cbv zeta.
  change (V4.paginatedData rows page ps) with (page_of rows ps page).
  destruct (page_in_range rows ps page Hps Hpage) as (Hk & Hlt & Hlen).
  cbv zeta in Hk, Hlt, Hlen.
  pose proof (ceil_div_bounds (Z.of_nat (List.length rows)) ps ltac:(lia))
    as Hc.
  unfold V4.totalPages in *.
  split; [exact Hlen|]. split; [intros Hnotlast; nia|].
  split; [intros Hn; specialize (Hlt Hn); lia|].
  split; reflexivity.
Qed.

Lemma page_lengths_witness :
  Z.of_nat (List.length (V4.paginatedData Fixture.testData 3 5)) = 2 /\
  Z.of_nat (List.length (V4.paginatedData Fixture.testData 2 5)) = 5.
Proof.
  split.
  - destruct (page_lengths Fixture.testData 5 3) as [H _];
      [vm_compute; discriminate | vm_compute; split; discriminate |].
    exact H.
  - destruct (page_lengths Fixture.testData 5 2) as [_ [H _]];
      [vm_compute; discriminate | vm_compute; split; discriminate |].
    apply H. vm_compute. reflexivity.
Defined.

Lemma shows_range_page (rows : list Row.t) (ps cp : Z) :
  1 <= ps -> 1 <= cp ->
  let n := Z.of_nat (List.length rows) in
  let sp := Z.min cp (Z.max 1 (ceil_div n ps)) in
  shows_range rows (page_of rows ps sp)
    (match rows with [] => 0 | _ :: _ => (sp - 1) * ps + 1 end)
    (Z.min (sp * ps) n).
Proof.
  intros Hps Hcp n sp.
  assert (Hsp : 1 <= sp <= Z.max 1 (ceil_div n ps)) by (subst sp; lia).
  destruct (page_in_range rows ps sp Hps Hsp) as (Hk & Hlt & Hlen).
  cbv zeta in Hk, Hlt, Hlen. fold n in Hk, Hlt, Hlen.
  split.
  - intros ->. simpl in n. subst n.
    split; [reflexivity|]. split; [lia|]. apply slice_nil.
  - intros Hne. assert (Hn : 0 < n).
    { subst n. destruct rows; [congruence | simpl; lia]. }
    specialize (Hlt Hn).
    destruct rows as [|r rows']; [congruence|].
    set (rows := r :: rows') in *.
    split; [nia|]. split; [lia|]. split; [nia|].
    rewrite page_of_window by lia.
    replace (Z.to_nat ((sp - 1) * ps + 1 - 1)) with (Z.to_nat ((sp - 1) * ps))
      by (f_equal; lia).
    set (rest := skipn (Z.to_nat ((sp - 1) * ps)) rows).
    assert (Hrest : Z.of_nat (List.length rest) = n - (sp - 1) * ps)
      by (subst rest n; rewrite length_skipn; lia).
    destruct (Z.le_gt_cases ps (n - (sp - 1) * ps)) as [Hfull|Hshort].
    + f_equal. lia.
    + rewrite !firstn_all2 by lia. reflexivity.
Qed.

(** X6.  The footer tells the truth about the rows on screen: in v4
    ("Showing startIndex to endIndex of n entries") and in v3 ("Showing
    startItem-endItem of n"), for a positive page size and a positive
    stored page, the rows shown are exactly the sorted rows at the 1-based
    positions first..last, [last - first + 1] of them, with
    [1 <= first <= last <= n]; for an empty table both numbers are 0 and
    nothing is shown. *)
Theorem footer_matches_rows {host : Host}
    (p4 : V4.Props) (s4 : V4.State) (p3 : V3.Props) (s3 : V3.State) :
  1 <= V4.pageSize s4 -> 1 <= V4.currentPage s4 ->
  1 <= V3.pageSize s3 -> 1 <= V3.currentPage s3 ->
  (let v := V4.render p4 s4 in
   shows_range (V4.v_sortedData v) (V4.v_paginatedData v)
     (V4.v_startIndex v) (V4.v_endIndex v)) /\
  (let pg := V3.pagination p3 s3 in
   let sorted :=
     V3.sortedData
       (V3.filteredData (V3.data p3) (V3.columns p3) (V3.filterText s3))
       (V3.sortConfig s3) in
   shows_range sorted (V3.p_paginatedData pg)
     (V3Footer.startItem pg) (V3Footer.endItem pg)).
Proof.
  intros Hps4 Hcp4 Hps3 Hcp3. split; cbv zeta.
  - unfold V4.render.
    cbn [V4.v_paginatedData V4.v_startIndex V4.v_endIndex V4.v_sortedData].
    set (rows := V4.sortedData _ _).
    pose proof (shows_range_page rows (V4.pageSize s4) (V4.currentPage s4)
                  Hps4 Hcp4) as H.
    cbv zeta in H.
    destruct rows as [|r rows']; exact H.
  - unfold V3Footer.startItem, V3Footer.endItem, V3.pagination,
      V3.usePagination.
    cbn [V3.p_paginatedData V3.p_currentPage V3.p_pageSize V3.p_totalItems].
    set (rows := V3.sortedData _ _).
    pose proof (shows_range_page rows (V3.pageSize s3) (V3.currentPage s3)
                  Hps3 Hcp3) as H.
    cbv zeta in H.
    change (V3.paginatedData rows
              (V3.safePage (V3.currentPage s3)
                 (V3.totalPages rows (V3.pageSize s3)))
              (V3.pageSize s3))
      with (page_of rows (V3.pageSize s3)
              (Z.min (V3.currentPage s3)
                 (Z.max 1 (ceil_div (Z.of_nat (List.length rows))
                             (V3.pageSize s3))))).
    unfold V3.safePage, V3.totalPages.
    set (sp := Z.min (V3.currentPage s3) _) in *.
    set (shown := page_of rows (V3.pageSize s3) sp) in *.
    set (first := (sp - 1) * V3.pageSize s3 + 1) in *.
    set (last := Z.min (sp * V3.pageSize s3) _) in *.
    assert (Hfirst :
      match shown with [] => 0 | _ :: _ => first end =
      match rows with [] => 0 | _ :: _ => first end).
    { clearbody first last shown. destruct H as [Hempty Hsome].
      destruct rows as [|r rows'].
      - destruct (Hempty eq_refl) as (_ & _ & ->). reflexivity.
      - assert (Hne : r :: rows' <> []) by discriminate.
        destruct (Hsome Hne) as (Hfirst & _ & Hlen & _).
        destruct shown; [simpl in Hlen; lia | reflexivity]. }
    rewrite Hfirst. exact H.
Qed.

Lemma footer_matches_rows_witness :
  let v := V4.render (host := Fixture.host) Fixture.v4Props
             (V4.mkState "" (SortConfig.mk None asc) 3 5) in
  shows_range (V4.v_sortedData v) (V4.v_paginatedData v)
    (V4.v_startIndex v) (V4.v_endIndex v).
Proof.
  destruct (footer_matches_rows (host := Fixture.host)
              Fixture.v4Props (V4.mkState "" (SortConfig.mk None asc) 3 5)
              Fixture.v3Props (V3.mkState "" (SortConfig.mk None asc) 1 5))
    as [H _]; try (vm_compute; discriminate).
  exact H.
Defined.

(** ** Page navigation *)

Lemma V4_state_eta (s : V4.State) :
  s = V4.mkState (V4.filterText s) (V4.sortConfig s) (V4.currentPage s)
        (V4.pageSize s).
Proof. destruct s; reflexivity. Qed.

Lemma V3_state_eta (s : V3.State) :
  s = V3.mkState (V3.filterText s) (V3.sortConfig s) (V3.currentPage s)
        (V3.pageSize s).
Proof. destruct s; reflexivity. Qed.

Lemma V4_setCurrentPage_back (s : V4.State) (f g : Z -> Z) :
  f (g (V4.currentPage s)) = V4.currentPage s ->
  V4.setCurrentPage f (V4.setCurrentPage g s) = s.
Proof.
  destruct s as [ft sc cp ps]. unfold V4.setCurrentPage. simpl.
  intros ->. reflexivity.
Qed.

(** X7.  Navigation in v4, in a state whose stored page is in range (every
    reachable state, see [V4_run_ok]): "next" followed by "previous" and
    "previous" followed by "next" come back to the same state whenever the
    first button is enabled; "first" shows page 1 and "last" shows the last
    page; a numbered button shows its page; on the last page "next" and
    "last" change nothing, on page 1 "previous" and "first" change
    nothing. *)
Theorem V4_navigation {host : Host} (p : V4.Props) (s : V4.State) :
  V4_state_ok p s ->
  let v := V4.render p s in
  (V4.v_safePage v < V4.v_totalPages v ->
   V4.step p (V4.step p s V4.NextPage) V4.PreviousPage = s /\
   V4.v_safePage (V4.render p (V4.step p s V4.NextPage))
     = V4.v_safePage v + 1) /\
  (1 < V4.v_safePage v ->
   V4.step p (V4.step p s V4.PreviousPage) V4.NextPage = s /\
   V4.v_safePage (V4.render p (V4.step p s V4.PreviousPage))
     = V4.v_safePage v - 1) /\
  V4.v_safePage (V4.render p (V4.step p s V4.FirstPage)) = 1 /\
  V4.v_safePage (V4.render p (V4.step p s V4.LastPage)) = V4.v_totalPages v /\
  (forall n, In n (V4.getPageNumbers (V4.v_totalPages v) (V4.v_safePage v)) ->
     V4.v_safePage (V4.render p (V4.step p s (V4.PageButton n))) = n) /\
  (V4.v_safePage v = V4.v_totalPages v ->
   V4.step p s V4.NextPage = s /\ V4.step p s V4.LastPage = s) /\
  (V4.v_safePage v = 1 ->
   V4.step p s V4.PreviousPage = s /\ V4.step p s V4.FirstPage = s).
Proof.
  intros [Hps Hcp] v. fold v in Hcp.
  assert (Hsp : V4.v_safePage v = V4.currentPage s)
    by (unfold v at 1; rewrite V4_render_safePage; fold v; lia).
  assert (Htp : forall f,
            V4.v_totalPages (V4.render p (V4.setCurrentPage f s))
            = V4.v_totalPages v) by reflexivity.
  assert (Hsafe : forall f,
            V4.v_safePage (V4.render p (V4.setCurrentPage f s))
            = Z.min (f (V4.currentPage s)) (V4.v_totalPages v))
    by reflexivity.
  repeat apply conj.
  - intros Hlt.
    assert (Hnext : V4.step p s V4.NextPage
                    = V4.setCurrentPage (fun _ => V4.currentPage s + 1) s).
    { cbn [V4.step]. fold v. destruct (Z.eqb_spec (V4.v_safePage v)
        (V4.v_totalPages v)) as [E|_]; [lia|].
      unfold V4.setCurrentPage. f_equal. fold v. lia. }
    rewrite Hnext. split; [|rewrite Hsafe; lia].
    cbn [V4.step]. rewrite ?Hsafe, ?Htp.
    destruct (Z.eqb_spec (Z.min (V4.currentPage s + 1) (V4.v_totalPages v)) 1)
      as [E|_]; [lia|].
    apply V4_setCurrentPage_back. lia.
  - intros Hgt.
    assert (Hprev : V4.step p s V4.PreviousPage
                    = V4.setCurrentPage (fun _ => V4.currentPage s - 1) s).
    { cbn [V4.step]. fold v. destruct (Z.eqb_spec (V4.v_safePage v) 1)
        as [E|_]; [lia|].
      unfold V4.setCurrentPage. f_equal. lia. }
    rewrite Hprev. split; [|rewrite Hsafe; lia].
    cbn [V4.step]. rewrite ?Hsafe, ?Htp.
    destruct (Z.eqb_spec (Z.min (V4.currentPage s - 1) (V4.v_totalPages v))
                (V4.v_totalPages v)) as [E|_]; [lia|].
    apply V4_setCurrentPage_back. lia.
  - cbn [V4.step]. fold v.
    destruct (Z.eqb_spec (V4.v_safePage v) 1) as [E|_]; [exact E|].
    rewrite Hsafe. lia.
  - cbn [V4.step]. fold v.
    destruct (Z.eqb_spec (V4.v_safePage v) (V4.v_totalPages v)) as [E|_];
      [exact E|].
    rewrite Hsafe. lia.
  - intros n Hn. cbn [V4.step]. fold v.
    assert (Hin : 1 <= V4.v_safePage v <= V4.v_totalPages v) by lia.
    pose proof (getPageNumbers_range _ _ n Hin Hn) as Hrange.
    apply existsb_Zeqb in Hn. rewrite Hn, Hsafe. lia.
  - intros H. cbn [V4.step]. fold v. apply Z.eqb_eq in H. rewrite H.
    split; reflexivity.
  - intros H. cbn [V4.step]. fold v. apply Z.eqb_eq in H. rewrite H.
    split; reflexivity.
Qed.

Lemma V4_navigation_witness :
  let s := V4.mkState "" (SortConfig.mk None asc) 2 5 in
  V4.step (host := Fixture.host) Fixture.v4Props
    (V4.step (host := Fixture.host) Fixture.v4Props s V4.NextPage)
    V4.PreviousPage = s /\
  V4.v_safePage
    (V4.render (host := Fixture.host) Fixture.v4Props
       (V4.step (host := Fixture.host) Fixture.v4Props s V4.LastPage)) = 3.
Proof.
  intros s.
  assert (Hok : V4_state_ok (host := Fixture.host) Fixture.v4Props s)
    by (vm_compute; repeat split; discriminate).
  destruct (V4_navigation (host := Fixture.host) Fixture.v4Props s Hok)
    as (Hnext & _ & _ & Hlast & _).
  split.
  - apply Hnext. vm_compute. reflexivity.
  - exact Hlast.
Defined.

Lemma V3_setCurrentPage_back (s : V3.State) (a b : Z) :
  b = V3.currentPage s ->
  V3.setCurrentPage b (V3.setCurrentPage a s) = s.
Proof.
  destruct s as [ft sc cp ps]. unfold V3.setCurrentPage. simpl.
  intros ->. reflexivity.
Qed.

(** X8.  Navigation in v3, in a state whose stored page is in range (every
    reachable state, see [V3_run_ok]): [goToPage n] shows
    [clamp n 1 totalPages] for every integer [n]; "Next" followed by
    "Previous" and "Previous" followed by "Next" come back to the same
    state whenever the first button is enabled; "Next" is disabled exactly
    on the last page and "Previous" exactly on page 1, and a disabled
    button changes nothing. *)
Theorem V3_navigation {host : Host} (p : V3.Props) (s : V3.State) :
  V3_state_ok p s ->
  let pg := V3.pagination p s in
  (forall n,
     V3.p_currentPage (V3.pagination p (V3.goToPage (V3.p_totalPages pg) n s))
     = clamp n 1 (V3.p_totalPages pg)) /\
  (V3.p_hasNextPage pg = true ->
   V3.step p (V3.step p s V3.Next) V3.Previous = s /\
   V3.p_currentPage (V3.pagination p (V3.step p s V3.Next))
     = V3.p_currentPage pg + 1) /\
  (V3.p_hasPreviousPage pg = true ->
   V3.step p (V3.step p s V3.Previous) V3.Next = s /\
   V3.p_currentPage (V3.pagination p (V3.step p s V3.Previous))
     = V3.p_currentPage pg - 1) /\
  (V3.p_hasNextPage pg = false <-> V3.p_currentPage pg = V3.p_totalPages pg) /\
  (V3.p_hasPreviousPage pg = false <-> V3.p_currentPage pg = 1) /\
  (V3.p_hasNextPage pg = false -> V3.step p s V3.Next = s) /\
  (V3.p_hasPreviousPage pg = false -> V3.step p s V3.Previous = s).
Proof.
  intros [Hps Hcp] pg. fold pg in Hcp.
  assert (Hsp : V3.p_currentPage pg = V3.currentPage s)
    by (unfold pg at 1; rewrite V3_pagination_currentPage; fold pg; lia).
  assert (Htp1 : 1 <= V3.p_totalPages pg)
    by apply V3_pagination_totalPages_ge_1.
  assert (Hshown : forall page,
            V3.p_currentPage (V3.pagination p (V3.setCurrentPage page s))
            = Z.min page (V3.p_totalPages pg)) by reflexivity.
  assert (Htp : forall page,
            V3.p_totalPages (V3.pagination p (V3.setCurrentPage page s))
            = V3.p_totalPages pg) by reflexivity.
  assert (Hnext : V3.p_hasNextPage pg
                  = (V3.p_currentPage pg <? V3.p_totalPages pg))
    by reflexivity.
  assert (Hprev : V3.p_hasPreviousPage pg = (1 <? V3.p_currentPage pg))
    by reflexivity.
  assert (HnextS : forall page,
            V3.p_hasNextPage (V3.pagination p (V3.setCurrentPage page s))
            = (Z.min page (V3.p_totalPages pg) <? V3.p_totalPages pg))
    by reflexivity.
  assert (HprevS : forall page,
            V3.p_hasPreviousPage (V3.pagination p (V3.setCurrentPage page s))
            = (1 <? Z.min page (V3.p_totalPages pg)))
    by reflexivity.
  repeat apply conj.
  - intros n. unfold V3.goToPage. rewrite Hshown. unfold clamp. lia.
  - intros H. rewrite Hnext in H. apply Z.ltb_lt in H.
    cbn [V3.step]. fold pg. rewrite Hnext.
    destruct (Z.ltb_spec (V3.p_currentPage pg) (V3.p_totalPages pg)); [|lia].
    unfold V3.goToNextPage, V3.goToPage. split; [|rewrite Hshown; lia].
    rewrite HprevS, Htp.
    destruct (Z.ltb_spec 1 (Z.min (Z.max 1 (Z.min (V3.currentPage s + 1)
                (V3.p_totalPages pg))) (V3.p_totalPages pg))); [|lia].
    unfold V3.goToPreviousPage, V3.goToPage.
    apply V3_setCurrentPage_back. cbn [V3.currentPage V3.setCurrentPage]. lia.
  - intros H. rewrite Hprev in H. apply Z.ltb_lt in H.
    cbn [V3.step]. fold pg. rewrite Hprev.
    destruct (Z.ltb_spec 1 (V3.p_currentPage pg)); [|lia].
    unfold V3.goToPreviousPage, V3.goToPage. split; [|rewrite Hshown; lia].
    rewrite HnextS, Htp.
    destruct (Z.ltb_spec (Z.min (Z.max 1 (Z.min (V3.currentPage s - 1)
                (V3.p_totalPages pg))) (V3.p_totalPages pg))
                (V3.p_totalPages pg)); [|lia].
    unfold V3.goToNextPage, V3.goToPage.
    apply V3_setCurrentPage_back. cbn [V3.currentPage V3.setCurrentPage]. lia.
  - rewrite Hnext. rewrite Z.ltb_ge. lia.
  - rewrite Hnext. rewrite Z.ltb_ge. lia.
  - rewrite Hprev. rewrite Z.ltb_ge. lia.
  - rewrite Hprev. rewrite Z.ltb_ge. lia.
  - intros H. cbn [V3.step]. fold pg. now rewrite H.
  - intros H. cbn [V3.step]. fold pg. now rewrite H.
Qed.

Lemma V3_navigation_witness :
  let s := V3.mkState "" (SortConfig.mk None asc) 2 5 in
  V3.step (host := Fixture.host) Fixture.v3Props
    (V3.step (host := Fixture.host) Fixture.v3Props s V3.Next)
    V3.Previous = s.
Proof.
  intros s.
  assert (Hok : V3_state_ok (host := Fixture.host) Fixture.v3Props s)
    by (vm_compute; repeat split; discriminate).
  destruct (V3_navigation (host := Fixture.host) Fixture.v3Props s Hok)
    as (_ & Hnext & _).
  apply Hnext. vm_compute. reflexivity.
Defined.

(** ** The v2 table *)

Section V2Pagination.
Context {host : Host}.

Lemma V2_render_totalPages_ge_1 (p : V2Table.Props) (s : V2Table.State) :
  1 <= V2Table.v_totalPages (V2Table.render p s).
Proof. cbn. unfold V2Table.totalPages. lia. Qed.

Lemma V2_render_currentPage (p : V2Table.Props) (s : V2Table.State) :
  V2Table.v_currentPage (V2Table.render p s) =
  Z.min (V2Table.currentPage s) (V2Table.v_totalPages (V2Table.render p s)).
Proof. reflexivity. Qed.

Lemma V2_render_totalPages_setCurrentPage (p : V2Table.Props)
    (s : V2Table.State) (page : Z) :
  V2Table.v_totalPages (V2Table.render p (V2Table.setCurrentPage page s)) =
  V2Table.v_totalPages (V2Table.render p s).
Proof. reflexivity. Qed.

Lemma V2_reset_ok (p : V2Table.Props) (s : V2Table.State) :
  1 <= V2Table.pageSize s -> V2Table.currentPage s = 1 -> V2_state_ok p s.
Proof.
  intros Hps Hcp. split; [exact Hps|].
  pose proof (V2_render_totalPages_ge_1 p s). lia.
Qed.

Lemma V2_goToPage_ok (p : V2Table.Props) (s : V2Table.State) (page : Z) :
  V2_state_ok p s ->
  V2_state_ok p
    (V2Table.goToPage (V2Table.v_totalPages (V2Table.render p s)) page s).
Proof.
  intros [Hps Hcp]. split; [exact Hps|]. unfold V2Table.goToPage.
  rewrite V2_render_totalPages_setCurrentPage.
  cbn [V2Table.currentPage V2Table.setCurrentPage]. lia.
Qed.

Lemma V2_step_ok (p : V2Table.Props) (s : V2Table.State) (e : V2Table.Event) :
  positive_sizes (V2Table.defaultPageSize p) (V2Table.pageSizeOptions p) ->
  V2_state_ok p s -> V2_state_ok p (V2Table.step p s e).
Proof.
  intros [_ Hopt] Hok. pose proof Hok as [Hps Hcp].
  destruct e as [q|size|col|col key| | | | ]; cbn [V2Table.step].
  - now apply V2_reset_ok.
  - destruct (existsb _ _) eqn:Hin; [|exact Hok].
    apply existsb_Zeqb in Hin. rewrite Forall_forall in Hopt.
    apply V2_reset_ok; [exact (Hopt _ Hin) | reflexivity].
  - destruct (nth_error _ _) as [c|]; [|exact Hok].
    destruct (V2.sortable_not_false c); [now apply V2_reset_ok | exact Hok].
  - destruct (nth_error _ _) as [c|]; [|exact Hok].
    destruct (_ && _)%bool; [now apply V2_reset_ok | exact Hok].
  - destruct (_ =? _); [exact Hok | now apply V2_goToPage_ok].
  - destruct (_ =? _); [exact Hok | now apply V2_goToPage_ok].
  - destruct (_ =? _); [exact Hok | now apply V2_goToPage_ok].
  - destruct (_ =? _); [exact Hok | now apply V2_goToPage_ok].
Qed.

Lemma V2_initial_ok (p : V2Table.Props) :
  positive_sizes (V2Table.defaultPageSize p) (V2Table.pageSizeOptions p) ->
  V2_state_ok p (V2Table.initial p).
Proof. intros [Hd _]. now apply V2_reset_ok. Qed.

Lemma V2_run_ok (p : V2Table.Props) (es : list V2Table.Event)
    (s : V2Table.State) :
  positive_sizes (V2Table.defaultPageSize p) (V2Table.pageSizeOptions p) ->
  V2_state_ok p s -> V2_state_ok p (V2Table.run p s es).
Proof.
  intros Hp. revert s. induction es as [|e es IH]; intros s Hs; [exact Hs|].
  apply IH. now apply V2_step_ok.
Qed.

Lemma V2_step_sortable (p : V2Table.Props) (s : V2Table.State)
    (e : V2Table.Event) :
  sort_key_not_unsortable (V2Table.columns p) (V2Table.sortConfig s) ->
  sort_key_not_unsortable (V2Table.columns p)
    (V2Table.sortConfig (V2Table.step p s e)).
Proof.
  intros H. destruct e as [q|size|col|col key| | | | ]; cbn [V2Table.step];
    try exact H.
  - destruct (existsb _ _); exact H.
  - destruct (nth_error _ _) as [c|] eqn:Hn; [|exact H].
    destruct (V2.sortable_not_false c) eqn:Hs; [|exact H].
    exists c. repeat split; [eapply nth_error_In; eassumption | exact Hs].
  - destruct (nth_error _ _) as [c|] eqn:Hn; [|exact H].
    destruct (_ || _)%bool; [|exact H]. simpl.
    destruct (V2.sortable_not_false c) eqn:Hs; [|exact H].
    exists c. repeat split; [eapply nth_error_In; eassumption | exact Hs].
  - destruct (_ =? _); exact H.
  - destruct (_ =? _); exact H.
  - destruct (_ =? _); exact H.
  - destruct (_ =? _); exact H.
Qed.

Lemma V2_run_sortable (p : V2Table.Props) (es : list V2Table.Event)
    (s : V2Table.State) :
  sort_key_not_unsortable (V2Table.columns p) (V2Table.sortConfig s) ->
  sort_key_not_unsortable (V2Table.columns p)
    (V2Table.sortConfig (V2Table.run p s es)).
Proof.
  revert s. induction es as [|e es IH]; intros s Hs; [exact Hs|].
  apply IH. now apply V2_step_sortable.
Qed.

End V2Pagination.

(** X9.  The v2 table keeps its page in range: with positive page sizes,
    after any sequence of interactions from the initial state (filter
    input, page-size selection, header clicks and key presses, first,
    previous, next, last) the stored page lies between 1 and the number of
    pages, and the page returned by [usePagination] equals it. *)
Theorem V2_page_within_bounds {host : Host} (p : V2Table.Props)
    (es : list V2Table.Event) :
  positive_sizes (V2Table.defaultPageSize p) (V2Table.pageSizeOptions p) ->
  let s := V2Table.run p (V2Table.initial p) es in
  let v := V2Table.render p s in
  1 <= V2Table.currentPage s <= V2Table.v_totalPages v /\
  V2Table.v_currentPage v = V2Table.currentPage s /\
  1 <= V2Table.pageSize s.
Proof.
  intros Hp s v.
  destruct (V2_run_ok p es (V2Table.initial p) Hp (V2_initial_ok p Hp))
    as [Hps Hcp].
  fold s in Hps, Hcp. fold v in Hcp.
  split; [exact Hcp|]. split; [|exact Hps].
  unfold v at 1. rewrite V2_render_currentPage. fold v. lia.
Qed.

(** X10.  The sortable gate of v2 is [sortable !== false]: after any
    sequence of interactions from the initial state the sort key is absent
    or the key of a column whose flag is not [false]; so a key all of whose
    columns are flagged [sortable: false] never becomes the sort key, while
    a column without the flag can be sorted (unlike in v3 and v4). *)
Theorem V2_sort_key_gate {host : Host} (p : V2Table.Props)
    (es : list V2Table.Event) :
  let cfg := V2Table.sortConfig (V2Table.run p (V2Table.initial p) es) in
  sort_key_not_unsortable (V2Table.columns p) cfg /\
  (forall k,
     (forall col, In col (V2Table.columns p) -> Column.key col = k ->
                  Column.sortable col = Some false) ->
     SortConfig.key cfg <> Some k) /\
  (forall col,
     nth_error (V2Table.columns p) 0 = Some col ->
     Column.sortable col = None ->
     SortConfig.key
       (V2Table.sortConfig
          (V2Table.step p (V2Table.initial p) (V2Table.HeaderClick 0)))
     = Some (Column.key col)).
Proof.
  intros cfg.
  assert (H : sort_key_not_unsortable (V2Table.columns p) cfg)
    by (apply V2_run_sortable; exact I).
  split; [exact H|]. split.
  - intros k Hno Hk. unfold sort_key_not_unsortable in H. rewrite Hk in H.
    destruct H as (col & Hin & Hs & Hkey).
    unfold V2.sortable_not_false in Hs. rewrite (Hno col Hin Hkey) in Hs.
    discriminate.
  - intros col Hn Hs. cbn [V2Table.step]. rewrite Hn.
    unfold V2.sortable_not_false. rewrite Hs. reflexivity.
Qed.

Lemma V2App_sizes :
  positive_sizes (V2Table.defaultPageSize V2App.props)
    (V2Table.pageSizeOptions V2App.props).
Proof.
  split; [vm_compute; discriminate|].
  repeat constructor; vm_compute; discriminate.
Qed.

Lemma V2_page_within_bounds_witness :
  let s := V2Table.run (host := Fixture.host) V2App.props
             (V2Table.initial V2App.props)
             [V2Table.Last; V2Table.FilterInput "engineering"] in
  let v := V2Table.render (host := Fixture.host) V2App.props s in
  1 <= V2Table.currentPage s <= V2Table.v_totalPages v /\
  V2Table.v_currentPage v = V2Table.currentPage s /\
  1 <= V2Table.pageSize s.
Proof.
  exact (V2_page_within_bounds (host := Fixture.host) V2App.props
           [V2Table.Last; V2Table.FilterInput "engineering"] V2App_sizes).
Defined.

Lemma V2_sort_key_gate_witness :
  SortConfig.key
    (V2Table.sortConfig
       (V2Table.run (host := Fixture.host) V2App.lockedProps
          (V2Table.initial V2App.lockedProps)
          [V2Table.HeaderClick 0; V2Table.HeaderKeyDown 0 "Enter"]))
  <> Some "name" /\
  SortConfig.key
    (V2Table.sortConfig
       (V2Table.step (host := Fixture.host) V2App.props
          (V2Table.initial V2App.props) (V2Table.HeaderClick 0)))
  = Some "name".
Proof.
  split.
  - destruct (V2_sort_key_gate (host := Fixture.host) V2App.lockedProps
                [V2Table.HeaderClick 0; V2Table.HeaderKeyDown 0 "Enter"])
      as (_ & H & _).
    apply H. intros col [<-|[<-|[]]] Hkey; [reflexivity | discriminate Hkey].
  - destruct (V2_sort_key_gate (host := Fixture.host) V2App.props [])
      as (_ & _ & H).
    apply (H (Column.mk "name" "Name" None)); reflexivity.
Defined.

(** X11.  Reset and frame in v3 and v2 (as in v4): in every reachable state
    an interaction that is not page navigation either changes nothing or
    leaves the stored page at 1 (this includes v3's "Clear filter" button,
    which does not call [resetPage]), and page navigation leaves the filter
    text, the sort state and the page size as they were. *)
Theorem V3_V2_resets_and_navigation {host : Host}
    (p3 : V3.Props) (es3 : list V3.Event) (e3 : V3.Event)
    (p2 : V2Table.Props) (es2 : list V2Table.Event) (e2 : V2Table.Event) :
  positive_sizes (V3.initialPageSize p3) (V3.pageSizeOptions p3) ->
  (let s := V3.run p3 (V3.initial p3) es3 in
   let s' := V3.step p3 s e3 in
   if V3_is_navigation e3
   then V3.filterText s' = V3.filterText s /\
        V3.sortConfig s' = V3.sortConfig s /\
        V3.pageSize s' = V3.pageSize s
   else s' = s \/ V3.currentPage s' = 1) /\
  (let s := V2Table.run p2 (V2Table.initial p2) es2 in
   let s' := V2Table.step p2 s e2 in
   if V2_is_navigation e2
   then V2Table.filterText s' = V2Table.filterText s /\
        V2Table.sortConfig s' = V2Table.sortConfig s /\
        V2Table.pageSize s' = V2Table.pageSize s
   else s' = s \/ V2Table.currentPage s' = 1).
Proof.
  intros Hp3. split; cbv zeta.
  - set (s := V3.run p3 (V3.initial p3) es3).
    destruct e3 as [q| |col|size| | ]; cbn [V3_is_navigation].
    + right. reflexivity.
    + apply (V3_clear_filter_on_page_1 p3 es3 Hp3).
    + cbn [V3.step]. destruct (nth_error _ _) as [c|]; [|now left].
      destruct (Column.is_sortable c); [right | left]; reflexivity.
    + cbn [V3.step]. destruct (existsb _ _); [right | left]; reflexivity.
    + cbn [V3.step]. destruct (V3.p_hasPreviousPage _); repeat split.
    + cbn [V3.step]. destruct (V3.p_hasNextPage _); repeat split.
  - set (s := V2Table.run p2 (V2Table.initial p2) es2).
    destruct e2 as [q|size|col|col key| | | | ];
      cbn [V2_is_navigation V2Table.step].
    + right. reflexivity.
    + destruct (existsb _ _); [right | left]; reflexivity.
    + destruct (nth_error _ _) as [c|]; [|now left].
      destruct (V2.sortable_not_false c); [right | left]; reflexivity.
    + destruct (nth_error _ _) as [c|]; [|now left].
      destruct (_ && _)%bool; [right | left]; reflexivity.
    + destruct (_ =? _); repeat split.
    + destruct (_ =? _); repeat split.
    + destruct (_ =? _); repeat split.
    + destruct (_ =? _); repeat split.
Qed.

Lemma V3_V2_resets_and_navigation_witness :
  V3.currentPage
    (V3.step (host := Fixture.host) Fixture.v3Props
       (V3.run (host := Fixture.host) Fixture.v3Props
          (V3.initial Fixture.v3Props) [V3.Next; V3.Next])
       (V3.SortButton 1)) = 1.
Proof.
  destruct (V3_V2_resets_and_navigation (host := Fixture.host)
              Fixture.v3Props [V3.Next; V3.Next] (V3.SortButton 1)
              V2App.props [] V2Table.First fixture_v3_sizes) as [H _].
  cbv zeta in H. cbn [V3_is_navigation] in H.
  destruct H as [H|H]; [|exact H].
  exfalso. revert H. vm_compute. discriminate.
Defined.

(** ** Sort stage, continued *)

(** Inserting a decorated element whose index is smaller than all indices
    of the sorted decorated array moves it exactly as far as the undecorated
    insertion moves the element. *)
Lemma insert_decorated {T : Type} (compareFn : T -> T -> Z) (x : T) (i : Z)
    (l : list (T * Z)) :
  Forall (fun b => i < snd b) l ->
  map fst
    (insert (fun a b =>
               let result := compareFn (fst a) (fst b) in
               if negb (result =? 0) then result else snd a - snd b)
       (x, i) l)
  = insert compareFn x (map fst l).
Proof.
  induction 1 as [|[y j] l Hj Hl IH]; [reflexivity|].
  cbn [insert map fst snd]. cbv zeta.
  destruct (Z.eqb_spec (compareFn x y) 0) as [E|E]; cbn [negb].
  - rewrite E. simpl in Hj.
    destruct (Z.ltb_spec 0 (i - j)); [lia|].
    destruct (Z.ltb_spec 0 0); [lia|]. reflexivity.
  - destruct (0 <? compareFn x y); [|reflexivity].
    cbn [map fst]. f_equal. exact IH.
Qed.

Lemma stableSort_is_sort_from {T : Type} (compareFn : T -> T -> Z)
    (arr : list T) (n : nat) :
  map fst
    (insertion_sort
       (fun a b =>
          let result := compareFn (fst a) (fst b) in
          if negb (result =? 0) then result else snd a - snd b)
       (combine arr (map Z.of_nat (seq n (List.length arr)))))
  = insertion_sort compareFn arr.
Proof.
  revert n. induction arr as [|x arr IH]; intros n; [reflexivity|].
  cbn [List.length seq map combine insertion_sort].
  rewrite insert_decorated.
  - now rewrite IH.
  - rewrite Forall_forall. intros [y j] Hy.
    apply in_insertion_sort in Hy. apply in_combine_r in Hy.
    apply in_map_iff in Hy.
    destruct Hy as [m [<- Hm]]. apply in_seq in Hm. simpl. lia.
Qed.

Lemma V2_V3_compare (k : string) (d : SortDirection) (a b : Row.t)
    {host : Host} :
  V2.compare k d a b = V3.compare k d a b.
Proof.
  unfold V2.compare, V3.compare. now rewrite !is_null_or_undefined_loose.
Qed.

Lemma insertion_sort_ext {T : Type} (c1 c2 : T -> T -> Z) (l : list T) :
  (forall a b, c1 a b = c2 a b) -> insertion_sort c1 l = insertion_sort c2 l.
Proof.
  intros H. induction l as [|x l IH]; [reflexivity|].
  cbn [insertion_sort]. rewrite IH. generalize (insertion_sort c2 l).
  intros s. induction s as [|y s IHs]; [reflexivity|].
  cbn [insert]. rewrite H, IHs. reflexivity.
Qed.

Lemma consistent_on_ext {T : Type} (c1 c2 : T -> T -> Z) (l : list T) :
  (forall a b, c1 a b = c2 a b) -> consistent_on c2 l -> consistent_on c1 l.
Proof.
  intros H Hc a b c Ha Hb Hc'. rewrite !H. now apply Hc.
Qed.

(** X12.  The decoration of [stableSort] is redundant where the platform
    sort is specified: for every comparator that is a consistent
    comparison function for the elements of the array,
    [stableSort arr compareFn] is the array that [arr.sort(compareFn)]
    returns, on every engine; hence the sort stage of v2 and the sort
    stage of v3 return the same rows for every sort state and every input
    on which the comparator of the sort state is consistent. *)
Theorem stableSort_is_platform_sort {host : Host} :
  (forall (T : Type) (arr : list T) (compareFn : T -> T -> Z),
     consistent_on compareFn arr ->
     V2.stableSort arr compareFn = sort compareFn arr) /\
  (forall data cfg,
     (forall k, SortConfig.active_key cfg = Some k ->
        consistent_on (V3.compare k (SortConfig.direction cfg)) data) ->
     V2.sortData cfg data = V3.sortedData data cfg).
Proof.
  assert (H : forall (T : Type) (arr : list T) (compareFn : T -> T -> Z),
            consistent_on compareFn arr ->
            V2.stableSort arr compareFn = insertion_sort compareFn arr).
  { intros T arr compareFn Hc. unfold V2.stableSort. cbv zeta.
    rewrite sort_consistent by now apply decorated_consistent.
    apply stableSort_is_sort_from. }
  split.
  - intros T arr compareFn Hc. rewrite (sort_consistent _ _ Hc). now apply H.
  - intros data cfg Hc. unfold V2.sortData, V3.sortedData.
    destruct (SortConfig.active_key cfg) as [k|]; [|reflexivity].
    specialize (Hc k eq_refl).
    rewrite (sort_consistent _ _ Hc), H.
    + apply insertion_sort_ext. intros a b. apply V2_V3_compare.
    + eapply consistent_on_ext; [|exact Hc]. intros a b. apply V2_V3_compare.
Qed.

Lemma stableSort_is_platform_sort_witness :
  let cfg := SortConfig.mk (Some "age") desc in
  V2.sortData (host := Fixture.host) cfg Fixture.testData
  = V3.sortedData (host := Fixture.host) Fixture.testData cfg.
Proof.
  intros cfg.
  destruct (stableSort_is_platform_sort (host := Fixture.host)) as [_ H].
  apply H. intros k Hk. injection Hk as <-.
  apply consistent_onb_spec. vm_compute. reflexivity.
Defined.

(** *** Numeric columns *)

Section SortByKey.
Context {A : Type} (cmp : A -> A -> Z).

(** The rows outside the class [late] are sorted among themselves exactly
    as if the late rows were not there. *)
Section Early.
Variable late : A -> bool.
Hypothesis early_before : forall x y,
  late x = false -> late y = true -> cmp x y <= 0.

Lemma insert_early (x : A) (l : list A) :
  late_last late l -> late x = false ->
  filter (fun a => negb (late a)) (insert cmp x l)
  = insert cmp x (filter (fun a => negb (late a)) l).
Proof.
  unfold late_last. intros Hl Hx.
  induction Hl as [|y l Hy Hl IH]; cbn [insert filter].
  - now rewrite Hx.
  - destruct (late y) eqn:Hly; cbn [negb].
    + assert (Hall : filter (fun a => negb (late a)) l = []).
      { rewrite Forall_forall in Hy. clear -Hy.
        induction l as [|z l IH]; [reflexivity|]. cbn [filter].
        rewrite (Hy z (or_introl eq_refl) eq_refl). cbn [negb].
        apply IH. intros a Ha. apply Hy. now right. }
      pose proof (early_before x y Hx Hly) as Hle.
      destruct (Z.ltb_spec 0 (cmp x y)); [lia|].
      cbn [filter]. rewrite Hx, Hly, Hall. reflexivity.
    + cbn [insert]. destruct (0 <? cmp x y); cbn [filter].
      * rewrite Hly. cbn [negb]. now rewrite IH.
      * rewrite Hx, Hly. reflexivity.
Qed.

Hypothesis late_after : forall x y,
  late x = true -> late y = false -> 0 < cmp x y.

Lemma insertion_sort_early (l : list A) :
  filter (fun a => negb (late a)) (insertion_sort cmp l)
  = insertion_sort cmp (filter (fun a => negb (late a)) l).
Proof.
  induction l as [|x l IH]; [reflexivity|].
  cbn [insertion_sort filter]. destruct (late x) eqn:Hx; cbn [negb].
  - rewrite filter_insert; [|intros E; rewrite Hx in E; discriminate].
    cbn [filter]. rewrite Hx. exact IH.
  - rewrite insert_early;
      [|now apply insertion_sort_late_last | exact Hx].
    cbn [insertion_sort]. now rewrite IH.
Qed.
End Early.

(** When the comparator orders the members of [P] by the integer key [f],
    sorting a list of members of [P] yields a list with growing keys. *)
Section Key.
Variable f : A -> Z.
Variable P : A -> Prop.
Hypothesis cmp_key : forall a b, P a -> P b -> (0 < cmp a b <-> f b < f a).

Lemma insert_by_key (x : A) (l : list A) :
  P x -> Forall P l ->
  ForallOrdPairs (fun a b => f a <= f b) l ->
  ForallOrdPairs (fun a b => f a <= f b) (insert cmp x l).
Proof.
  intros Hx HP Hl. induction Hl as [|y l Hy Hl IH]; cbn [insert].
  - repeat constructor.
  - inversion HP as [|? ? Py Pl]; subst.
    destruct (Z.ltb_spec 0 (cmp x y)) as [Hgt|Hle].
    + constructor; [|now apply IH].
      rewrite Forall_forall in *. intros z Hz.
      apply (Permutation_in _ (insert_perm cmp x l)) in Hz.
      destruct Hz as [<-|Hz]; [|now apply Hy].
      apply (cmp_key x y Hx Py) in Hgt. lia.
    + constructor; [|now constructor].
      assert (Hxy : f x <= f y).
      { destruct (Z.le_gt_cases (f x) (f y)) as [|Hlt]; [assumption|].
        apply (cmp_key x y Hx Py) in Hlt. lia. }
      constructor; [exact Hxy|].
      rewrite Forall_forall in *. intros z Hz. specialize (Hy z Hz). lia.
Qed.

Lemma insertion_sort_by_key (l : list A) :
  Forall P l -> ForallOrdPairs (fun a b => f a <= f b) (insertion_sort cmp l).
Proof.
  induction 1 as [|x l Hx Hl IH]; cbn [insertion_sort]; [constructor|].
  apply insert_by_key; [exact Hx | | exact IH].
  rewrite Forall_forall in *. intros y Hy. apply Hl.
  now apply in_insertion_sort in Hy.
Qed.
End Key.

End SortByKey.

Lemma filter_all {A : Type} (f : A -> bool) (l : list A) :
  Forall (fun a => f a = true) l -> filter f l = l.
Proof.
  induction 1 as [|x l Hx _ IH]; [reflexivity|].
  cbn [filter]. now rewrite Hx, IH.
Qed.

Lemma filter_none {A : Type} (f : A -> bool) (l : list A) :
  Forall (fun a => f a = false) l -> filter f l = [].
Proof.
  induction 1 as [|x l Hx _ IH]; [reflexivity|].
  cbn [filter]. now rewrite Hx, IH.
Qed.

Lemma V4_compare_numbers {host : Host} (k : string) (d : SortDirection)
    (a b : Row.t) (x y : Z) :
  number_at k a = Some x -> number_at k b = Some y ->
  (0 < V4.compare k d a b <->
   match d with asc => y < x | desc => x < y end).
Proof.
  unfold number_at, V4.compare. intros Ha Hb.
  destruct (Row.get a k) as [| |x'|]; try discriminate.
  destruct (Row.get b k) as [| |y'|]; try discriminate.
  injection Ha as ->. injection Hb as ->. cbn.
  destruct (Z.eqb_spec x y) as [->|Hne]; destruct d; lia.
Qed.

(** On a column of numbers, where the rows without a value are all
    [null] or all [undefined], the comparator of v4 is a consistent
    comparison function. *)
Lemma V4_compare_consistent_numeric {host : Host} (data : list Row.t)
    (k : string) (d : SortDirection) :
  Forall (fun r => key_is_nullish k r = true \/ number_at k r <> None) data ->
  (forall a b, In a data -> In b data ->
     key_is_nullish k a = true -> key_is_nullish k b = true ->
     Row.get a k = Row.get b k) ->
  consistent_on (V4.compare k d) data.
Proof.
  intros Hnum Hsame a b c Ha Hb Hc. rewrite Forall_forall in Hnum.
  pose proof (Hnum a Ha) as Na. pose proof (Hnum b Hb) as Nb.
  pose proof (Hnum c Hc) as Nc.
  pose proof (Hsame a b Ha Hb) as Sab. pose proof (Hsame b c Hb Hc) as Sbc.
  pose proof (Hsame a c Ha Hc) as Sac.
  clear Hnum Hsame Ha Hb Hc.
  unfold V4.compare, key_is_nullish, number_at in *.
  destruct (Row.get a k) as [| |x|sa];
    try (destruct Na as [Na|Na]; [discriminate Na | congruence]);
    destruct (Row.get b k) as [| |y|sb];
    try (destruct Nb as [Nb|Nb]; [discriminate Nb | congruence]);
    try (specialize (Sab eq_refl eq_refl); discriminate Sab);
    destruct (Row.get c k) as [| |z|sc];
    try (destruct Nc as [Nc|Nc]; [discriminate Nc | congruence]);
    try (specialize (Sbc eq_refl eq_refl); discriminate Sbc);
    try (specialize (Sac eq_refl eq_refl); discriminate Sac);
    clear Na Nb Nc Sab Sbc Sac; cbn;
    try (destruct (Z.eqb_spec x x)); try (destruct (Z.eqb_spec x y));
    try (destruct (Z.eqb_spec y x)); try (destruct (Z.eqb_spec y z));
    try (destruct (Z.eqb_spec x z)); destruct d;
    repeat split; intros; lia.
Qed.

(** X13.  Numeric fields compare numerically in v4: when every row has a
    number or no value (null or undefined) under the sort key, and the
    rows without a value are all [null] or all [undefined], the sorted
    rows are a permutation of the input made of the rows with a number, in
    ascending order of the number for [asc] and in descending order for
    [desc], followed by the rows without a value. *)
Theorem V4_numeric_column_sorted {host : Host} (data : list Row.t)
    (cfg : SortConfig.t) (k : string) :
  SortConfig.active_key cfg = Some k ->
  Forall (fun r => key_is_nullish k r = true \/ number_at k r <> None) data ->
  (forall a b, In a data -> In b data ->
     key_is_nullish k a = true -> key_is_nullish k b = true ->
     Row.get a k = Row.get b k) ->
  exists numbered nulls,
    V4.sortedData data cfg = numbered ++ nulls /\
    Permutation (numbered ++ nulls) data /\
    Forall (fun r => key_is_nullish k r = true) nulls /\
    ForallOrdPairs
      (fun a b =>
         exists x y, number_at k a = Some x /\ number_at k b = Some y /\
                     match SortConfig.direction cfg with
                     | asc => x <= y
                     | desc => y <= x
                     end) numbered.
Proof.
  intros Hk Hdata Hsame.
  pose proof (V4_compare_consistent_numeric data k (SortConfig.direction cfg)
                Hdata Hsame) as Hc.
  destruct (V4_sortedData_nulls_at_end data cfg k Hk Hc)
    as (numbered & nulls & Hout & Hnum & Hnull).
  exists numbered, nulls. split; [exact Hout|]. split.
  { rewrite <- Hout. unfold V4.sortedData. rewrite Hk. apply sort_perm. }
  split; [exact Hnull|].
  set (d := SortConfig.direction cfg) in *.
  set (early := fun r : Row.t => negb (key_is_nullish k r)).
  assert (Hfilter : numbered
                    = insertion_sort (V4.compare k d) (filter early data)).
  { assert (E : filter early (V4.sortedData data cfg) = numbered).
    { rewrite Hout, filter_app, filter_all, filter_none.
      - apply app_nil_r.
      - eapply Forall_impl; [|exact Hnull]. intros r Hr. unfold early.
        now rewrite Hr.
      - eapply Forall_impl; [|exact Hnum]. intros r Hr. unfold early.
        now rewrite Hr. }
    rewrite <- E. unfold V4.sortedData. rewrite Hk. fold d.
    rewrite (sort_consistent _ _ Hc).
    apply (insertion_sort_early (V4.compare k d) (key_is_nullish k)).
    - intros x y Hx Hy. rewrite V4_compare_null_right by assumption. lia.
    - intros x y Hx Hy. rewrite V4_compare_null_left by assumption. lia. }
  set (num := fun r : Row.t =>
                match number_at k r with Some n => n | None => 0 end).
  set (P := fun r : Row.t => number_at k r <> None).
  assert (HP : Forall P (filter early data)).
  { rewrite Forall_forall in *. intros r Hr. apply filter_In in Hr.
    destruct Hr as [Hin He]. destruct (Hdata r Hin) as [Hn|Hn]; [|exact Hn].
    unfold early in He. rewrite Hn in He. discriminate. }
  assert (HPn : Forall P numbered).
  { rewrite Hfilter. rewrite Forall_forall in *. intros r Hr.
    apply HP. now apply in_insertion_sort in Hr. }
  set (f := fun r : Row.t => match d with asc => num r | desc => - num r end).
  assert (Hsorted : ForallOrdPairs (fun a b => f a <= f b) numbered).
  { rewrite Hfilter.
    apply (insertion_sort_by_key (V4.compare k d) f P); [|exact HP].
    intros a b Ha Hb. unfold P in Ha, Hb.
    destruct (number_at k a) as [x|] eqn:Ea; [|congruence].
    destruct (number_at k b) as [y|] eqn:Eb; [|congruence].
    rewrite (V4_compare_numbers k d a b x y Ea Eb).
    unfold f, num. rewrite Ea, Eb. destruct d; lia. }
  eapply ForallOrdPairs_impl_In; [|exact Hsorted].
  intros a b Ha Hb Hle. rewrite Forall_forall in HPn.
  pose proof (HPn a Ha) as Pa. pose proof (HPn b Hb) as Pb.
  unfold P in Pa, Pb.
  destruct (number_at k a) as [x|] eqn:Ea; [|congruence].
  destruct (number_at k b) as [y|] eqn:Eb; [|congruence].
  exists x, y. split; [reflexivity|]. split; [reflexivity|].
  unfold f, num in Hle. rewrite Ea, Eb in Hle. destruct d; lia.
Qed.

Lemma V4_numeric_column_sorted_witness :
  exists numbered nulls,
    V4.sortedData (host := Fixture.host) Fixture.testData
      (SortConfig.mk (Some "age") desc) = numbered ++ nulls /\
    Permutation (numbered ++ nulls) Fixture.testData /\
    Forall (fun r => key_is_nullish "age" r = true) nulls /\
    ForallOrdPairs
      (fun a b =>
         exists x y, number_at "age" a = Some x /\ number_at "age" b = Some y /\
                     y <= x) numbered.
Proof.
  apply (V4_numeric_column_sorted (host := Fixture.host) Fixture.testData
           (SortConfig.mk (Some "age") desc) "age").
  - reflexivity.
  - unfold Fixture.testData.
    repeat (apply Forall_cons; [right; vm_compute; discriminate|]).
    apply Forall_nil.
  - intros a b Ha Hb Na. exfalso. revert Na.
    unfold Fixture.testData in Ha.
    repeat (destruct Ha as [<-|Ha]; [vm_compute; discriminate|]).
    destruct Ha.
Defined.

(** ** The pipeline as a whole *)

Lemma V4_sortedData_perm {host : Host} (rows : list Row.t)
    (cfg : SortConfig.t) :
  Permutation (V4.sortedData rows cfg) rows.
Proof.
  unfold V4.sortedData. destruct (SortConfig.active_key cfg); [|reflexivity].
  apply sort_perm.
Qed.

(** X14.  Sorting only rearranges: after [handleSort], for any key and from
    any state of v4, the sorted rows are a permutation of the sorted rows
    before (no row added, lost or duplicated), and the item count and the
    number of pages are unchanged. *)
Theorem V4_sort_only_rearranges {host : Host} (p : V4.Props) (s : V4.State)
    (k : string) :
  let v := V4.render p s in
  let v' := V4.render p (V4.handleSort k s) in
  Permutation (V4.v_sortedData v') (V4.v_sortedData v) /\
  V4.v_totalItems v' = V4.v_totalItems v /\
  V4.v_totalPages v' = V4.v_totalPages v.
Proof.
  cbv zeta.
  assert (Hperm : Permutation
            (V4.v_sortedData (V4.render p (V4.handleSort k s)))
            (V4.v_sortedData (V4.render p s))).
  { unfold V4.render. cbn [V4.v_sortedData V4.filterText V4.handleSort].
    rewrite !V4_sortedData_perm. reflexivity. }
  split; [exact Hperm|].
  apply Permutation_length in Hperm.
  unfold V4.render in *.
  cbn [V4.v_sortedData V4.v_totalItems V4.v_totalPages V4.handleSort
       V4.pageSize V4.filterText V4.sortConfig] in *.
  unfold V4.totalPages. rewrite Hperm. split; reflexivity.
Qed.

Lemma In_slice {A : Type} (l : list A) (a b : Z) (x : A) :
  In x (slice l a b) -> In x l.
Proof.
  unfold slice. cbv zeta.
  generalize (Z.to_nat
    ((if b <? 0 then Z.max (Z.of_nat (List.length l) + b) 0
      else Z.min b (Z.of_nat (List.length l)))
     - (if a <? 0 then Z.max (Z.of_nat (List.length l) + a) 0
        else Z.min a (Z.of_nat (List.length l))))).
  generalize (Z.to_nat
    (if a <? 0 then Z.max (Z.of_nat (List.length l) + a) 0
     else Z.min a (Z.of_nat (List.length l)))).
  intros n m H.
  rewrite <- (firstn_skipn n l). apply in_or_app. right.
  rewrite <- (firstn_skipn m (skipn n l)). apply in_or_app. now left.
Qed.

Lemma NoDup_firstn {A : Type} (n : nat) (l : list A) :
  NoDup l -> NoDup (firstn n l).
Proof.
  intros H. rewrite <- (firstn_skipn n l) in H.
  now apply NoDup_app_remove_r in H.
Qed.

Lemma NoDup_skipn {A : Type} (n : nat) (l : list A) :
  NoDup l -> NoDup (skipn n l).
Proof.
  intros H. rewrite <- (firstn_skipn n l) in H.
  now apply NoDup_app_remove_l in H.
Qed.

(** X15.  What is on screen in v4, for a positive page size and a positive
    stored page: every row shown is a row of [data]; when the filter text
    is not blank, it has a column whose stringified, case-folded value
    contains the search term; at most [pageSize] rows are shown; no row is
    shown twice when [data] has no duplicate; and the page is empty only if
    no row passes the filter at all. *)
Theorem V4_rows_on_screen {host : Host} (p : V4.Props) (s : V4.State) :
  1 <= V4.pageSize s -> 1 <= V4.currentPage s ->
  let v := V4.render p s in
  (forall r, In r (V4.v_paginatedData v) ->
     In r (V4.data p) /\
     (trim (V4.filterText s) <> "" ->
      exists col, In col (V4.columns p) /\
        field_contains r col (trim (toLowerCase (V4.filterText s))) = true)) /\
  Z.of_nat (List.length (V4.v_paginatedData v)) <= V4.pageSize s /\
  (NoDup (V4.data p) -> NoDup (V4.v_paginatedData v)) /\
  (V4.v_paginatedData v = [] ->
   V4.filteredData (V4.data p) (V4.columns p) (V4.filterText s) = []).
Proof.
  intros Hps Hcp v.
  set (filtered := V4.filteredData (V4.data p) (V4.columns p) (V4.filterText s)).
  set (sorted := V4.sortedData filtered (V4.sortConfig s)).
  assert (Hshown : V4.v_paginatedData v
                   = page_of sorted (V4.pageSize s) (V4.v_safePage v))
    by reflexivity.
  assert (Hsp : 1 <= V4.v_safePage v
                <= Z.max 1 (ceil_div (Z.of_nat (List.length sorted))
                              (V4.pageSize s))).
  { pose proof (V4_render_totalPages_ge_1 p s) as Htp.
    unfold v. rewrite V4_render_safePage.
    change (V4.v_totalPages (V4.render p s))
      with (Z.max 1 (ceil_div (Z.of_nat (List.length sorted)) (V4.pageSize s)))
      in *.
    lia. }
  destruct (page_in_range sorted (V4.pageSize s) (V4.v_safePage v) Hps Hsp)
    as (Hk & Hlt & Hlen).
  cbv zeta in Hk, Hlt, Hlen.
  assert (Hperm : Permutation sorted filtered) by apply V4_sortedData_perm.
  repeat apply conj.
  - intros r Hr. rewrite Hshown in Hr. apply In_slice in Hr.
    apply (Permutation_in _ Hperm) in Hr. unfold filtered in Hr.
    destruct (string_dec (trim (V4.filterText s)) "") as [Hq|Hq].
    + rewrite V4_filteredData_blank in Hr by exact Hq.
      split; [exact Hr | congruence].
    + apply V4_filteredData_In in Hr; [|exact Hq].
      split; [tauto | intros _; tauto].
  - rewrite Hshown, Hlen. lia.
  - intros Hnd. rewrite Hshown. unfold page_of, slice.
    apply NoDup_firstn, NoDup_skipn.
    apply (Permutation_NoDup (Permutation_sym Hperm)). unfold filtered.
    destruct (string_dec (trim (V4.filterText s)) "") as [Hq|Hq].
    + now rewrite V4_filteredData_blank.
    + rewrite V4_filteredData_eq by exact Hq. now apply NoDup_filter.
  - intros Hempty. rewrite Hshown in Hempty. rewrite Hempty in Hlen.
    change (Z.of_nat (List.length (@nil Row.t))) with 0 in Hlen.
    assert (Hzero : List.length sorted = 0%nat) by lia.
    apply Permutation_length in Hperm. rewrite Hzero in Hperm.
    destruct filtered; [reflexivity | discriminate].
Qed.

Lemma V4_rows_on_screen_witness :
  let s := V4.mkState "san" (SortConfig.mk (Some "name") desc) 1 5 in
  let v := V4.render (host := Fixture.host) Fixture.v4Props s in
  Z.of_nat (List.length (V4.v_paginatedData v)) <= 5 /\
  (forall r, In r (V4.v_paginatedData v) -> In r Fixture.testData).
Proof.
  intros s v.
  destruct (V4_rows_on_screen (host := Fixture.host) Fixture.v4Props s)
    as (Hin & Hlen & _); try (vm_compute; discriminate).
  split; [exact Hlen|]. intros r Hr. exact (proj1 (Hin r Hr)).
Defined.

(** ** The numbered page buttons of v4 *)

Lemma length_for_range (a b : Z) :
  Z.of_nat (List.length (for_range a b)) = Z.max 0 (b - a + 1).
Proof.
  unfold for_range. rewrite length_map, length_seq. lia.
Qed.

(** X16.  The numbered buttons of v4, for a positive stored page: they are
    the consecutive pages [first .. first + min 5 totalPages - 1], where
    [first] is [safePage - 2] brought into [1 .. max 1 (totalPages - 4)];
    so there are [min 5 totalPages] of them, all of them pages of the
    table, the page shown is one of them, and it is the middle one whenever
    two pages exist on either side of it. *)
Theorem V4_page_number_window {host : Host} (p : V4.Props) (s : V4.State) :
  1 <= V4.currentPage s ->
  let v := V4.render p s in
  let tp := V4.v_totalPages v in
  let sp := V4.v_safePage v in
  let first := clamp (sp - 2) 1 (Z.max 1 (tp - 4)) in
  let pages := V4.getPageNumbers tp sp in
  pages = for_range first (first + Z.min 5 tp - 1) /\
  Z.of_nat (List.length pages) = Z.min 5 tp /\
  (forall n, In n pages -> 1 <= n <= tp) /\
  In sp pages /\
  (3 <= sp <= tp - 2 -> pages = [sp - 2; sp - 1; sp; sp + 1; sp + 2]).
Proof.
  intros Hcp v tp sp first pages.
  assert (Htp : 1 <= tp) by apply V4_render_totalPages_ge_1.
  assert (Hsp : 1 <= sp <= tp).
  { unfold sp, v. rewrite V4_render_safePage. fold v tp. lia. }
  clearbody tp sp. clear v Hcp.
  assert (Hpages : pages = for_range first (first + Z.min 5 tp - 1)).
  { unfold pages, first, clamp, V4.getPageNumbers. cbv zeta.
    destruct (Z.leb_spec tp 5); [f_equal; lia|].
    destruct (Z.leb_spec sp 3); [f_equal; lia|].
    destruct (Z.leb_spec (tp - 2) sp); f_equal; lia. }
  assert (Hfirst : 1 <= first /\ first <= sp <= first + Z.min 5 tp - 1
                   /\ first + Z.min 5 tp - 1 <= tp)
    by (unfold first, clamp; lia).
  split; [exact Hpages|]. split; [|split; [|split]].
  - rewrite Hpages, length_for_range. lia.
  - intros n Hn. rewrite Hpages in Hn. apply in_for_range in Hn. lia.
  - rewrite Hpages. apply in_for_range. lia.
  - intros Hmid. rewrite Hpages.
    replace first with (sp - 2) by (unfold first, clamp; lia).
    replace (Z.min 5 tp) with 5 by lia.
    unfold for_range. replace (sp - 2 + 5 - 1 - (sp - 2) + 1) with 5 by lia.
    change (Z.to_nat 5) with 5%nat. cbn [seq map].
    repeat (apply f_equal2; [lia|]). reflexivity.
Qed.

Lemma V4_page_number_window_witness :
  let s := V4.mkState "" (SortConfig.mk None asc) 2 1 in
  let v := V4.render (host := Fixture.host) Fixture.v4Props s in
  Z.of_nat (List.length
              (V4.getPageNumbers (V4.v_totalPages v) (V4.v_safePage v)))
  = Z.min 5 (V4.v_totalPages v).
Proof.
  intros s v.
  destruct (V4_page_number_window (host := Fixture.host) Fixture.v4Props s)
    as (_ & Hlen & _); [vm_compute; discriminate|].
  exact Hlen.
Defined.

(** ** The header cells of v4 *)

Lemma NoDup_map_eq {A B : Type} (f : A -> B) (l : list A) (x y : A) :
  NoDup (map f l) -> In x l -> In y l -> f x = f y -> x = y.
Proof.
  induction l as [|a l IH]; intros Hnd Hx Hy Hf; [contradiction|].
  cbn [map] in Hnd. inversion Hnd as [|? ? Hnotin Hnd']; subst.
  destruct Hx as [->|Hx], Hy as [->|Hy].
  - reflexivity.
  - exfalso. apply Hnotin. rewrite Hf. now apply in_map.
  - exfalso. apply Hnotin. rewrite <- Hf. now apply in_map.
  - now apply IH.
Qed.

Lemma is_sort_key_spec (cfg : SortConfig.t) (col : Column.t) :
  is_sort_key cfg col = true <-> SortConfig.key cfg = Some (Column.key col).
Proof.
  unfold is_sort_key. destruct (SortConfig.key cfg) as [k|].
  - rewrite String.eqb_eq. split; congruence.
  - split; discriminate.
Qed.

(** X17.  The header row of v4 after any sequence of interactions from the
    initial state, when the columns have pairwise different keys: a header
    carries [aria-sort] exactly when its key is the sort key; such a header
    belongs to a sortable column and its indicator is the up arrow when
    ascending and the down arrow when descending, with [aria-sort] saying
    the same; at most one header carries [aria-sort], and one does as soon
    as there is a sort key; every other header shows the neutral arrow if
    its column is sortable and no indicator otherwise. *)
Theorem V4_header_indicators {host : Host} (p : V4.Props)
    (es : list V4.Event) :
  NoDup (map Column.key (V4.columns p)) ->
  let cfg := V4.sortConfig (V4.run p (V4.initial p) es) in
  (forall col, In col (V4.columns p) ->
     V4Header.ariaSort cfg col <> None ->
     SortConfig.key cfg = Some (Column.key col) /\
     Column.is_sortable col = true /\
     match SortConfig.direction cfg with
     | asc => V4Header.ariaSort cfg col = Some "ascending" /\
              V4Header.SortIndicator cfg col = Some GlyphUp
     | desc => V4Header.ariaSort cfg col = Some "descending" /\
               V4Header.SortIndicator cfg col = Some GlyphDown
     end) /\
  (forall col, In col (V4.columns p) ->
     V4Header.ariaSort cfg col = None ->
     SortConfig.key cfg <> Some (Column.key col) /\
     V4Header.SortIndicator cfg col
       = if Column.is_sortable col then Some GlyphNeutral else None) /\
  (forall c1 c2, In c1 (V4.columns p) -> In c2 (V4.columns p) ->
     V4Header.ariaSort cfg c1 <> None -> V4Header.ariaSort cfg c2 <> None ->
     c1 = c2) /\
  (SortConfig.key cfg <> None ->
   exists col, In col (V4.columns p) /\ V4Header.ariaSort cfg col <> None).
Proof.
  intros Hnd cfg.
  assert (Hgate : sort_key_is_sortable (V4.columns p) cfg)
    by (apply V4_run_sortable; exact I).
  assert (Haria : forall col, V4Header.ariaSort cfg col <> None
                              <-> is_sort_key cfg col = true).
  { intros col. unfold V4Header.ariaSort.
    destruct (is_sort_key cfg col); split; congruence. }
  assert (Hsortable : forall col, In col (V4.columns p) ->
            is_sort_key cfg col = true -> Column.is_sortable col = true).
  { intros col Hin Hk. apply is_sort_key_spec in Hk.
    unfold sort_key_is_sortable in Hgate. rewrite Hk in Hgate.
    destruct Hgate as (col' & Hin' & Hs & Hkey).
    rewrite <- (NoDup_map_eq Column.key (V4.columns p) col' col Hnd Hin' Hin Hkey).
    unfold Column.is_sortable. now rewrite Hs. }
  split; [|split; [|split]].
  - intros col Hin Ha. apply Haria in Ha.
    pose proof (Hsortable col Hin Ha) as Hs.
    split; [now apply is_sort_key_spec|]. split; [exact Hs|].
    unfold V4Header.ariaSort, V4Header.SortIndicator. rewrite Ha, Hs.
    cbn [negb]. destruct (SortConfig.direction cfg); split; reflexivity.
  - intros col Hin Ha.
    assert (Hk : is_sort_key cfg col = false).
    { destruct (is_sort_key cfg col) eqn:E; [|reflexivity].
      exfalso. apply (proj2 (Haria col)); [exact E | exact Ha]. }
    split.
    + intros Hkey. apply is_sort_key_spec in Hkey. congruence.
    + unfold V4Header.SortIndicator. rewrite Hk.
      now destruct (Column.is_sortable col).
  - intros c1 c2 H1 H2 Ha1 Ha2.
    apply Haria, is_sort_key_spec in Ha1. apply Haria, is_sort_key_spec in Ha2.
    apply (NoDup_map_eq Column.key (V4.columns p)); congruence.
  - intros Hkey. unfold sort_key_is_sortable in Hgate.
    destruct (SortConfig.key cfg) as [k|] eqn:Ek; [|congruence].
    destruct Hgate as (col & Hin & _ & Hk).
    exists col. split; [exact Hin|]. apply Haria, is_sort_key_spec.
    now rewrite Ek, Hk.
Qed.

Lemma V4_header_indicators_witness :
  let cfg := V4.sortConfig
               (V4.run (host := Fixture.host) Fixture.v4Props
                  (V4.initial Fixture.v4Props)
                  [V4.HeaderClick 0; V4.HeaderClick 0]) in
  exists col, In col (V4.columns Fixture.v4Props) /\
              V4Header.ariaSort cfg col <> None.
Proof.
  intros cfg.
  destruct (V4_header_indicators (host := Fixture.host) Fixture.v4Props
              [V4.HeaderClick 0; V4.HeaderClick 0])
    as (_ & _ & _ & Hex).
  - vm_compute. repeat (constructor; [vm_compute; intuition discriminate|]).
    constructor.
  - apply Hex. vm_compute. discriminate.
Defined.

(** ** The three filters compared *)

Lemma trimStart_suffix (s : string) :
  exists a, s = String.append a (trimStart s).
Proof.
  induction s as [|c s [a IH]]; [now exists EmptyString|].
  cbn [trimStart]. destruct (is_space c).
  - exists (String c a). cbn [String.append]. now rewrite <- IH.
  - now exists EmptyString.
Qed.

Lemma trimEnd_prefix (s : string) :
  exists b, s = String.append (trimEnd s) b.
Proof.
  induction s as [|c s [b IH]]; [now exists EmptyString|].
  cbn [trimEnd]. destruct (trimEnd s) as [|d t].
  - cbn [String.append] in IH. subst b. destruct (is_space c).
    + now exists (String c s).
    + now exists s.
  - exists b. cbn [String.append] in *. now rewrite <- IH.
Qed.

(** The text contains its trimmed form. *)
Lemma includes_trim (s : string) : includes s (trim s) = true.
Proof.
  apply includes_iff. unfold trim.
  destruct (trimStart_suffix s) as [a Ha].
  destruct (trimEnd_prefix (trimStart s)) as [b Hb].
  exists a, b. now rewrite <- Hb.
Qed.

Lemma subsequence_filter_impl {A : Type} (f g : A -> bool) (l : list A) :
  (forall x, In x l -> f x = true -> g x = true) ->
  subsequence (filter f l) (filter g l).
Proof.
  induction l as [|x l IH]; intros H; cbn [filter]; [constructor|].
  assert (IH' : subsequence (filter f l) (filter g l))
    by (apply IH; intros y Hy; apply H; now right).
  destruct (f x) eqn:Hf.
  - rewrite (H x (or_introl eq_refl) Hf). now constructor.
  - destruct (g x); [now constructor | exact IH'].
Qed.

Lemma filter_ext_in_bool {A : Type} (f g : A -> bool) (l : list A) :
  (forall x, In x l -> f x = g x) -> filter f l = filter g l.
Proof.
  induction l as [|x l IH]; intros H; cbn [filter]; [reflexivity|].
  rewrite (H x (or_introl eq_refl)), IH; [reflexivity|].
  intros y Hy. apply H. now right.
Qed.

Lemma existsb_impl {A : Type} (f g : A -> bool) (l : list A) :
  (forall x, In x l -> f x = true -> g x = true) ->
  existsb f l = true -> existsb g l = true.
Proof.
  intros H. rewrite !existsb_exists. intros (x & Hx & Hf).
  exists x. split; [exact Hx | now apply H].
Qed.

Lemma existsb_ext_in {A : Type} (f g : A -> bool) (l : list A) :
  (forall x, In x l -> f x = g x) -> existsb f l = existsb g l.
Proof.
  induction l as [|x l IH]; intros H; cbn [existsb]; [reflexivity|].
  rewrite (H x (or_introl eq_refl)), IH; [reflexivity|].
  intros y Hy. apply H. now right.
Qed.

(** X18.  The filters of the three versions on the same table and the
    same text: every row kept by v3 is kept by v2, and every row kept by v2
    is kept by v4, in the same order (v3 looks for the untrimmed text, v4
    also matches the text of null and undefined fields).  v3 and v2 select
    the same rows when the text has no white space around it; v4 and v2
    select the same rows when no row has a null or undefined value in a
    column. *)
Theorem filters_across_versions (data : list Row.t)
    (columns : list Column.t) (q : string) :
  subsequence (V3.filteredData data columns q)
              (V2.filterData columns q data) /\
  subsequence (V2.filterData columns q data)
              (V4.filteredData data columns q) /\
  (trim q = q ->
   V3.filteredData data columns q = V2.filterData columns q data) /\
  ((forall r col, In r data -> In col columns -> field_defined r col = true) ->
   V4.filteredData data columns q = V2.filterData columns q data).
Proof.
  destruct (string_dec (trim q) "") as [Hq|Hq].
  { rewrite V3_filteredData_blank, V2_filterData_blank, V4_filteredData_blank
      by exact Hq.
    repeat split; apply subsequence_refl. }
  rewrite V3_filteredData_eq, V2_filterData_eq, V4_filteredData_eq
    by exact Hq.
  split; [|split; [|split]].
  - apply subsequence_filter_impl. intros r _. apply existsb_impl.
    intros col _ H. apply andb_true_iff in H. destruct H as [Hd Hc].
    rewrite Hd. cbn [andb]. unfold field_contains in *.
    apply (includes_trans _ _ _ Hc), includes_trim.
  - apply subsequence_filter_impl. intros r _. apply existsb_impl.
    intros col _ H. apply andb_true_iff in H. tauto.
  - intros Htrim.
    assert (E : trim (toLowerCase q) = toLowerCase q)
      by (now rewrite <- toLowerCase_trim, Htrim).
    now rewrite E.
  - intros Hdef. apply filter_ext_in_bool. intros r Hr.
    apply existsb_ext_in. intros col Hcol. now rewrite (Hdef r col Hr Hcol).
Qed.

Lemma filters_across_versions_witness :
  V3.filteredData Fixture.testData Fixture.testColumns "San"
  = V2.filterData Fixture.testColumns "San" Fixture.testData.
Proof.
  destruct (filters_across_versions Fixture.testData Fixture.testColumns "San")
    as (_ & _ & H & _).
  apply H. vm_compute. reflexivity.
Defined.

(** ** Ascending and descending order *)

Lemma ForallOrdPairs_snoc {T : Type} (R : T -> T -> Prop) (l : list T)
    (x : T) :
  ForallOrdPairs R l -> Forall (fun a => R a x) l ->
  ForallOrdPairs R (l ++ [x]).
Proof.
  induction 1 as [|y l Hy Hl IH]; intros Hx; cbn [app].
  - repeat constructor.
  - inversion Hx as [|? ? Hyx Hlx]; subst. constructor; [|now apply IH].
    apply Forall_app. split; [exact Hy | now constructor].
Qed.

Lemma ForallOrdPairs_rev {T : Type} (R : T -> T -> Prop) (l : list T) :
  ForallOrdPairs R l -> ForallOrdPairs (fun a b => R b a) (rev l).
Proof.
  induction 1 as [|x l Hx Hl IH]; cbn [rev]; [constructor|].
  apply ForallOrdPairs_snoc; [exact IH|].
  rewrite Forall_forall in *. intros a Ha. apply Hx. now apply in_rev.
Qed.

(** Elements at different positions of a list without repeated keys have
    different keys. *)
Lemma ForallOrdPairs_NoDup {T K : Type} (h : T -> K) (l : list T) :
  NoDup (map h l) -> ForallOrdPairs (fun a b => h a <> h b) l.
Proof.
  induction l as [|x l IH]; cbn [map]; intros Hnd; [constructor|].
  inversion Hnd as [|? ? Hnotin Hnd']; subst. constructor; [|now apply IH].
  rewrite Forall_forall. intros y Hy E. apply Hnotin. rewrite E.
  now apply in_map.
Qed.

Lemma ForallOrdPairs_and {T : Type} (R S : T -> T -> Prop) (l : list T) :
  ForallOrdPairs R l -> ForallOrdPairs S l ->
  ForallOrdPairs (fun a b => R a b /\ S a b) l.
Proof.
  induction 1 as [|x l Hx Hl IH]; intros HS; [constructor|].
  inversion HS as [|? ? Sx Sl]; subst. constructor; [|now apply IH].
  rewrite Forall_forall in *. intros y Hy. split; [now apply Hx | now apply Sx].
Qed.

(** Two rearrangements of each other that both run by strictly growing key
    are the same array. *)
Lemma strictly_sorted_unique {T : Type} (g : T -> Z) (l l' : list T) :
  Permutation l l' ->
  ForallOrdPairs (fun a b => g a < g b) l ->
  ForallOrdPairs (fun a b => g a < g b) l' ->
  l = l'.
Proof.
  intros Hperm Hl. revert l' Hperm.
  induction Hl as [|x l Hx Hl IH]; intros l' Hperm Hl'.
  - now apply Permutation_nil in Hperm.
  - destruct Hl' as [|y l' Hy Hl'].
    + symmetry in Hperm. now apply Permutation_nil in Hperm.
    + rewrite Forall_forall in Hx, Hy.
      assert (Hxy : x = y).
      { pose proof (Permutation_in x Hperm (or_introl eq_refl)) as [E|Hxin];
          [now symmetry|].
        pose proof (Permutation_in y (Permutation_sym Hperm)
                      (or_introl eq_refl)) as [E|Hyin]; [exact E|].
        specialize (Hx _ Hyin). specialize (Hy _ Hxin). lia. }
      subst y. f_equal. apply IH; [|exact Hl'].
      now apply Permutation_cons_inv in Hperm.
Qed.

(** X19.  In v4, for a sort key other than the empty property name (for
    which no sort happens), on a column where every row has a number and
    no two rows have the same number, the descending order is the
    ascending order reversed. *)
Theorem V4_descending_reverses_ascending {host : Host} (data : list Row.t)
    (k : string) :
  k <> "" ->
  Forall (fun r => number_at k r <> None) data ->
  NoDup (map (number_at k) data) ->
  V4.sortedData data (SortConfig.mk (Some k) desc)
  = rev (V4.sortedData data (SortConfig.mk (Some k) asc)).
Proof.
  intros Hk Hnum Hnd.
  assert (Hact : forall d, SortConfig.active_key (SortConfig.mk (Some k) d)
                           = Some k).
  { intros d. unfold SortConfig.active_key. cbn [SortConfig.key].
    apply truthy_iff in Hk. now rewrite Hk. }
  assert (Hcons : forall d, consistent_on (V4.compare k d) data).
  { intros d. apply V4_compare_consistent_numeric.
    - eapply Forall_impl; [|exact Hnum]. intros r Hr. now right.
    - intros a b Ha _ Na. exfalso. rewrite Forall_forall in Hnum.
      specialize (Hnum a Ha). unfold key_is_nullish in Na.
      unfold number_at in Hnum.
      destruct (Row.get a k); try discriminate Na; congruence. }
  unfold V4.sortedData. rewrite !Hact. cbn [SortConfig.direction].
  rewrite !sort_consistent by apply Hcons.
  set (num := fun r : Row.t =>
                match number_at k r with Some n => n | None => 0 end).
  set (P := fun r : Row.t => number_at k r <> None).
  assert (Hsorted : forall d,
            ForallOrdPairs
              (fun a b => match d with
                          | asc => num a < num b
                          | desc => num b < num a
                          end) (insertion_sort (V4.compare k d) data)).
  { intros d.
    set (f := fun r : Row.t => match d with asc => num r | desc => - num r end).
    assert (Hle : ForallOrdPairs (fun a b => f a <= f b)
                    (insertion_sort (V4.compare k d) data)).
    { apply (insertion_sort_by_key (V4.compare k d) f P); [|exact Hnum].
      intros a b Ha Hb. unfold P in Ha, Hb.
      destruct (number_at k a) as [x|] eqn:Ea; [|congruence].
      destruct (number_at k b) as [y|] eqn:Eb; [|congruence].
      rewrite (V4_compare_numbers k d a b x y Ea Eb).
      unfold f, num. rewrite Ea, Eb. destruct d; lia. }
    assert (Hne : ForallOrdPairs (fun a b => number_at k a <> number_at k b)
                    (insertion_sort (V4.compare k d) data)).
    { apply ForallOrdPairs_NoDup.
      apply (Permutation_NoDup (l := map (number_at k) data)); [|exact Hnd].
      apply Permutation_map, Permutation_sym, insertion_sort_perm. }
    pose proof (ForallOrdPairs_and _ _ _ Hle Hne) as Hboth.
    eapply ForallOrdPairs_impl_In; [|exact Hboth].
    cbv beta. intros a b Ha Hb [Hab Hdiff].
    apply in_insertion_sort in Ha, Hb. rewrite Forall_forall in Hnum.
    pose proof (Hnum a Ha) as Pa. pose proof (Hnum b Hb) as Pb.
    unfold f, num in Hab |- *. cbv beta in Hab |- *.
    destruct (number_at k a) as [x|]; [|congruence].
    destruct (number_at k b) as [y|]; [|congruence].
    assert (x <> y) by congruence. destruct d; lia. }
  apply (strictly_sorted_unique (fun r => - num r)).
  - rewrite <- Permutation_rev, !insertion_sort_perm. reflexivity.
  - eapply ForallOrdPairs_impl; [|exact (Hsorted desc)].
    intros a b H. cbn beta iota in H. lia.
  - pose proof (ForallOrdPairs_rev _ _ (Hsorted asc)) as Hrev.
    eapply ForallOrdPairs_impl; [|exact Hrev].
    intros a b H. cbn beta iota in H. lia.
Qed.

Lemma V4_descending_reverses_ascending_witness :
  V4.sortedData (host := Fixture.host) Fixture.testData
    (SortConfig.mk (Some "id") desc)
  = rev (V4.sortedData (host := Fixture.host) Fixture.testData
           (SortConfig.mk (Some "id") asc)).
Proof.
  apply (V4_descending_reverses_ascending (host := Fixture.host)
           Fixture.testData "id").
  - discriminate.
  - unfold Fixture.testData.
    repeat (apply Forall_cons; [vm_compute; discriminate|]).
    apply Forall_nil.
  - vm_compute.
    repeat (apply NoDup_cons; [vm_compute; intuition discriminate|]).
    apply NoDup_nil.
Defined.
